(** * CytoPy: population merging, density estimation and divergence caching

    A shallow embedding of
      - [CytoPy/data/populations.py]   (merging of gated populations),
      - [cytopy/flow/utilities.py]     (kernel density estimation helpers),
      - [cytopy/flow/batch_effects.py] (divergence between samples, with a
        cache of density estimates),
    and the properties of the specification checked against them.

    Conventions.  Floating-point measurements are modelled by exact rationals
    ([Q]); the special values a divergence can take (infinities, nan) are kept
    apart in [float].  Python objects that are mutated in place live in an
    explicit heap and are passed by location.  Exceptions are values of [exn];
    a computation that raises keeps the side effects it made before raising.
    Third-party libraries (shapely, scikit-learn, scipy, the transcendental
    functions of numpy) are interfaces ([Class]) the embedded code is
    parameterised by. *)

From Stdlib Require Import ZArith QArith Qround List String Sorted Lia.
From stdpp Require Import base option list sorting gmap sets strings.

Close Scope Q_scope.
Local Open Scope string_scope.
Local Open Scope list_scope.

(** ** Python runtime: exceptions, results, truthiness *)

Module Py.

Inductive exn : Type :=
| AssertionError (msg : string)
| TypeError (msg : string)
| KeyError (msg : string)
| IndexError (msg : string)
| ValueError (msg : string)
| AttributeError (msg : string)
| DanglingReference.

Inductive result (A : Type) : Type :=
| Ok (a : A)
| Raise (e : exn).
Arguments Ok {A} a.
Arguments Raise {A} e.

Definition is_ok {A} (r : result A) : bool :=
  match r with Ok _ => true | Raise _ => false end.

(** [a or b] on an optional string: [None] and the empty string are falsy. *)
Definition str_or (a : option string) (b : string) : string :=
  match a with
  | Some s => if String.eqb s "" then b else s
  | None => b
  end.

(** [sep.join([a, b])] *)
Definition join2 (sep a b : string) : string := a ++ sep ++ b.

(** Python [dict] with string keys: insertion ordered, one entry per key.
    Assigning to a present key replaces the value in place; assigning to an
    absent key appends the entry. *)
Definition dict (V : Type) : Type := list (string * V).

Fixpoint dict_get {V} (d : dict V) (k : string) : option V :=
  match d with
  | [] => None
  | (k', v) :: d' => if String.eqb k' k then Some v else dict_get d' k
  end.

Definition dict_mem {V} (d : dict V) (k : string) : bool :=
  match dict_get d k with Some _ => true | None => false end.

Fixpoint dict_set {V} (d : dict V) (k : string) (v : V) : dict V :=
  match d with
  | [] => [(k, v)]
  | (k', v') :: d' =>
      if String.eqb k' k then (k', v) :: d' else (k', v') :: dict_set d' k v
  end.

Definition dict_keys {V} (d : dict V) : list string := map fst d.

(** [x in xs] for a list of strings *)
Definition str_in (x : string) (xs : list string) : bool :=
  existsb (String.eqb x) xs.

End Py.

Import Py.

(** ** [CytoPy/data/populations.py] *)

Module Populations.

(** *** Data model *)

(** Modelled from the spec: [CytoPy.data.geometry] (the classes
    [PopulationGeometry], [ThresholdGeom] and [PolygonGeom]) is imported by
    the source but is not part of it.  Following the data model of the
    specification, a geometry is a tagged variant; both variants carry the
    two axes and their transforms, a threshold geometry adds one threshold per
    axis, a polygon geometry the coordinates of its boundary. *)
Record Axes : Type := {
  geom_x : string;
  geom_y : string;
  transform_x : string;
  transform_y : string
}.

Inductive PopulationGeometry : Type :=
| ThresholdGeom (ax : Axes) (x_threshold y_threshold : Q)
| PolygonGeom (ax : Axes) (x_values y_values : list Q).

Definition axes (g : PopulationGeometry) : Axes :=
  match g with
  | ThresholdGeom ax _ _ => ax
  | PolygonGeom ax _ _ => ax
  end.

Definition is_ThresholdGeom (g : PopulationGeometry) : bool :=
  match g with ThresholdGeom _ _ _ => true | PolygonGeom _ _ _ => false end.

Definition is_PolygonGeom (g : PopulationGeometry) : bool :=
  match g with PolygonGeom _ _ _ => true | ThresholdGeom _ _ _ => false end.

(** [isinstance(a, type(b))] for the two sibling classes *)
Definition isinstance_type_of (a b : PopulationGeometry) : bool :=
  Bool.eqb (is_ThresholdGeom a) (is_ThresholdGeom b).

Definition type_name (g : PopulationGeometry) : string :=
  match g with
  | ThresholdGeom _ _ _ => "<class 'CytoPy.data.geometry.ThresholdGeom'>"
  | PolygonGeom _ _ _ => "<class 'CytoPy.data.geometry.PolygonGeom'>"
  end.

(** A planar shape is the sequence of its boundary vertices. *)
Definition Shape : Type := list (Q * Q).

(** [geom.shape]: the polygon through the stored coordinates. *)
Definition shape (g : PopulationGeometry) : Shape :=
  match g with
  | PolygonGeom _ xs ys => combine xs ys
  | ThresholdGeom _ _ _ => []
  end.

(** The part of shapely the module uses: the intersection test of two shapes
    and the exterior ring of their union.  The union of shapes has an exterior
    when it is one polygon; shapes that only touch in a point intersect, and
    their union is a [MultiPolygon], which has none. *)
Class Shapely : Type := {
  intersects : Shape -> Shape -> bool;
  unary_union_exterior : list Shape -> option Shape
}.

Record Cluster : Type := {
  cluster_id : string;
  meta_label : option string;
  cluster_n : Z;
  prop_of_events : Q;
  tag : string;
  cluster_index : option (list Z)
}.

Record Population : Type := {
  population_name : string;
  n : Z;
  parent : string;
  prop_of_parent : option Q;
  prop_of_total : option Q;
  warnings : list string;
  geom : PopulationGeometry;
  clusters : list Cluster;
  definition : option string;
  signature : dict Q;
  index : option (list Z);
  ctrl_index : dict (list Z)
}.

Definition with_clusters (p : Population) (cs : list Cluster) : Population :=
  {| population_name := population_name p; n := n p; parent := parent p;
     prop_of_parent := prop_of_parent p; prop_of_total := prop_of_total p;
     warnings := warnings p; geom := geom p; clusters := cs;
     definition := definition p; signature := signature p;
     index := index p; ctrl_index := ctrl_index p |}.

Definition with_population_name (p : Population) (s : string) : Population :=
  {| population_name := s; n := n p; parent := parent p;
     prop_of_parent := prop_of_parent p; prop_of_total := prop_of_total p;
     warnings := warnings p; geom := geom p; clusters := clusters p;
     definition := definition p; signature := signature p;
     index := index p; ctrl_index := ctrl_index p |}.

(** *** Heap of population objects and the effect monad

    A population is a mutable object: [_merge_thresholds] assigns to a field of
    its argument and [merge_multiple_populations] to a field of its result.
    Objects live in a heap and are named by their location; a new object takes
    the next free location.  [emitted] collects the messages handed to
    [warn]. *)

Abbreviation loc := nat (only parsing).

Record world : Type := {
  heap : list Population;
  emitted : list string
}.

Definition M (A : Type) : Type := world -> result A * world.

Definition ret {A} (a : A) : M A := fun w => (Ok a, w).

Definition bind {A B} (m : M A) (k : A -> M B) : M B :=
  fun w =>
    match m w with
    | (Ok a, w') => k a w'
    | (Raise e, w') => (Raise e, w')
    end.

Definition raise {A} (e : exn) : M A := fun w => (Raise e, w).

#[export] Instance M_ret : MRet M := @ret.
#[export] Instance M_bind : MBind M := fun A B k m => bind m k.

Definition py_assert (b : bool) (msg : string) : M unit :=
  if b then ret tt else raise (AssertionError msg).

(** Reading an object.  Locations come from the caller or from [alloc], so
    the failure branch is never taken from a Python program. *)
Definition deref (l : loc) : M Population :=
  fun w =>
    match heap w !! l with
    | Some p => (Ok p, w)
    | None => (Raise DanglingReference, w)
    end.

Definition update (l : loc) (f : Population -> Population) : M unit :=
  fun w =>
    match heap w !! l with
    | Some p => (Ok tt, {| heap := <[l := f p]> (heap w); emitted := emitted w |})
    | None => (Raise DanglingReference, w)
    end.

Definition alloc (p : Population) : M loc :=
  fun w => (Ok (length (heap w)),
            {| heap := heap w ++ [p]; emitted := emitted w |}).

Definition warn (msg : string) : M unit :=
  fun w => (Ok tt, {| heap := heap w; emitted := emitted w ++ [msg] |}).

(** *** numpy and pandas helpers *)

(** [np.unique] of a one-dimensional integer array: the sorted array of its
    distinct values. *)
Fixpoint insert_unique (z : Z) (l : list Z) : list Z :=
  match l with
  | [] => [z]
  | y :: l' =>
      if (z <? y)%Z then z :: y :: l'
      else if (z =? y)%Z then y :: l'
      else y :: insert_unique z l'
  end.

Definition np_unique (l : list Z) : list Z := fold_right insert_unique [] l.

(** [pd.DataFrame([a, b]).mean().to_dict()]: the columns are the keys of [a]
    followed by the keys only [b] has; the mean of a column skips the row in
    which the key is missing. *)
Definition column_mean (a b : dict Q) (k : string) : Q :=
  match dict_get a k, dict_get b k with
  | Some u, Some v => ((u + v) / 2)%Q
  | Some u, None => u
  | None, Some v => v
  | None, None => 0%Q
  end.

Definition frame_columns (a b : dict Q) : list string :=
  dict_keys a ++ filter (fun k => negb (dict_mem a k)) (dict_keys b).

Definition frame_mean (a b : dict Q) : dict Q :=
  map (fun k => (k, column_mean a b k)) (frame_columns a b).

(** *** The functions of the module *)

Definition msg_overlap_type : string :=
  "Only Polygon geometries can be checked for overlap".
Definition msg_non_overlapping : string :=
  "Invalid: non-overlapping populations".
Definition msg_transform_x : string :=
  "X dimension transform differs between left and right populations".
Definition msg_transform_y : string :=
  "Y dimension transform differs between left and right populations".
Definition msg_x : string :=
  "X dimension differs between left and right populations".
Definition msg_y : string :=
  "Y dimension differs between left and right populations".
Definition msg_x_threshold : string :=
  "Threshold merge assumes that the populations are derived from the same gate; X threshold should match between populations".
Definition msg_y_threshold : string :=
  "Threshold merge assumes that the populations are derived from the same gate; Y threshold should match between populations".
Definition msg_parent : string :=
  "Parent populations do not match".
Definition msg_same_name : string :=
  "If a new population name is not given the populations are expected to have the same population name".
Definition msg_clusters_void : string :=
  "Associated clusters are now void. Repeat clustering on new population".
Definition msg_ctrl_void : string :=
  "Associated control indexes are now void. Repeat control gating on new population".

Definition geom_x_threshold (g : PopulationGeometry) : Q :=
  match g with ThresholdGeom _ t _ => t | PolygonGeom _ _ _ => 0%Q end.
Definition geom_y_threshold (g : PopulationGeometry) : Q :=
  match g with ThresholdGeom _ _ t => t | PolygonGeom _ _ _ => 0%Q end.

Section WithShapely.
Context `{Shapely}.

Definition _check_overlap (left right : loc) (error : bool) : M bool :=
  l ← deref left;
  r ← deref right;
  py_assert (is_PolygonGeom (geom l) && is_PolygonGeom (geom r)) msg_overlap_type;;
  let overlap := intersects (shape (geom l)) (shape (geom r)) in
  (if error then py_assert overlap msg_non_overlapping else ret tt);;
  ret overlap.

Definition _check_transforms_dimensions (left right : loc) : M unit :=
  l ← deref left;
  r ← deref right;
  py_assert (String.eqb (transform_x (axes (geom l))) (transform_x (axes (geom r)))) msg_transform_x;;
  py_assert (String.eqb (transform_y (axes (geom l))) (transform_y (axes (geom r)))) msg_transform_y;;
  py_assert (String.eqb (geom_x (axes (geom l))) (geom_x (axes (geom r)))) msg_x;;
  py_assert (String.eqb (geom_y (axes (geom l))) (geom_y (axes (geom r)))) msg_y.

(** [len(x.index)]: fails on an index that was never loaded. *)
Definition len_index (p : Population) : M Z :=
  match index p with
  | Some i => ret (Z.of_nat (length i))
  | None => raise (TypeError "object of type 'NoneType' has no len()")
  end.

Definition _merge_index (l r : Population) : M (list Z) :=
  match index l, index r with
  | Some i, Some j => ret (np_unique (i ++ j))
  | _, _ => raise (ValueError "zero-dimensional arrays cannot be concatenated")
  end.

Definition _merge_signatures (l r : Population) : dict Q :=
  frame_mean (signature l) (signature r).

(** [",".join([a, b])] on two optional strings *)
Definition join_definitions (a b : option string) : M string :=
  match a, b with
  | Some s, Some t => ret (join2 "," s t)
  | _, _ => raise (TypeError "sequence item: expected str instance, NoneType found")
  end.

Definition _merge_thresholds (left right : loc) (new_population_name : string)
  : M loc :=
  l ← deref left;
  r ← deref right;
  py_assert (Qeq_bool (geom_x_threshold (geom l)) (geom_x_threshold (geom r)))
            msg_x_threshold;;
  py_assert (Qeq_bool (geom_y_threshold (geom l)) (geom_y_threshold (geom r)))
            msg_y_threshold;;
  (match clusters l, clusters r with
   | [], [] => ret tt
   | _, _ =>
       warn msg_clusters_void;;
       (* left.clusters, right_clusters = [], [] : the second target is a
          fresh local variable *)
       update left (fun p => with_clusters p [])
   end);;
  (if (0 <? length (ctrl_index l))%nat || (0 <? length (ctrl_index r))%nat
   then warn msg_ctrl_void else ret tt);;
  let new_geom :=
    ThresholdGeom {| geom_x := geom_x (axes (geom l));
                     geom_y := geom_y (axes (geom l));
                     transform_x := transform_x (axes (geom l));
                     transform_y := transform_y (axes (geom l)) |}
                  (geom_x_threshold (geom l)) (geom_y_threshold (geom l)) in
  nl ← len_index l;
  nr ← len_index r;
  idx ← _merge_index l r;
  def ← join_definitions (definition l) (definition r);
  alloc {| population_name := new_population_name;
           n := (nl + nr)%Z;
           parent := parent l;
           prop_of_parent := None;
           prop_of_total := None;
           warnings := warnings l ++ warnings r ++ ["MERGED POPULATION"];
           geom := new_geom;
           clusters := [];
           definition := Some def;
           signature := _merge_signatures l r;
           index := Some idx;
           ctrl_index := [] |}.

Definition msg_exterior : string :=
  "'MultiPolygon' object has no attribute 'exterior'".

Definition _merge_polygons (left right : loc) (new_population_name : string)
  : M loc :=
  _check_overlap left right true;;
  l ← deref left;
  r ← deref right;
  new_shape ←
    match unary_union_exterior [shape (geom l); shape (geom r)] with
    | Some ring => ret ring
    | None => raise (AttributeError msg_exterior)
    end;
  let new_geom :=
    PolygonGeom {| geom_x := geom_x (axes (geom l));
                   geom_y := geom_y (axes (geom l));
                   transform_x := transform_x (axes (geom l));
                   transform_y := transform_y (axes (geom l)) |}
                (map fst new_shape) (map snd new_shape) in
  nl ← len_index l;
  nr ← len_index r;
  idx ← _merge_index l r;
  alloc {| population_name := new_population_name;
           n := (nl + nr)%Z;
           parent := parent l;
           prop_of_parent := None;
           prop_of_total := None;
           warnings := warnings l ++ warnings r ++ ["MERGED POPULATION"];
           geom := new_geom;
           clusters := [];
           definition := None;
           signature := _merge_signatures l r;
           index := Some idx;
           ctrl_index := [] |}.

Definition merge_populations (left right : loc)
  (new_population_name : option string) : M loc :=
  _check_transforms_dimensions left right;;
  l ← deref left;
  r ← deref right;
  let new_population_name :=
    str_or new_population_name
      ("merge_" ++ population_name l ++ "_" ++ population_name r) in
  py_assert (String.eqb (parent l) (parent r)) msg_parent;;
  py_assert (isinstance_type_of (geom l) (geom r))
    ("Geometries must be of the same type; left=" ++ type_name (geom l)
       ++ ", right=" ++ type_name (geom r));;
  if is_ThresholdGeom (geom l)
  then _merge_thresholds left right new_population_name
  else _merge_polygons left right new_population_name.

(** [functools.reduce(f, xs)] without an initial value *)
Fixpoint reduce_from (f : loc -> loc -> M loc) (acc : loc) (xs : list loc)
  : M loc :=
  match xs with
  | [] => ret acc
  | x :: xs' => a ← f acc x; reduce_from f a xs'
  end.

Definition reduce (f : loc -> loc -> M loc) (xs : list loc) : M loc :=
  match xs with
  | [] => raise (TypeError "reduce() of empty iterable with no initial value")
  | x :: xs' => reduce_from f x xs'
  end.

(** [[p.population_name for p in populations]] *)
Fixpoint population_names (populations : list loc) : M (list string) :=
  match populations with
  | [] => ret []
  | p :: ps =>
      o ← deref p;
      rest ← population_names ps;
      ret (population_name o :: rest)
  end.

(** [a or populations[0].population_name]: the right operand is evaluated
    only when the left one is falsy. *)
Definition name_or_first (a : option string) (populations : list loc)
  : M string :=
  let first :=
    match populations with
    | [] => raise (IndexError "list index out of range")
    | p :: _ => o ← deref p; ret (population_name o)
    end in
  match a with
  | Some s => if String.eqb s "" then first else ret s
  | None => first
  end.

Definition merge_multiple_populations (populations : list loc)
  (new_population_name : option string) : M loc :=
  (match new_population_name with
   | None =>
       names ← population_names populations;
       py_assert (length (remove_dups names) =? 1)%nat msg_same_name
   | Some _ => ret tt
   end);;
  new_name ← name_or_first new_population_name populations;
  merged_pop ← reduce (fun p1 p2 => merge_populations p1 p2 None) populations;
  update merged_pop (fun p => with_population_name p new_name);;
  ret merged_pop.

End WithShapely.

(** *** Methods of [Population] *)

(** [Population.add_cluster]: a cluster is told from the others by its id and
    its tag together. *)
Definition same_id_and_tag (c x : Cluster) : bool :=
  String.eqb (cluster_id x) (cluster_id c) && String.eqb (tag x) (tag c).

Definition add_cluster (self : loc) (cluster : Cluster) : M unit :=
  p ← deref self;
  py_assert (negb (existsb (same_id_and_tag cluster) (clusters p)))
            ("Cluster already exists with id: " ++ cluster_id cluster
               ++ "; tag: " ++ tag cluster);;
  update self (fun q => with_clusters q (clusters q ++ [cluster])).

(** [Population.delete_clusters] *)
Definition delete_clusters (self : loc) (tag_ : option string) (drop_all : bool)
  : M unit :=
  if drop_all then update self (fun q => with_clusters q [])
  else
    py_assert (match tag_ with Some _ => true | None => false end)
              "Must provide a valid tag";;
    match tag_ with
    | Some t =>
        update self (fun q =>
          with_clusters q
            (List.filter (fun x => negb (String.eqb (tag x) t)) (clusters q)))
    | None => mret tt
    end.

(** *** Vocabulary for the properties *)

(** The guards of [merge_populations] on two populations, and what the two
    geometry paths need further to build the merged record. *)
Definition axes_eqb (a b : Axes) : bool :=
  String.eqb (transform_x a) (transform_x b)
  && String.eqb (transform_y a) (transform_y b)
  && String.eqb (geom_x a) (geom_x b)
  && String.eqb (geom_y a) (geom_y b).

Definition is_Some_b {A} (o : option A) : bool :=
  match o with Some _ => true | None => false end.

Definition mergeable `{Shapely} (pl pr : Population) : bool :=
  axes_eqb (axes (geom pl)) (axes (geom pr))
  && String.eqb (parent pl) (parent pr)
  && isinstance_type_of (geom pl) (geom pr)
  && is_Some_b (index pl) && is_Some_b (index pr)
  && (if is_ThresholdGeom (geom pl)
      then Qeq_bool (geom_x_threshold (geom pl)) (geom_x_threshold (geom pr))
           && Qeq_bool (geom_y_threshold (geom pl)) (geom_y_threshold (geom pr))
           && is_Some_b (definition pl) && is_Some_b (definition pr)
      else intersects (shape (geom pl)) (shape (geom pr))
           && is_Some_b (unary_union_exterior
                           [shape (geom pl); shape (geom pr)])).

(** The id and tag of every cluster of a list. *)
Definition cluster_keys (cs : list Cluster) : list (string * string) :=
  map (fun c => (cluster_id c, tag c)) cs.

(** A computation that leaves the state as it found it, however it ends. *)
Definition keeps_world {A} (m : M A) : Prop :=
  forall w r w', m w = (r, w') -> w' = w.

(** A computation whose assertion failures leave the state as it was. *)
Definition atomic_on_assert {A} (m : M A) : Prop :=
  forall w msg w', m w = (Raise (AssertionError msg), w') -> w' = w.

(** A computation that raises no assertion failure. *)
Definition never_asserts {A} (m : M A) : Prop :=
  forall w msg w', m w <> (Raise (AssertionError msg), w').

(** The index a location holds in a state. *)
Definition index_at (w : world) (l : loc) : option (list Z) :=
  match heap w !! l with
  | Some p => index p
  | None => None
  end.

(** The clusters are voided when either side has some. *)
Definition voids_clusters (pl pr : Population) : bool :=
  match clusters pl, clusters pr with
  | [], [] => false
  | _, _ => true
  end.

Definition voids_ctrl_index (pl pr : Population) : bool :=
  (0 <? length (ctrl_index pl))%nat || (0 <? length (ctrl_index pr))%nat.

(** The fields of a record produced by a merge of [pl] and [pr]. *)
Definition merged_from (pl pr : Population) (name : string) (p : Population)
  : Prop :=
  exists li ri,
    index pl = Some li /\ index pr = Some ri
    /\ population_name p = name
    /\ index p = Some (np_unique (li ++ ri))
    /\ n p = (Z.of_nat (length li) + Z.of_nat (length ri))%Z
    /\ parent p = parent pl
    /\ warnings p = warnings pl ++ warnings pr ++ ["MERGED POPULATION"]
    /\ signature p = _merge_signatures pl pr
    /\ clusters p = []
    /\ ctrl_index p = []
    /\ axes (geom p) = axes (geom pl).

(** *** The error kinds of the specification

    Every failure of the module is an [AssertionError]; the assertions are
    told apart by their message.  The specification names them by kind. *)
Inductive ErrorKind : Type :=
| IncompatibleGeometryError
| NonOverlappingGeometryError
| IncompatibleMergeError
| AmbiguousNameError.

Definition error_kind (e : exn) : option ErrorKind :=
  match e with
  | AssertionError m =>
      if str_in m [msg_x_threshold; msg_y_threshold]
      then Some IncompatibleGeometryError
      else if String.eqb m msg_non_overlapping
      then Some NonOverlappingGeometryError
      else if String.eqb m msg_same_name
      then Some AmbiguousNameError
      else if str_in m [msg_transform_x; msg_transform_y; msg_x; msg_y; msg_parent]
              || String.prefix "Geometries must be of the same type" m
      then Some IncompatibleMergeError
      else None
  | _ => None
  end.

(** *** A geometry library for closed examples

    Shapes are taken by their bounding boxes: two shapes meet when their boxes
    do, and the union of shapes is the box around all of them, unless two
    boxes meet in one corner only: then the union is not one polygon.  The
    examples use axis-parallel rectangles. *)
Definition qmin (a b : Q) : Q := if Qle_bool a b then a else b.
Definition qmax (a b : Q) : Q := if Qle_bool a b then b else a.

Definition bbox (s : Shape) : option (Q * Q * Q * Q) :=
  match s with
  | [] => None
  | (vx, vy) :: s' =>
      Some (fold_right qmin vx (map fst s'), fold_right qmax vx (map fst s'),
            fold_right qmin vy (map snd s'), fold_right qmax vy (map snd s'))
  end.

Definition bbox_intersects (s t : Shape) : bool :=
  match bbox s, bbox t with
  | Some (x0, x1, y0, y1), Some (u0, u1, v0, v1) =>
      Qle_bool x0 u1 && Qle_bool u0 x1 && Qle_bool y0 v1 && Qle_bool v0 y1
  | _, _ => false
  end.

Definition bbox_union (ss : list Shape) : Shape :=
  match bbox (concat ss) with
  | Some (x0, x1, y0, y1) => [(x0, y0); (x1, y0); (x1, y1); (x0, y1); (x0, y0)]
  | None => []
  end.

(** Two boxes that have one corner in common and nothing else. *)
Definition bbox_corner_touch (s t : Shape) : bool :=
  match bbox s, bbox t with
  | Some (x0, x1, y0, y1), Some (u0, u1, v0, v1) =>
      (Qeq_bool x1 u0 || Qeq_bool u1 x0) && (Qeq_bool y1 v0 || Qeq_bool v1 y0)
  | _, _ => false
  end.

Definition bbox_union_exterior (ss : list Shape) : option Shape :=
  match ss with
  | [s; t] => if bbox_corner_touch s t then None else Some (bbox_union ss)
  | _ => Some (bbox_union ss)
  end.

Definition rectangles : Shapely :=
  {| intersects := bbox_intersects;
     unary_union_exterior := bbox_union_exterior |}.

End Populations.

(** ** [cytopy/flow/utilities.py] *)

Module Utilities.

#[export] Instance result_ret : MRet result := @Ok.
#[export] Instance result_bind : MBind result :=
  fun A B k r => match r with Ok a => k a | Raise e => Raise e end.

Definition py_assert (b : bool) (msg : string) : result unit :=
  if b then Ok tt else Raise (AssertionError msg).

(** A two-dimensional numeric array: [shape1] columns ([x.shape[1]]) and the
    rows, each of that length. *)
Record Table : Type := {
  shape1 : nat;
  rows : list (list Q)
}.

Definition well_shaped (x : Table) : Prop :=
  Forall (fun r => length r = shape1 x) (rows x).

(** The values of the array, row after row. *)
Definition flat (x : Table) : list Q := concat (rows x).

(** *** numpy *)

Fixpoint insert_sorted (a : Q) (l : list Q) : list Q :=
  match l with
  | [] => [a]
  | b :: l' => if Qle_bool a b then a :: b :: l' else b :: insert_sorted a l'
  end.

Definition np_sort (l : list Q) : list Q := fold_right insert_sorted [] l.

(** [np.quantile(x, q)] over the flattened array, by linear interpolation
    between the two order statistics around position [q * (len - 1)].  On an
    empty array numpy has no rational answer (an [IndexError] or nan,
    depending on its version); the model raises. *)
Definition np_quantile (x : Table) (q : Q) : result Q :=
  let s := np_sort (flat x) in
  match s with
  | [] => Raise (IndexError "index -1 is out of bounds for axis 0 with size 0")
  | a :: _ =>
      let pos := (q * inject_Z (Z.of_nat (length s) - 1))%Q in
      let lo := Qfloor pos in
      let frac := (pos - inject_Z lo)%Q in
      let v_lo := nth (Z.to_nat lo) s a in
      let v_hi := nth (Z.to_nat (lo + 1)) s v_lo in
      Ok (v_lo + (v_hi - v_lo) * frac)%Q
  end.

Definition qmin (a b : Q) : Q := if Qle_bool a b then a else b.
Definition qmax (a b : Q) : Q := if Qle_bool a b then b else a.

(** [np.amin(x)] and [np.amax(x)] without an axis: over all the values. *)
Definition np_amin (x : Table) : result Q :=
  match flat x with
  | [] => Raise (ValueError "zero-size array to reduction operation minimum which has no identity")
  | a :: l => Ok (fold_left qmin l a)
  end.

Definition np_amax (x : Table) : result Q :=
  match flat x with
  | [] => Raise (ValueError "zero-size array to reduction operation maximum which has no identity")
  | a :: l => Ok (fold_left qmax l a)
  end.

(** [np.linspace(start, stop, num)]: [num] evenly spaced values, both ends
    included. *)
Definition np_linspace (start stop : Q) (num : nat) : list Q :=
  match num with
  | 0 => []
  | 1 => [start]
  | _ =>
      let step := ((stop - start) / inject_Z (Z.of_nat (num - 1)))%Q in
      map (fun i => (start + inject_Z (Z.of_nat i) * step)%Q) (seq 0 num)
  end.

(** [np.array(cols).T]: the rows of the array whose columns are [cols]. *)
Definition transpose (cols : list (list Q)) : list (list Q) :=
  match cols with
  | [] => []
  | c :: _ => map (fun i => map (fun col => nth i col 0%Q) cols) (seq 0 (length c))
  end.

(** Elementwise operation on two one-dimensional arrays, with numpy's
    broadcasting of an array of length one. *)
Definition broadcast2 (f : Q -> Q -> Q) (p q : list Q) : result (list Q) :=
  if (length p =? length q)%nat then Ok (zip_with f p q)
  else match p, q with
       | [a], _ => Ok (map (f a) q)
       | _, [b] => Ok (map (fun a => f a b) p)
       | _, _ => Raise (ValueError "operands could not be broadcast together")
       end.

(** Python values as far as the comparison in [kde_multivariant] needs them:
    a number or a list of numbers.  [==] between a list and a number is
    [False]. *)
Inductive pyval : Type :=
| PyNum (q : Q)
| PyList (l : list Q).

Definition py_eq (a b : pyval) : bool :=
  match a, b with
  | PyNum u, PyNum v => Qeq_bool u v
  | PyList l, PyList m =>
      (length l =? length m)%nat && forallb (fun uv => Qeq_bool (fst uv) (snd uv)) (combine l m)
  | _, _ => false
  end.

(** [xs[i]] *)
Definition getitem (xs : list Q) (i : nat) : result Q :=
  match xs !! i with
  | Some v => Ok v
  | None => Raise (IndexError "list index out of range")
  end.

(** *** The libraries behind [kde_multivariant]

    scikit-learn: fitting a [KernelDensity] with a bandwidth and keyword
    arguments, scoring rows with a fitted estimator (one log-density per row),
    and the bandwidth [GridSearchCV] selects by 20-fold cross-validation among
    the candidates it is given.  numpy: the rounded exponential and square
    root. *)
Class Sklearn : Type := {
  KernelDensity : Type;
  fit : dict string -> Q -> Table -> result KernelDensity;
  score_samples : KernelDensity -> list (list Q) -> result (list Q);
  score_samples_length :
    forall kde pts out, score_samples kde pts = Ok out -> length out = length pts;
  grid_search_cv : list Q -> nat -> Table -> result Q
}.

Class NumpyMath : Type := {
  np_exp : Q -> Q;
  np_sqrt : Q -> Q
}.


Inductive Bandwidth : Type :=
| BwStr (s : string)
| BwFloat (b : Q).

(** The double quote, which the message of the assertion holds. *)
Definition double_quote : string := String (Ascii.ascii_of_nat 34) EmptyString.

Definition msg_bandwidth : string :=
  "Invalid input for bandwidth, must be either float or "
  ++ double_quote ++ "cross_val" ++ double_quote.

Section WithLibraries.
Context `{Sklearn} `{NumpyMath}.

(** [hellinger_dot] *)
Definition hellinger_dot (p q : list Q) : result Q :=
  z ← broadcast2 (fun a b => (np_sqrt a - np_sqrt b)%Q) p q;
  Ok (np_sqrt (fold_right Qplus 0%Q (map (fun a => (a * a)%Q) z) / 2)%Q).

(** The candidate bandwidths of the cross-validated search: the two ends
    [bandwidth_search] and the 30 values spread between them. *)
Definition default_bandwidth_search (x : Table) : result (list Q) :=
  q05 ← np_quantile x (5 # 100);
  q95 ← np_quantile x (95 # 100);
  let bandwidth_search := [q05; q95] in
  if py_eq (PyList bandwidth_search) (PyNum 0)
  then Ok (<[0%nat := (1 # 100)%Q]> bandwidth_search)
  else Ok bandwidth_search.

Definition bandwidth_grid (x : Table) (bandwidth_search : option (list Q))
  : result (list Q) :=
  bs ← match bandwidth_search with
       | None => default_bandwidth_search x
       | Some bs => Ok bs
       end;
  b0 ← getitem bs 0;
  b1 ← getitem bs 1;
  Ok (np_linspace b0 b1 30).

(** [x_grid]: one grid per column of [x], every one of them from [np.amin(x)]
    to [np.amax(x)]. *)
Fixpoint x_grid_columns (x : Table) (x_grid_n : nat) (d : nat)
  : result (list (list Q)) :=
  match d with
  | 0 => Ok []
  | S d' =>
      lo ← np_amin x;
      hi ← np_amax x;
      rest ← x_grid_columns x x_grid_n d';
      Ok (np_linspace lo hi x_grid_n :: rest)
  end.

Definition x_grid (x : Table) (x_grid_n : nat) : result (list (list Q)) :=
  x_grid_columns x x_grid_n (shape1 x).

Definition kde_multivariant (x : Table) (bandwidth : Bandwidth)
  (bandwidth_search : option (list Q)) (x_grid_n : option nat)
  (kwargs : dict string) : result (list Q) :=
  bandwidth ←
    match bandwidth with
    | BwStr s =>
        py_assert (String.eqb s "cross_val") msg_bandwidth;;
        candidates ← bandwidth_grid x bandwidth_search;
        grid_search_cv candidates 20 x
    | BwFloat b => Ok b
    end;
  kde ← fit kwargs bandwidth x;
  log_pdf ←
    match x_grid_n with
    | Some num =>
        cols ← x_grid x num;
        score_samples kde (transpose cols)
    | None => score_samples kde (rows x)
    end;
  Ok (map np_exp log_pdf).

End WithLibraries.

(** *** Vocabulary for the properties *)

(** Column [j] of a table. *)
Definition column (x : Table) (j : nat) : list Q :=
  map (fun r => nth j r 0%Q) (rows x).

Definition list_min (l : list Q) : Q :=
  match l with [] => 0%Q | a :: l' => fold_left qmin l' a end.
Definition list_max (l : list Q) : Q :=
  match l with [] => 0%Q | a :: l' => fold_left qmax l' a end.

(** The grid as the specification words it: for each dimension on its own, a
    linear grid from that dimension's minimum to that dimension's maximum.
    It is here to be compared with [x_grid]. *)
Definition spec_per_dimension_grid (x : Table) (x_grid_n : nat)
  : list (list Q) :=
  map (fun j => np_linspace (list_min (column x j)) (list_max (column x j)) x_grid_n)
      (seq 0 (shape1 x)).

(** Two grids hold the same numbers. *)
Definition same_numbers (l m : list Q) : bool :=
  (length l =? length m)%nat
  && forallb (fun uv => Qeq_bool (fst uv) (snd uv)) (combine l m).

Definition same_grid (g h : list (list Q)) : bool :=
  (length g =? length h)%nat
  && forallb (fun cd => same_numbers (fst cd) (snd cd)) (combine g h).

End Utilities.

(** ** [cytopy/flow/batch_effects.py] *)

Module BatchEffects.
Import Utilities.

(** A Python float as a divergence can return it. *)
Inductive float : Type :=
| Finite (q : Q)
| PosInf
| NegInf
| NaN.

(** [a == b] on floats: nan equals nothing. *)
Definition float_eq (a b : float) : bool :=
  match a, b with
  | Finite u, Finite v => Qeq_bool u v
  | PosInf, PosInf => true
  | NegInf, NegInf => true
  | _, _ => false
  end.

(** [x in xs] *)
Definition float_in (x : float) (xs : list float) : bool :=
  existsb (float_eq x) xs.


(** scipy: [scipy.spatial.distance.jensenshannon] and [scipy.stats.entropy],
    by their outcome.  Both return a float, never [None].  The warnings numpy
    raises inside them (on a division by zero, for one) are not part of the
    outcome. *)
Class Scipy : Type := {
  jsd : list Q -> list Q -> result float;
  kl : list Q -> list Q -> result float
}.


(** The loader of the samples, [utilities.load_and_transform], by its
    outcome: gating, transformation, scaling and sub-sampling are done by
    collaborators outside this development.  What the loader and its
    collaborators print themselves (the line about a sample with fewer rows
    than asked for, for one) is not part of the outcome. *)
Class Loader : Type := {
  load_and_transform :
    string -> string -> string -> option string -> option nat -> result Table
}.

(** The object [EvaluateBatchEffects]. *)
Record EvaluateBatchEffects : Type := {
  sample_ids : list string;
  transform : string;
  scale : option string;
  sample_n : option nat;
  root_population : string;
  data : dict Table;
  kde_cache : dict (list Q)
}.

Definition with_kde_cache (s : EvaluateBatchEffects) (c : dict (list Q))
  : EvaluateBatchEffects :=
  {| sample_ids := sample_ids s; transform := transform s; scale := scale s;
     sample_n := sample_n s; root_population := root_population s;
     data := data s; kde_cache := c |}.

Definition with_data (s : EvaluateBatchEffects) (d : dict Table)
  : EvaluateBatchEffects :=
  {| sample_ids := sample_ids s; transform := transform s; scale := scale s;
     sample_n := sample_n s; root_population := root_population s;
     data := d; kde_cache := kde_cache s |}.

(** The state a call runs in: the object, what was printed or warned, and (a
    ghost field, for stating the properties of the cache) the ids of the
    samples a density was estimated for, in the order of the estimations. *)
Record world : Type := {
  self : EvaluateBatchEffects;
  stdout : list string;
  estimated : list string
}.

Definition B (A : Type) : Type := world -> result A * world.

Definition ret {A} (a : A) : B A := fun w => (Ok a, w).

Definition bind {A C} (m : B A) (k : A -> B C) : B C :=
  fun w =>
    match m w with
    | (Ok a, w') => k a w'
    | (Raise e, w') => (Raise e, w')
    end.

#[export] Instance B_ret : MRet B := @ret.
#[export] Instance B_bind : MBind B := fun A C k m => bind m k.

Definition lift {A} (r : result A) : B A := fun w => (r, w).

Definition py_assert (b : bool) (msg : string) : B unit :=
  lift (Utilities.py_assert b msg).

Definition print (msg : string) : B unit :=
  fun w => (Ok tt, {| self := self w; stdout := stdout w ++ [msg];
                      estimated := estimated w |}).

Definition get_self : B EvaluateBatchEffects := fun w => (Ok (self w), w).

Definition set_self (s : EvaluateBatchEffects) : B unit :=
  fun w => (Ok tt, {| self := s; stdout := stdout w; estimated := estimated w |}).

(** [self.kde_cache[name] = q] *)
Definition cache_store (name : string) (q : list Q) : B unit :=
  s ← get_self;
  set_self (with_kde_cache s (dict_set (kde_cache s) name q)).

(** [d[k]] *)
Definition dict_item {V} (d : dict V) (k : string) : B V :=
  match dict_get d k with
  | Some v => ret v
  | None => lift (Raise (KeyError k))
  end.

Fixpoint mapM {A C} (f : A -> B C) (l : list A) : B (list C) :=
  match l with
  | [] => ret []
  | a :: l' => c ← f a; cs ← mapM f l'; ret (c :: cs)
  end.

Fixpoint forM_ {A} (f : A -> B unit) (l : list A) : B unit :=
  match l with
  | [] => ret tt
  | a :: l' => f a;; forM_ f l'
  end.

Definition msg_method : string :=
  "Invalid divergence metric must be one of [jsd, kl, hellinger]".
Definition msg_kl_warning : string :=
  "Warning: Kullback-Leiber Divergence chosen as statistical distance metric, KL divergence is an asymmetrical function and as such it should not be used for generating a divergence matrix".

Section WithLibraries.
Context `{Sklearn} `{NumpyMath} `{Scipy} `{Loader}.

Definition jsd_divergence (x y : list Q) : B float :=
  div ← lift (jsd x y);
  (* assert div is not None: a float is not None *)
  if float_in div [PosInf; NegInf] then ret (Finite 1) else ret div.

Definition kl_divergence (x y : list Q) : B float :=
  div ← lift (kl x y);
  ret div.

(** One run of the density estimator, as [calc_divergence] calls it: on the
    numeric values of a sample, with the cross-validated bandwidth and the
    default grid of 1000 points.  The id is recorded in the ghost field. *)
Definition estimate_density (name : string) (x : Table) (kde_kernel : string)
  : B (list Q) :=
  fun w =>
    (kde_multivariant x (BwStr "cross_val") None (Some 1000%nat)
                      [("kernel", kde_kernel)],
     {| self := self w; stdout := stdout w;
        estimated := estimated w ++ [name] |}).

(** [indexed_kde], with the estimator [calc_divergence] passes to it *)
Definition indexed_kde (kde_kernel : string) (named_x : string * Table)
  : B (string * list Q) :=
  q ← estimate_density (fst named_x) (snd named_x) kde_kernel;
  ret (fst named_x, q).

(** The samples [calc_divergence] still has to estimate: those of [self.data]
    asked for in [comparisons] and absent from the cache. *)
Definition samples_df (s : EvaluateBatchEffects) (comparisons : list string)
  : list (string * Table) :=
  filter (fun named => str_in (fst named) comparisons
                       && negb (str_in (fst named) (dict_keys (kde_cache s))))
         (data s).

Definition calc_divergence (target_id : string) (comparisons : list string)
  (kde_kernel : string) (divergence_method : string) (verbose : bool)
  : B (list (string * float)) :=
  py_assert (str_in divergence_method ["jsd"; "kl"; "hellinger"]) msg_method;;
  (if verbose && String.eqb divergence_method "kl"
   then print msg_kl_warning else ret tt);;
  (if verbose then print "Calculating PDF for target..." else ret tt);;
  s ← get_self;
  (if negb (str_in target_id (dict_keys (kde_cache s)))
   then
     target ← dict_item (data s) target_id;
     q ← estimate_density target_id target kde_kernel;
     cache_store target_id q
   else ret tt);;
  (if verbose
   then print ("Calculate PDF for all other samples and calculate F-divergence metric: "
                 ++ divergence_method ++ "...")
   else ret tt);;
  s ← get_self;
  (* pool.map: the estimates come back in the order of the samples *)
  q_ ← mapM (indexed_kde kde_kernel) (samples_df s comparisons);
  forM_ (fun named_q => cache_store (fst named_q) (snd named_q)) q_;;
  s ← get_self;
  if String.eqb divergence_method "jsd" then
    mapM (fun named_q =>
            p ← dict_item (kde_cache s) target_id;
            d ← jsd_divergence p (snd named_q);
            ret (fst named_q, d)) (kde_cache s)
  else if String.eqb divergence_method "kl" then
    mapM (fun named_q =>
            p ← dict_item (kde_cache s) target_id;
            d ← kl_divergence p (snd named_q);
            ret (fst named_q, d)) (kde_cache s)
  else
    mapM (fun named_q =>
            p ← dict_item (kde_cache s) target_id;
            d ← lift (hellinger_dot p (snd named_q));
            ret (fst named_q, Finite d)) (kde_cache s).

(** [utilities.ordered_load_transform]: a sample without the root population
    is reported and loaded as [None]. *)
Definition ordered_load_transform (s : EvaluateBatchEffects) (sample_id : string)
  : B (string * option Table) :=
  match load_and_transform sample_id (root_population s) (transform s)
                           (scale s) (sample_n s) with
  | Ok df => ret (sample_id, Some df)
  | Raise (KeyError _) =>
      print ("Sample " ++ sample_id ++ " missing root population "
               ++ root_population s);;
      ret (sample_id, None)
  | Raise e => lift (Raise e)
  end.

Definition load_data : B (dict Table) :=
  s ← get_self;
  set_self (with_kde_cache s []);;
  s ← get_self;
  loaded ← mapM (ordered_load_transform s) (sample_ids s);
  ret (fold_left (fun samples named =>
                    match snd named with
                    | Some df => dict_set samples (fst named) df
                    | None => samples
                    end) loaded []).

(** The methods that reach the cache, as steps of a session. *)
Inductive call : Type :=
| CalcDivergence (target_id : string) (comparisons : list string)
                 (kde_kernel divergence_method : string) (verbose : bool)
| LoadData.

Definition run (c : call) : B unit :=
  match c with
  | CalcDivergence t cs k m v => calc_divergence t cs k m v;; ret tt
  | LoadData => load_data;; ret tt
  end.

End WithLibraries.

(** *** [divergence_barplot], up to the table it hands to the plot *)

(** An entry of the table: a sample id or a distance. *)
Inductive cell : Type :=
| Name (s : string)
| Distance (d : float).

Fixpoint foldM {A St} (f : St -> A -> B St) (l : list A) (s : St) : B St :=
  match l with
  | [] => ret s
  | a :: l' => s' ← f s a; foldM f l' s'
  end.

(** [hd_[key].append(x)] *)
Definition append_to (hd_ : dict (list cell)) (key : string) (x : cell)
  : B (dict (list cell)) :=
  column ← dict_item hd_ key;
  ret (dict_set hd_ key (column ++ [x])).

Section Plots.
Context `{Sklearn} `{NumpyMath} `{Scipy}.

(** The figure is made after the divergences are computed and drawn after the
    table is filled; both are matplotlib's and seaborn's business and are left
    out.  The table is returned as it is handed to the plot. *)
Definition divergence_barplot (target_id : string) (comparisons : list string)
  (kde_kernel divergence_method : string) (verbose : bool)
  : B (dict (list cell)) :=
  divergence ← calc_divergence target_id comparisons kde_kernel
                 divergence_method verbose;
  (if verbose then print "Plotting..." else ret tt);;
  foldM (fun hd_ n_h =>
           hd_ ← append_to hd_ "sample_id" (Name (fst n_h));
           append_to hd_ (divergence_method ++ " distance") (Distance (snd n_h)))
        divergence
        [("sample_id", []); ("hellinger_distance", [])].

(** [divergence_matrix], up to the rows of the matrix: one query per sample,
    each against all the samples.  The rows go to pandas, then to scipy's
    clustering and seaborn's heat map, which are left out. *)
Definition divergence_matrix (exclude : option (list string))
  (kde_kernel divergence_method : string)
  : B (list (string * list (string * float))) :=
  s ← get_self;
  let samples :=
    match exclude with
    | Some excluded => filter (fun x => negb (str_in x excluded)) (sample_ids s)
    | None => sample_ids s
    end in
  mapM (fun x =>
          divergence ← calc_divergence x samples kde_kernel divergence_method
                         false;
          ret (x, divergence))
       samples.

End Plots.

(** *** Vocabulary for the properties *)

(** A list comprehension whose body has no effect, as a value. *)
Fixpoint traverse {A C} (g : A -> result C) (l : list A) : result (list C) :=
  match l with
  | [] => Ok []
  | a :: l' => c ← g a; cs ← traverse g l'; Ok (c :: cs)
  end.

(** The table a sample id is loaded as, if any. *)
Definition loaded_table `{Loader} (s : EvaluateBatchEffects) (sample_id : string)
  : option Table :=
  match load_and_transform sample_id (root_population s) (transform s)
                           (scale s) (sample_n s) with
  | Ok df => Some df
  | Raise _ => None
  end.

(** The samples [divergence_matrix] makes a row for. *)
Definition matrix_samples (s : EvaluateBatchEffects)
    (exclude : option (list string)) : list string :=
  match exclude with
  | Some excluded => filter (fun x => negb (str_in x excluded)) (sample_ids s)
  | None => sample_ids s
  end.

(** The loader has no table for a sample id. *)
Definition missing `{Loader} (s : EvaluateBatchEffects) (sample_id : string)
  : bool :=
  match loaded_table s sample_id with
  | Some _ => false
  | None => true
  end.

(** The ids a divergence query estimates a density for, in the order of the
    estimations: the target if the cache lacks it, then the samples of
    [self.data] asked for in [comparisons] that the cache lacks. *)
Definition to_estimate (s : EvaluateBatchEffects) (target_id : string)
    (comparisons : list string) : list string :=
  (if dict_mem (kde_cache s) target_id then [] else [target_id])
  ++ filter (fun k => str_in k comparisons
                      && negb (dict_mem (kde_cache s) k)
                      && negb (String.eqb k target_id))
            (dict_keys (data s)).

(** [for name, q in q_: cache[name] = q] *)
Definition store_all (c : dict (list Q)) (q_ : list (string * list Q))
  : dict (list Q) :=
  fold_left (fun c named_q => dict_set c (fst named_q) (snd named_q)) q_ c.

(** [named_q] is the id of a table of [self.data] with the density a query
    estimates for that table. *)
Definition density_of `{Sklearn} `{NumpyMath} (s : EvaluateBatchEffects)
    (kde_kernel : string) (named_q : string * list Q) : Prop :=
  exists x, (fst named_q, x) ∈ data s
            /\ kde_multivariant x (BwStr "cross_val") None (Some 1000%nat)
                 [("kernel", kde_kernel)]
               = Ok (snd named_q).

(** Every entry of [c] is an entry of [c'], with the same density. *)
Definition cache_extends (c c' : dict (list Q)) : Prop :=
  forall k v, dict_get c k = Some v -> dict_get c' k = Some v.

(** The cache of the object in a state. *)
Definition cache_of (w : world) : dict (list Q) := kde_cache (self w).

(** The cache has a density for every sample asked for that has a table. *)
Definition saturated (samples : list string) (w : world) : Prop :=
  forall id, str_in id samples = true -> id ∈ dict_keys (data (self w)) ->
             dict_mem (cache_of w) id = true.

(** The value [jsd_divergence] makes of the library's. *)
Definition clamp (div : float) : float :=
  if float_in div [PosInf; NegInf] then Finite 1 else div.

Section Divergence.
Context `{NumpyMath} `{Scipy}.

(** The divergence [calc_divergence] reports for a method, as a value. *)
Definition divergence_value (divergence_method : string) (p q : list Q)
  : result float :=
  if String.eqb divergence_method "jsd" then div ← jsd p q; Ok (clamp div)
  else if String.eqb divergence_method "kl" then kl p q
  else d ← hellinger_dot p q; Ok (Finite d).

(** The pair [calc_divergence] reports for an entry of the cache: its id and
    the divergence of its density from the density of the target. *)
Definition reported_pair (divergence_method : string) (cache : dict (list Q))
    (target_id : string) (named_q : string * list Q)
  : result (string * float) :=
  match dict_get cache target_id with
  | Some p =>
      d ← divergence_value divergence_method p (snd named_q);
      Ok (fst named_q, d)
  | None => Raise (KeyError target_id)
  end.

End Divergence.

(** What a divergence query may have done to the object since the state [w0]:
    the tables are the same, every entry the cache had is still there with the
    density it had, and whatever was estimated since was estimated for an id
    the cache did not have. *)
Definition grown_from (w0 w : world) : Prop :=
  data (self w) = data (self w0)
  /\ cache_extends (cache_of w0) (cache_of w)
  /\ exists new,
       estimated w = estimated w0 ++ new
       /\ Forall (fun k => dict_get (cache_of w0) k = None) new.



(** Partial-correctness triples over [B]: from a state satisfying [P], a run
    that returns [a] ends in a state satisfying [Q a], and a run that raises
    ends in a state satisfying [F]. *)
Definition triple {A} (P : world -> Prop) (m : B A)
    (Q : A -> world -> Prop) (F : world -> Prop) : Prop :=
  forall w r w', P w -> m w = (r, w') ->
    match r with
    | Ok a => Q a w'
    | Raise _ => F w'
    end.

End BatchEffects.

(** ** Concrete data for the closed examples *)

Module Examples.
Import Populations.

Definition gate_axes : Axes :=
  {| geom_x := "CD4"; geom_y := "CD8";
     transform_x := "logicle"; transform_y := "logicle" |}.

(** A population gated by a threshold pair, with the given name, parent,
    thresholds, events and clusters. *)
Definition threshold_population (name parent_name : string) (xt yt : Q)
  (events : list Z) (cs : list Cluster) : Population :=
  {| population_name := name;
     n := Z.of_nat (length events);
     parent := parent_name;
     prop_of_parent := Some (1 # 2)%Q;
     prop_of_total := Some (1 # 4)%Q;
     warnings := [];
     geom := ThresholdGeom gate_axes xt yt;
     clusters := cs;
     definition := Some "++";
     signature := [("CD4", (3 # 1)%Q); ("CD8", (1 # 1)%Q)];
     index := Some events;
     ctrl_index := [] |}.

(** A population gated by the rectangle with corners [(x0, y0)] and
    [(x1, y1)]. *)
Definition polygon_population (name parent_name : string) (x0 y0 x1 y1 : Q)
  (events : list Z) : Population :=
  {| population_name := name;
     n := Z.of_nat (length events);
     parent := parent_name;
     prop_of_parent := Some (1 # 2)%Q;
     prop_of_total := Some (1 # 4)%Q;
     warnings := [];
     geom := PolygonGeom gate_axes [x0; x1; x1; x0; x0] [y0; y0; y1; y1; y0];
     clusters := [];
     definition := None;
     signature := [("CD4", (3 # 1)%Q)];
     index := Some events;
     ctrl_index := [] |}.

Definition cluster_k : Cluster :=
  {| cluster_id := "k1"; meta_label := None; cluster_n := 2;
     prop_of_events := (1 # 2)%Q; tag := "kmeans";
     cluster_index := Some [1; 2]%Z |}.

Definition P1 : Population :=
  threshold_population "T cells" "root" (5 # 1) (7 # 1) [1; 2; 3]%Z [].
Definition P2 : Population :=
  threshold_population "T cells" "root" (5 # 1) (7 # 1) [3; 4; 5]%Z [].

(** As [P2], gated at another threshold on the first axis. *)
Definition P3 : Population :=
  threshold_population "T cells" "root" (6 # 1) (7 # 1) [3; 4; 5]%Z [].
(** As [P2], under another parent. *)
Definition P4 : Population :=
  threshold_population "T cells" "lymphocytes" (5 # 1) (7 # 1) [3; 4; 5]%Z [].
(** As [P1] and [P2], carrying a cluster. *)
Definition P1c : Population :=
  threshold_population "T cells" "root" (5 # 1) (7 # 1) [1; 2; 3]%Z [cluster_k].
Definition P2c : Population :=
  threshold_population "T cells" "root" (5 # 1) (7 # 1) [3; 4; 5]%Z [cluster_k].
(** As [P2], under another name. *)
Definition P5 : Population :=
  threshold_population "B cells" "root" (5 # 1) (7 # 1) [3; 4; 5]%Z [].

(** The unit square, a square apart from it and a square across its corner. *)
Definition R1 : Population :=
  polygon_population "blasts" "root" 0 0 1 1 [1; 2; 3]%Z.
Definition R2 : Population :=
  polygon_population "blasts" "root" 2 2 3 3 [3; 4; 5]%Z.
Definition R3 : Population :=
  polygon_population "blasts" "root" (1 # 2) (1 # 2) 2 2 [3; 4; 5]%Z.
(** A square that has the corner (1, 1) in common with the unit square and
    nothing else. *)
Definition R4 : Population :=
  polygon_population "blasts" "root" 1 1 2 2 [3; 4; 5]%Z.

(** As [R1] and [R3], each carrying a cluster and a control index. *)
Definition R1c : Population :=
  {| population_name := "blasts"; n := 3; parent := "root";
     prop_of_parent := Some (1 # 2)%Q; prop_of_total := Some (1 # 4)%Q;
     warnings := ["sparse"]; geom := geom R1; clusters := [cluster_k];
     definition := None; signature := [("CD4", (3 # 1)%Q)];
     index := Some [1; 2; 3]%Z; ctrl_index := [("FMO", [7; 8]%Z)] |}.
Definition R3c : Population :=
  {| population_name := "blasts"; n := 3; parent := "root";
     prop_of_parent := Some (1 # 2)%Q; prop_of_total := Some (1 # 4)%Q;
     warnings := []; geom := geom R3; clusters := [cluster_k];
     definition := None; signature := [("CD8", (5 # 1)%Q)];
     index := Some [3; 4; 5]%Z; ctrl_index := [] |}.

(** The heap holding the given populations, nothing emitted yet. *)
Definition world_of (ps : list Population) : world :=
  {| heap := ps; emitted := [] |}.

(** Tables: two columns on different scales; a table of zeros; a table
    without rows. *)
Definition two_scales : Utilities.Table :=
  {| Utilities.shape1 := 2;
     Utilities.rows := [[0; 10]; [1; 20]]%Q |}.
Definition zeros : Utilities.Table :=
  {| Utilities.shape1 := 1;
     Utilities.rows := [[0]; [0]; [0]]%Q |}.

(** An estimator library that accepts every table and bandwidth: the fitted
    estimator is the bandwidth, every row scores the bandwidth, and the search
    settles on the first candidate. *)
Program Definition lenient_sklearn : Utilities.Sklearn :=
  {| Utilities.KernelDensity := Q;
     Utilities.fit := fun _ b _ => Ok b;
     Utilities.score_samples := fun b pts => Ok (map (fun _ => b) pts);
     Utilities.grid_search_cv := fun candidates _ _ =>
       match candidates with
       | [] => Raise (ValueError "no candidate")
       | b :: _ => Ok b
       end |}.
Next Obligation.
  intros kde pts out E. injection E as <-. apply length_map.
Qed.



(** Crude stand-ins for the exponential and the square root. *)
Definition coarse_math : Utilities.NumpyMath :=
  {| Utilities.np_exp := fun q => (1 + q)%Q;
     Utilities.np_sqrt := fun q => q |}.

(** A divergence library that answers [v] whatever the densities; it serves
    to run the wrappers at a chosen library value. *)
Definition constant_scipy (v : BatchEffects.float) : BatchEffects.Scipy :=
  {| BatchEffects.jsd := fun _ _ => Ok v;
     BatchEffects.kl := fun _ _ => Ok v |}.




(** A loader that knows the samples "a", "b" and "c". *)
Definition three_samples : BatchEffects.Loader :=
  {| BatchEffects.load_and_transform := fun sample_id _ _ _ _ =>
       if str_in sample_id ["a"; "b"; "c"] then Ok two_scales
       else Raise (KeyError sample_id) |}.

(** An object over the three samples, the density of "c" already cached. *)
Definition session : BatchEffects.EvaluateBatchEffects :=
  {| BatchEffects.sample_ids := ["a"; "b"; "c"];
     BatchEffects.transform := "logicle";
     BatchEffects.scale := None;
     BatchEffects.sample_n := Some 100%nat;
     BatchEffects.root_population := "root";
     BatchEffects.data := [("a", two_scales); ("b", zeros); ("c", two_scales)];
     BatchEffects.kde_cache := [("c", [1 # 2; 1 # 2]%Q)] |}.

Definition session_world : BatchEffects.world :=
  {| BatchEffects.self := session;
     BatchEffects.stdout := [];
     BatchEffects.estimated := [] |}.

(** An object that lists a sample the loader does not know, "d". *)
Definition incomplete_session : BatchEffects.EvaluateBatchEffects :=
  {| BatchEffects.sample_ids := ["a"; "d"; "b"];
     BatchEffects.transform := "logicle";
     BatchEffects.scale := None;
     BatchEffects.sample_n := None;
     BatchEffects.root_population := "root";
     BatchEffects.data := [];
     BatchEffects.kde_cache := [("c", [1 # 2; 1 # 2]%Q)] |}.

Definition incomplete_world : BatchEffects.world :=
  {| BatchEffects.self := incomplete_session;
     BatchEffects.stdout := [];
     BatchEffects.estimated := [] |}.

(** A loader whose gating of "b" fails otherwise than by a missing key. *)
Definition failing_loader : BatchEffects.Loader :=
  {| BatchEffects.load_and_transform := fun sample_id _ _ _ _ =>
       if String.eqb sample_id "b" then Raise (ValueError "no such gate")
       else if String.eqb sample_id "a" then Ok two_scales
       else Raise (KeyError sample_id) |}.

End Examples.

(** ** Properties of [populations.py] *)

Module PopulationsSpec.
Import Populations Examples.

(** *** Running the effect monad *)

Lemma bind_run {A C} (m : M A) (k : A -> M C) (w : world) :
  (m ≫= k) w =
  match m w with
  | (Ok a, w') => k a w'
  | (Raise e, w') => (Raise e, w')
  end.
Proof. reflexivity. Qed.

Lemma bind_Ok {A C} (m : M A) (k : A -> M C) w a w1 :
  m w = (Ok a, w1) -> (m ≫= k) w = k a w1.
Proof. intros E. rewrite bind_run, E. reflexivity. Qed.

Lemma bind_Raise {A C} (m : M A) (k : A -> M C) w e w1 :
  m w = (Raise e, w1) -> (m ≫= k) w = (Raise e, w1).
Proof. intros E. rewrite bind_run, E. reflexivity. Qed.

Lemma bind_Ok_inv {A C} (m : M A) (k : A -> M C) w c w' :
  (m ≫= k) w = (Ok c, w') ->
  exists a w1, m w = (Ok a, w1) /\ k a w1 = (Ok c, w').
Proof.
  rewrite bind_run. destruct (m w) as [[a|e] w1]; intros E.
  - exists a, w1. split; [reflexivity | exact E].
  - discriminate E.
Qed.

Lemma deref_Some l p w : heap w !! l = Some p -> deref l w = (Ok p, w).
Proof. intros E. unfold deref. rewrite E. reflexivity. Qed.

Lemma deref_Ok_inv l p w w' :
  deref l w = (Ok p, w') -> heap w !! l = Some p /\ w' = w.
Proof.
  unfold deref. destruct (heap w !! l); intros E; inversion E; auto.
Qed.

Lemma py_assert_true msg w : py_assert true msg w = (Ok tt, w).
Proof. reflexivity. Qed.

Lemma py_assert_false msg w :
  py_assert false msg w = (Raise (AssertionError msg), w).
Proof. reflexivity. Qed.

Lemma py_assert_Ok_inv b msg u w w' :
  py_assert b msg w = (Ok u, w') -> b = true /\ w' = w.
Proof. destruct b; intros E; inversion E; auto. Qed.

Lemma Qeq_bool_false_iff (a b : Q) : Qeq_bool a b = false <-> ~ (a == b)%Q.
Proof.
  split.
  - intros E Hab. apply Qeq_bool_iff in Hab. congruence.
  - intros Hn. destruct (Qeq_bool a b) eqn:E; [|reflexivity].
    apply Qeq_bool_iff in E. contradiction.
Qed.

(** Taking one step of a computation whose first action is known. *)
Ltac mstep :=
  first
    [ erewrite bind_Ok by (apply deref_Some; eassumption)
    | erewrite bind_Ok by apply py_assert_true
    | erewrite bind_Raise by apply py_assert_false ].

(** *** The guards on the geometry *)

Section Guards.
Context `{Shapely}.
Variables (w : world) (left right : loc) (pl pr : Population).
Hypothesis Hleft : heap w !! left = Some pl.
Hypothesis Hright : heap w !! right = Some pr.

Lemma check_transforms_dimensions_pass :
  axes (geom pl) = axes (geom pr) ->
  _check_transforms_dimensions left right w = (Ok tt, w).
Proof.
  intros Hax. unfold _check_transforms_dimensions.
  do 2 mstep. rewrite Hax, !String.eqb_refl. repeat mstep. reflexivity.
Qed.

Lemma merge_thresholds_x_mismatch name :
  ~ (geom_x_threshold (geom pl) == geom_x_threshold (geom pr))%Q ->
  _merge_thresholds left right name w
  = (Raise (AssertionError msg_x_threshold), w).
Proof.
  intros Hx. apply Qeq_bool_false_iff in Hx.
  unfold _merge_thresholds. do 2 mstep. rewrite Hx. mstep. reflexivity.
Qed.

Lemma merge_thresholds_y_mismatch name :
  (geom_x_threshold (geom pl) == geom_x_threshold (geom pr))%Q ->
  ~ (geom_y_threshold (geom pl) == geom_y_threshold (geom pr))%Q ->
  _merge_thresholds left right name w
  = (Raise (AssertionError msg_y_threshold), w).
Proof.
  intros Hx Hy. apply Qeq_bool_iff in Hx. apply Qeq_bool_false_iff in Hy.
  unfold _merge_thresholds. do 2 mstep. rewrite Hx. mstep.
  rewrite Hy. mstep. reflexivity.
Qed.

Lemma merge_thresholds_mismatch name :
  ~ ((geom_x_threshold (geom pl) == geom_x_threshold (geom pr))%Q
     /\ (geom_y_threshold (geom pl) == geom_y_threshold (geom pr))%Q) ->
  exists e, _merge_thresholds left right name w = (Raise e, w)
            /\ error_kind e = Some IncompatibleGeometryError.
Proof.
  intros Hn.
  destruct (Qeq_dec (geom_x_threshold (geom pl)) (geom_x_threshold (geom pr)))
    as [Hx|Hx].
  - exists (AssertionError msg_y_threshold). split; [|reflexivity].
    apply merge_thresholds_y_mismatch; [exact Hx|]. intros Hy. apply Hn. auto.
  - exists (AssertionError msg_x_threshold). split; [|reflexivity].
    apply merge_thresholds_x_mismatch. exact Hx.
Qed.

Lemma check_overlap_disjoint :
  is_PolygonGeom (geom pl) = true -> is_PolygonGeom (geom pr) = true ->
  intersects (shape (geom pl)) (shape (geom pr)) = false ->
  _check_overlap left right true w
  = (Raise (AssertionError msg_non_overlapping), w).
Proof.
  intros Hl Hr Hno. unfold _check_overlap. do 2 mstep.
  rewrite Hl, Hr. cbn [andb]. mstep. rewrite Hno. mstep. reflexivity.
Qed.

Lemma merge_polygons_disjoint name :
  is_PolygonGeom (geom pl) = true -> is_PolygonGeom (geom pr) = true ->
  intersects (shape (geom pl)) (shape (geom pr)) = false ->
  _merge_polygons left right name w
  = (Raise (AssertionError msg_non_overlapping), w).
Proof.
  intros Hl Hr Hno. unfold _merge_polygons.
  rewrite (bind_Raise _ _ _ _ _ (check_overlap_disjoint Hl Hr Hno)).
  reflexivity.
Qed.

(** [merge_populations] up to its dispatch, once the axes and transforms
    match. *)
Lemma merge_populations_dispatch oname :
  axes (geom pl) = axes (geom pr) ->
  merge_populations left right oname w =
  if negb (String.eqb (parent pl) (parent pr))
  then (Raise (AssertionError msg_parent), w)
  else if negb (isinstance_type_of (geom pl) (geom pr))
  then (Raise (AssertionError
                 ("Geometries must be of the same type; left="
                    ++ type_name (geom pl) ++ ", right=" ++ type_name (geom pr))), w)
  else
    let name := str_or oname ("merge_" ++ population_name pl ++ "_"
                                ++ population_name pr) in
    if is_ThresholdGeom (geom pl)
    then _merge_thresholds left right name w
    else _merge_polygons left right name w.
Proof.
  intros Hax. unfold merge_populations.
  rewrite (bind_Ok _ _ _ _ _ (check_transforms_dimensions_pass Hax)).
  do 2 mstep.
  destruct (String.eqb (parent pl) (parent pr)); cbn [negb]; mstep; [|reflexivity].
  destruct (isinstance_type_of (geom pl) (geom pr)); cbn [negb]; mstep;
    [|reflexivity].
  destruct (is_ThresholdGeom (geom pl)); reflexivity.
Qed.

End Guards.

(** *** What a successful merge has done *)

Lemma ret_Ok_inv {A} (a b : A) (w w' : world) :
  mret (M := M) a w = (Ok b, w') -> b = a /\ w' = w.
Proof. intros E. inversion E. auto. Qed.

Lemma update_Ok_inv l f u w w' :
  update l f w = (Ok u, w') ->
  exists p, heap w !! l = Some p
            /\ w' = {| heap := <[l := f p]> (heap w); emitted := emitted w |}.
Proof.
  unfold update. destruct (heap w !! l) as [p|]; intros E; inversion E.
  exists p. auto.
Qed.

Lemma alloc_Ok_inv p m w w' :
  alloc p w = (Ok m, w') ->
  m = length (heap w)
  /\ w' = {| heap := heap w ++ [p]; emitted := emitted w |}.
Proof. intros E. inversion E. auto. Qed.

Lemma warn_Ok_inv msg u w w' :
  warn msg w = (Ok u, w') ->
  w' = {| heap := heap w; emitted := emitted w ++ [msg] |}.
Proof. intros E. inversion E. auto. Qed.

Lemma len_index_Ok_inv p z w w' :
  len_index p w = (Ok z, w') ->
  exists i, index p = Some i /\ z = Z.of_nat (length i) /\ w' = w.
Proof.
  unfold len_index. destruct (index p) as [i|]; intros E; inversion E.
  exists i. auto.
Qed.

Lemma merge_index_Ok_inv pl pr idx w w' :
  _merge_index pl pr w = (Ok idx, w') ->
  exists i j, index pl = Some i /\ index pr = Some j
              /\ idx = np_unique (i ++ j) /\ w' = w.
Proof.
  unfold _merge_index.
  destruct (index pl) as [i|], (index pr) as [j|]; intros E; inversion E.
  exists i, j. auto.
Qed.

Lemma join_definitions_Ok_inv a b d w w' :
  join_definitions a b w = (Ok d, w') ->
  exists s t, a = Some s /\ b = Some t /\ d = join2 "," s t /\ w' = w.
Proof.
  unfold join_definitions. destruct a as [s|], b as [t|]; intros E; inversion E.
  exists s, t. auto.
Qed.

(** Peeling the first action off a computation that returned. *)
Tactic Notation "minv" hyp(H) "as" ident(a) ident(w1) ident(H1) :=
  apply bind_Ok_inv in H as (a & w1 & H1 & H).

Lemma merge_thresholds_Ok_inv left right name m w w' :
  _merge_thresholds left right name w = (Ok m, w') ->
  exists pl pr p,
    heap w !! left = Some pl /\ heap w !! right = Some pr
    /\ (geom_x_threshold (geom pl) == geom_x_threshold (geom pr))%Q
    /\ (geom_y_threshold (geom pl) == geom_y_threshold (geom pr))%Q
    /\ m = length (heap w)
    /\ heap w' = (if voids_clusters pl pr
                  then <[left := with_clusters pl []]> (heap w)
                  else heap w) ++ [p]
    /\ emitted w' = emitted w
                    ++ (if voids_clusters pl pr then [msg_clusters_void] else [])
                    ++ (if voids_ctrl_index pl pr then [msg_ctrl_void] else [])
    /\ merged_from pl pr name p
    /\ geom p = ThresholdGeom (axes (geom pl)) (geom_x_threshold (geom pl))
                              (geom_y_threshold (geom pl)).
Proof.
  unfold _merge_thresholds. intros E.
  minv E as pl w1 E1. apply deref_Ok_inv in E1 as [Hl ->].
  minv E as pr w1 E1. apply deref_Ok_inv in E1 as [Hr ->].
  minv E as u w1 E1. apply py_assert_Ok_inv in E1 as [Hx ->].
  minv E as u' w1 E1. apply py_assert_Ok_inv in E1 as [Hy ->].
  apply Qeq_bool_iff in Hx. apply Qeq_bool_iff in Hy.
  minv E as u1 w1 E1.
  assert (Hw : w1 = {| heap := if voids_clusters pl pr
                               then <[left := with_clusters pl []]> (heap w)
                               else heap w;
                       emitted := emitted w ++ (if voids_clusters pl pr
                                                then [msg_clusters_void] else []) |}).
  { unfold voids_clusters.
    destruct (clusters pl) as [|c cs], (clusters pr) as [|c' cs'].
    - apply ret_Ok_inv in E1 as [_ ->]. destruct w; simpl.
      rewrite app_nil_r. reflexivity.
    - minv E1 as u2 w2 E2. apply warn_Ok_inv in E2 as ->.
      apply update_Ok_inv in E1 as (q & Hq & ->). simpl in *.
      rewrite Hl in Hq. inversion Hq. reflexivity.
    - minv E1 as u2 w2 E2. apply warn_Ok_inv in E2 as ->.
      apply update_Ok_inv in E1 as (q & Hq & ->). simpl in *.
      rewrite Hl in Hq. inversion Hq. reflexivity.
    - minv E1 as u2 w2 E2. apply warn_Ok_inv in E2 as ->.
      apply update_Ok_inv in E1 as (q & Hq & ->). simpl in *.
      rewrite Hl in Hq. inversion Hq. reflexivity. }
  subst w1. clear E1.
  minv E as u2 w1 E1.
  assert (Hw : w1 = {| heap := if voids_clusters pl pr
                               then <[left := with_clusters pl []]> (heap w)
                               else heap w;
                       emitted := emitted w
                                  ++ (if voids_clusters pl pr
                                      then [msg_clusters_void] else [])
                                  ++ (if voids_ctrl_index pl pr
                                      then [msg_ctrl_void] else []) |}).
  { unfold voids_ctrl_index.
    destruct ((0 <? length (ctrl_index pl))%nat || (0 <? length (ctrl_index pr))%nat).
    - apply warn_Ok_inv in E1 as ->. simpl. rewrite <- app_assoc. reflexivity.
    - apply ret_Ok_inv in E1 as [_ ->]. rewrite !app_nil_r. reflexivity. }
  subst w1. clear E1.
  minv E as nl w1 E1. apply len_index_Ok_inv in E1 as (li & Hli & -> & ->).
  minv E as nr w1 E1. apply len_index_Ok_inv in E1 as (ri & Hri & -> & ->).
  minv E as idx w1 E1. apply merge_index_Ok_inv in E1 as (i & j & Hi & Hj & -> & ->).
  minv E as def w1 E1.
  apply join_definitions_Ok_inv in E1 as (s & t & Hs & Ht & -> & ->).
  apply alloc_Ok_inv in E as [-> ->]. simpl.
  rewrite Hli in Hi. rewrite Hri in Hj. inversion Hi. inversion Hj. subst i j.
  eexists pl, pr, _. repeat split; try eassumption.
  - destruct (voids_clusters pl pr); [rewrite length_insert|]; reflexivity.
  - exists li, ri. repeat split; try assumption.
    simpl. destruct (axes (geom pl)). reflexivity.
  - simpl. destruct (axes (geom pl)). reflexivity.
Qed.

Lemma check_overlap_Ok_inv `{Shapely} left right b w w' :
  _check_overlap left right true w = (Ok b, w') ->
  exists pl pr,
    heap w !! left = Some pl /\ heap w !! right = Some pr
    /\ is_PolygonGeom (geom pl) = true /\ is_PolygonGeom (geom pr) = true
    /\ intersects (shape (geom pl)) (shape (geom pr)) = true
    /\ w' = w.
Proof.
  unfold _check_overlap. intros E.
  minv E as pl w1 E1. apply deref_Ok_inv in E1 as [Hl ->].
  minv E as pr w1 E1. apply deref_Ok_inv in E1 as [Hr ->].
  minv E as u w1 E1. apply py_assert_Ok_inv in E1 as [Hp ->].
  minv E as u' w1 E1. apply py_assert_Ok_inv in E1 as [Ho ->].
  apply ret_Ok_inv in E as [_ ->].
  apply andb_prop in Hp as [Hpl Hpr].
  exists pl, pr. auto 10.
Qed.

Lemma merge_polygons_Ok_inv `{Shapely} left right name m w w' :
  _merge_polygons left right name w = (Ok m, w') ->
  exists pl pr p,
    heap w !! left = Some pl /\ heap w !! right = Some pr
    /\ is_PolygonGeom (geom pl) = true /\ is_PolygonGeom (geom pr) = true
    /\ intersects (shape (geom pl)) (shape (geom pr)) = true
    /\ m = length (heap w)
    /\ heap w' = heap w ++ [p]
    /\ emitted w' = emitted w
    /\ merged_from pl pr name p.
Proof.
  unfold _merge_polygons. intros E.
  minv E as b w1 E1.
  apply check_overlap_Ok_inv in E1 as (pl & pr & Hl & Hr & Pl & Pr & Ho & ->).
  minv E as pl' w1 E1. apply deref_Ok_inv in E1 as [Hl' ->].
  minv E as pr' w1 E1. apply deref_Ok_inv in E1 as [Hr' ->].
  rewrite Hl in Hl'. rewrite Hr in Hr'. inversion Hl'. inversion Hr'. subst pl' pr'.
  minv E as ring w1 E1.
  destruct (unary_union_exterior [shape (geom pl); shape (geom pr)]) as [ring'|];
    [|discriminate E1].
  apply ret_Ok_inv in E1 as [-> ->].
  minv E as nl w1 E1. apply len_index_Ok_inv in E1 as (li & Hli & -> & ->).
  minv E as nr w1 E1. apply len_index_Ok_inv in E1 as (ri & Hri & -> & ->).
  minv E as idx w1 E1. apply merge_index_Ok_inv in E1 as (i & j & Hi & Hj & -> & ->).
  apply alloc_Ok_inv in E as [-> ->]. simpl.
  rewrite Hli in Hi. rewrite Hri in Hj. inversion Hi. inversion Hj. subst i j.
  eexists pl, pr, _. repeat split; try eassumption.
  exists li, ri. repeat split; try assumption.
  simpl. destruct (axes (geom pl)). reflexivity.
Qed.

Lemma merge_polygons_Ok_exterior `{Shapely} left right name m w w' pl pr :
  heap w !! left = Some pl -> heap w !! right = Some pr ->
  _merge_polygons left right name w = (Ok m, w') ->
  exists ring,
    unary_union_exterior [shape (geom pl); shape (geom pr)] = Some ring.
Proof.
  unfold _merge_polygons. intros Hl Hr E.
  minv E as b w1 E1.
  apply check_overlap_Ok_inv in E1 as (pl0 & pr0 & _ & _ & _ & _ & _ & ->).
  minv E as pl' w1 E1. apply deref_Ok_inv in E1 as [Hl' ->].
  minv E as pr' w1 E1. apply deref_Ok_inv in E1 as [Hr' ->].
  rewrite Hl in Hl'. rewrite Hr in Hr'. inversion Hl'. inversion Hr'. subst pl' pr'.
  minv E as ring w1 E1.
  destruct (unary_union_exterior [shape (geom pl); shape (geom pr)]) as [ring'|];
    [eauto | discriminate E1].
Qed.

Lemma axes_eq (a b : Axes) :
  String.eqb (transform_x a) (transform_x b) = true ->
  String.eqb (transform_y a) (transform_y b) = true ->
  String.eqb (geom_x a) (geom_x b) = true ->
  String.eqb (geom_y a) (geom_y b) = true ->
  a = b.
Proof.
  destruct a, b. simpl. intros E1 E2 E3 E4.
  apply String.eqb_eq in E1, E2, E3, E4. congruence.
Qed.

Lemma check_transforms_dimensions_Ok_inv left right u w w' :
  _check_transforms_dimensions left right w = (Ok u, w') ->
  exists pl pr,
    heap w !! left = Some pl /\ heap w !! right = Some pr
    /\ axes (geom pl) = axes (geom pr) /\ w' = w.
Proof.
  unfold _check_transforms_dimensions. intros E.
  minv E as pl w1 E1. apply deref_Ok_inv in E1 as [Hl ->].
  minv E as pr w1 E1. apply deref_Ok_inv in E1 as [Hr ->].
  minv E as u1 w1 E1. apply py_assert_Ok_inv in E1 as [H1 ->].
  minv E as u2 w1 E1. apply py_assert_Ok_inv in E1 as [H2 ->].
  minv E as u3 w1 E1. apply py_assert_Ok_inv in E1 as [H3 ->].
  apply py_assert_Ok_inv in E as [H4 ->].
  exists pl, pr. repeat split; try assumption. apply axes_eq; assumption.
Qed.

(** What a merge that returned has done: both arguments passed the guards,
    the result is a new object at the next free location, and the only other
    change to the heap is the voiding of the clusters of the left argument on
    the threshold path. *)
Lemma merge_populations_Ok_inv `{Shapely} left right oname m w w' :
  merge_populations left right oname w = (Ok m, w') ->
  exists pl pr p,
    heap w !! left = Some pl /\ heap w !! right = Some pr
    /\ axes (geom pl) = axes (geom pr)
    /\ parent pl = parent pr
    /\ is_ThresholdGeom (geom pl) = is_ThresholdGeom (geom pr)
    /\ m = length (heap w)
    /\ heap w' = (if is_ThresholdGeom (geom pl) && voids_clusters pl pr
                  then <[left := with_clusters pl []]> (heap w)
                  else heap w) ++ [p]
    /\ merged_from pl pr
         (str_or oname ("merge_" ++ population_name pl ++ "_"
                          ++ population_name pr)) p.
Proof.
  unfold merge_populations. intros E.
  minv E as u w1 E1.
  apply check_transforms_dimensions_Ok_inv in E1 as (pl & pr & Hl & Hr & Hax & ->).
  minv E as pl' w1 E1. apply deref_Ok_inv in E1 as [Hl' ->].
  minv E as pr' w1 E1. apply deref_Ok_inv in E1 as [Hr' ->].
  rewrite Hl in Hl'. rewrite Hr in Hr'. inversion Hl'. inversion Hr'. subst pl' pr'.
  minv E as u1 w1 E1. apply py_assert_Ok_inv in E1 as [Hp ->].
  minv E as u2 w1 E1. apply py_assert_Ok_inv in E1 as [Ht ->].
  apply String.eqb_eq in Hp. apply Bool.eqb_prop in Ht.
  destruct (is_ThresholdGeom (geom pl)) eqn:Tl.
  - apply merge_thresholds_Ok_inv in E
      as (pl2 & pr2 & p & Hl2 & Hr2 & _ & _ & Hm & Hh & _ & Hf & _).
    rewrite Hl in Hl2. rewrite Hr in Hr2. inversion Hl2. inversion Hr2. subst pl2 pr2.
    exists pl, pr, p. rewrite Tl. cbn [andb].
    repeat apply conj; assumption || reflexivity.
  - apply merge_polygons_Ok_inv in E
      as (pl2 & pr2 & p & Hl2 & Hr2 & _ & _ & _ & Hm & Hh & _ & Hf).
    rewrite Hl in Hl2. rewrite Hr in Hr2. inversion Hl2. inversion Hr2. subst pl2 pr2.
    exists pl, pr, p. rewrite Tl. cbn [andb].
    repeat apply conj; assumption || reflexivity.
Qed.

(** C4. Two populations with matching axes and transforms: merging two
    threshold geometries whose x (or y) thresholds differ fails with the
    assertion the specification calls IncompatibleGeometryError, and merging
    two polygon geometries whose shapes do not intersect fails with the one it
    calls NonOverlappingGeometryError.  The failure leaves the heap as it was:
    no merged population is produced.  This holds of the two geometry paths
    [_merge_thresholds] and [_merge_polygons]; [merge_populations] fails as
    well, and with the same assertion when the parents agree (its own check
    of the parents comes first). *)
Theorem mismatched_geometry_fails {S : Shapely} (w : world) (left right : loc)
    (pl pr : Population) (oname : option string) (name : string) :
  heap w !! left = Some pl ->
  heap w !! right = Some pr ->
  axes (geom pl) = axes (geom pr) ->
  (is_ThresholdGeom (geom pl) = true ->
   is_ThresholdGeom (geom pr) = true ->
   ~ (geom_x_threshold (geom pl) == geom_x_threshold (geom pr))%Q
   \/ ~ (geom_y_threshold (geom pl) == geom_y_threshold (geom pr))%Q ->
   (exists e, _merge_thresholds left right name w = (Raise e, w)
              /\ error_kind e = Some IncompatibleGeometryError)
   /\ (exists e, merge_populations left right oname w = (Raise e, w))
   /\ (parent pl = parent pr ->
       exists e, merge_populations left right oname w = (Raise e, w)
                 /\ error_kind e = Some IncompatibleGeometryError))
  /\
  (is_PolygonGeom (geom pl) = true ->
   is_PolygonGeom (geom pr) = true ->
   intersects (shape (geom pl)) (shape (geom pr)) = false ->
   (exists e, _merge_polygons left right name w = (Raise e, w)
              /\ error_kind e = Some NonOverlappingGeometryError)
   /\ (exists e, merge_populations left right oname w = (Raise e, w))
   /\ (parent pl = parent pr ->
       exists e, merge_populations left right oname w = (Raise e, w)
                 /\ error_kind e = Some NonOverlappingGeometryError)).
Proof.
  intros Hl Hr Hax. split.
  - intros Tl Tr Hdiff.
    assert (Hn : ~ ((geom_x_threshold (geom pl) == geom_x_threshold (geom pr))%Q
                    /\ (geom_y_threshold (geom pl) == geom_y_threshold (geom pr))%Q))
      by (intros [Hx Hy]; destruct Hdiff; contradiction).
    assert (Hdisp : merge_populations left right oname w =
                    if negb (String.eqb (parent pl) (parent pr))
                    then (Raise (AssertionError msg_parent), w)
                    else _merge_thresholds left right
                           (str_or oname ("merge_" ++ population_name pl ++ "_"
                                            ++ population_name pr)) w).
    { rewrite (merge_populations_dispatch _ _ _ _ _ Hl Hr oname Hax).
      unfold isinstance_type_of. rewrite Tl, Tr. reflexivity. }
    split; [apply (merge_thresholds_mismatch _ _ _ _ _ Hl Hr name Hn)|].
    destruct (merge_thresholds_mismatch _ _ _ _ _ Hl Hr
                (str_or oname ("merge_" ++ population_name pl ++ "_"
                                 ++ population_name pr)) Hn) as (e & He & Hk).
    split.
    + rewrite Hdisp. destruct (negb _); eauto.
    + intros Hp. rewrite Hdisp, Hp, String.eqb_refl. cbn [negb]. eauto.
  - intros Tl Tr Hno.
    assert (Hdisp : merge_populations left right oname w =
                    if negb (String.eqb (parent pl) (parent pr))
                    then (Raise (AssertionError msg_parent), w)
                    else _merge_polygons left right
                           (str_or oname ("merge_" ++ population_name pl ++ "_"
                                            ++ population_name pr)) w).
    { rewrite (merge_populations_dispatch _ _ _ _ _ Hl Hr oname Hax).
      unfold isinstance_type_of.
      destruct (geom pl), (geom pr); try discriminate; reflexivity. }
    split.
    { exists (AssertionError msg_non_overlapping). split; [|reflexivity].
      apply (merge_polygons_disjoint _ _ _ _ _ Hl Hr name Tl Tr Hno). }
    split.
    + rewrite Hdisp. destruct (negb _); [eauto|].
      rewrite (merge_polygons_disjoint _ _ _ _ _ Hl Hr _ Tl Tr Hno). eauto.
    + intros Hp. rewrite Hdisp, Hp, String.eqb_refl. cbn [negb].
      rewrite (merge_polygons_disjoint _ _ _ _ _ Hl Hr _ Tl Tr Hno).
      eexists. split; reflexivity.
Qed.

Lemma mismatched_geometry_fails_witness :
  (exists e, _merge_thresholds 0 1 "merged" (world_of [P1; P3])
             = (Raise e, world_of [P1; P3])
             /\ error_kind e = Some IncompatibleGeometryError)
  /\
  (exists e, _merge_polygons (H := rectangles) 0 1 "merged" (world_of [R1; R2])
             = (Raise e, world_of [R1; R2])
             /\ error_kind e = Some NonOverlappingGeometryError).
Proof.
  split.
  - destruct (mismatched_geometry_fails (S := rectangles) (world_of [P1; P3])
                0 1 P1 P3 None "merged" eq_refl eq_refl eq_refl) as [HT _].
    destruct HT as (Hm & _ & _); [reflexivity | reflexivity | | exact Hm].
    left. unfold Qeq. simpl. lia.
  - destruct (mismatched_geometry_fails (S := rectangles) (world_of [R1; R2])
                0 1 R1 R2 None "merged" eq_refl eq_refl eq_refl) as [_ HP].
    destruct HP as (Hm & _ & _); [reflexivity | reflexivity | reflexivity |].
    exact Hm.
Defined.

(** *** The merged index *)

Lemma elem_of_insert_unique (z x : Z) (l : list Z) :
  x ∈ insert_unique z l <-> x = z \/ x ∈ l.
Proof.
  induction l as [|y l IH]; simpl.
  - rewrite list_elem_of_singleton, elem_of_nil. tauto.
  - destruct (z <? y)%Z eqn:Hlt; [apply elem_of_cons|].
    destruct (z =? y)%Z eqn:Heq.
    + apply Z.eqb_eq in Heq. subst y. rewrite elem_of_cons. tauto.
    + rewrite !elem_of_cons, IH. tauto.
Qed.

Lemma insert_unique_sorted (z : Z) (l : list Z) :
  StronglySorted Z.lt l -> StronglySorted Z.lt (insert_unique z l).
Proof.
  induction l as [|y l IH]; simpl; intros Hs.
  - repeat constructor.
  - inversion Hs as [|? ? Hl Hy]; subst.
    destruct (z <? y)%Z eqn:Hlt.
    + apply Z.ltb_lt in Hlt. constructor; [exact Hs|].
      constructor; [exact Hlt|].
      eapply Forall_impl; [exact Hy|]. intros a Ha. simpl in Ha. lia.
    + destruct (z =? y)%Z eqn:Heq; [exact Hs|].
      apply Z.ltb_ge in Hlt. apply Z.eqb_neq in Heq.
      constructor; [apply IH; exact Hl|].
      apply Forall_forall. intros a Ha.
      apply elem_of_insert_unique in Ha as [->|Ha]; [lia|].
      rewrite Forall_forall in Hy. apply Hy. exact Ha.
Qed.

Lemma np_unique_sorted (l : list Z) : StronglySorted Z.lt (np_unique l).
Proof.
  induction l as [|z l IH]; simpl; [constructor|].
  apply insert_unique_sorted. exact IH.
Qed.

Lemma elem_of_np_unique (x : Z) (l : list Z) : x ∈ np_unique l <-> x ∈ l.
Proof.
  induction l as [|z l IH]; simpl; [reflexivity|].
  rewrite elem_of_insert_unique, elem_of_cons, IH. reflexivity.
Qed.

Lemma strictly_sorted_NoDup (l : list Z) : StronglySorted Z.lt l -> NoDup l.
Proof.
  induction 1 as [|a l Hs IH Ha]; constructor; [|exact IH].
  intros Hin. rewrite Forall_forall in Ha. specialize (Ha a Hin). lia.
Qed.

Lemma np_unique_NoDup (l : list Z) : NoDup (np_unique l).
Proof. apply strictly_sorted_NoDup, np_unique_sorted. Qed.

(** The merged index is the union of the two indexes, as a set ... *)
Lemma np_unique_union (i j : list Z) :
  list_to_set (np_unique (i ++ j)) = (list_to_set i ∪ list_to_set j : gset Z).
Proof.
  apply set_eq. intros x.
  rewrite elem_of_union, !elem_of_list_to_set, elem_of_np_unique, elem_of_app.
  reflexivity.
Qed.

(** ... and it lists every element of the union once. *)
Lemma np_unique_length (i j : list Z) :
  length (np_unique (i ++ j)) = size (list_to_set i ∪ list_to_set j : gset Z).
Proof.
  rewrite <- np_unique_union. symmetry.
  apply size_list_to_set, np_unique_NoDup.
Qed.

(** The merged record of any two mergeable populations: its index is the
    union of the two indexes, and its field [n] is the sum of their lengths. *)
Lemma merge_populations_index_and_n `{Shapely} left right oname m w w' :
  merge_populations left right oname w = (Ok m, w') ->
  exists pl pr p li ri idx,
    heap w !! left = Some pl /\ heap w !! right = Some pr
    /\ index pl = Some li /\ index pr = Some ri
    /\ heap w' !! m = Some p
    /\ index p = Some idx
    /\ list_to_set idx = (list_to_set li ∪ list_to_set ri : gset Z)
    /\ length idx = size (list_to_set li ∪ list_to_set ri : gset Z)
    /\ n p = (Z.of_nat (length li) + Z.of_nat (length ri))%Z.
Proof.
  intros E.
  apply merge_populations_Ok_inv in E
    as (pl & pr & p & Hl & Hr & _ & _ & _ & Hm & Hh & Hf).
  destruct Hf as (li & ri & Hli & Hri & _ & Hidx & Hn & _).
  exists pl, pr, p, li, ri, (np_unique (li ++ ri)).
  repeat apply conj; try assumption.
  - rewrite Hh, Hm. apply list_lookup_middle.
    destruct (_ && _); [rewrite length_insert|]; reflexivity.
  - apply np_unique_union.
  - apply np_unique_length.
Qed.

(** C1. Merging the populations with indexes {1,2,3} and {3,4,5}: the index of
    the merged record is the union {1,2,3,4,5}, of size 5, while its field [n]
    is 6, the sum of the two lengths; event 3 is counted twice.  The same on
    the polygon path. *)
Theorem merged_n_counts_shared_events_twice :
  (let w' := snd (merge_populations (H := rectangles) 0 1 None
                    (world_of [P1; P2])) in
   exists p, heap w' !! 2%nat = Some p
             /\ index p = Some [1; 2; 3; 4; 5]%Z
             /\ n p = 6%Z)
  /\
  (let w' := snd (merge_populations (H := rectangles) 0 1 None
                    (world_of [R1; R3])) in
   exists p, heap w' !! 2%nat = Some p
             /\ index p = Some [1; 2; 3; 4; 5]%Z
             /\ n p = 6%Z)
  /\ size (list_to_set [1; 2; 3]%Z ∪ list_to_set [3; 4; 5]%Z : gset Z) = 5%nat.
Proof.
  split; [|split].
  - vm_compute. eexists. repeat split.
  - vm_compute. eexists. repeat split.
  - vm_compute. reflexivity.
Qed.

(** *** The clusters of the arguments *)

(** C9. Merging two distinct threshold-gated populations of which at least one
    carries clusters: when the merge returns, the clusters of the left
    argument have been set to the empty list in place, the right argument is
    as it was, and the merged record is a third, new object. *)
Theorem merge_voids_clusters_of_left_only {S : Shapely} (w w' : world)
    (left right m : loc) (oname : option string) (pl pr : Population) :
  heap w !! left = Some pl ->
  heap w !! right = Some pr ->
  left <> right ->
  is_ThresholdGeom (geom pl) = true ->
  is_ThresholdGeom (geom pr) = true ->
  clusters pl <> [] \/ clusters pr <> [] ->
  merge_populations left right oname w = (Ok m, w') ->
  heap w' !! left = Some (with_clusters pl [])
  /\ clusters (with_clusters pl []) = []
  /\ heap w' !! right = Some pr
  /\ m <> left /\ m <> right
  /\ length (heap w') = Datatypes.S (length (heap w))
  /\ exists p, heap w' !! m = Some p
               /\ merged_from pl pr
                    (str_or oname ("merge_" ++ population_name pl ++ "_"
                                     ++ population_name pr)) p.
Proof.
  intros Hl Hr Hne Tl Tr Hc E.
  apply merge_populations_Ok_inv in E
    as (pl' & pr' & p & Hl' & Hr' & _ & _ & _ & Hm & Hh & Hf).
  rewrite Hl in Hl'. rewrite Hr in Hr'. inversion Hl'. inversion Hr'. subst pl' pr'.
  assert (Hv : voids_clusters pl pr = true).
  { unfold voids_clusters.
    destruct (clusters pl), (clusters pr); try reflexivity.
    destruct Hc as [Hc|Hc]; contradiction Hc; reflexivity. }
  rewrite Tl, Hv in Hh. cbn [andb] in Hh.
  pose proof (lookup_lt_Some _ _ _ Hl) as Ll.
  pose proof (lookup_lt_Some _ _ _ Hr) as Lr.
  repeat apply conj.
  - rewrite Hh, lookup_app_l by (rewrite length_insert; exact Ll).
    apply list_lookup_insert_eq. exact Ll.
  - reflexivity.
  - rewrite Hh, lookup_app_l by (rewrite length_insert; exact Lr).
    rewrite list_lookup_insert_ne by exact Hne. exact Hr.
  - lia.
  - lia.
  - rewrite Hh, length_app, length_insert. simpl. lia.
  - exists p. split; [|exact Hf].
    rewrite Hh, Hm. apply list_lookup_middle. rewrite length_insert. reflexivity.
Qed.

Lemma merge_voids_clusters_of_left_only_witness :
  let w' := snd (merge_populations (H := rectangles) 0 1 None
                   (world_of [P1c; P2c])) in
  heap w' !! 0%nat = Some (with_clusters P1c [])
  /\ heap w' !! 1%nat = Some P2c
  /\ clusters P2c = [cluster_k].
Proof.
  intros w'.
  destruct (merge_voids_clusters_of_left_only (S := rectangles)
              (world_of [P1c; P2c]) w' 0 1 2 None P1c P2c eq_refl eq_refl)
    as (A & _ & B & _);
    [lia | reflexivity | reflexivity | left; discriminate | reflexivity |].
  repeat split; assumption.
Defined.

(** *** The many-way merge *)

Lemma bind_assoc_run {A C D} (m : M A) (k : A -> M C) (h : C -> M D) w :
  ((m ≫= k) ≫= h) w = (m ≫= (fun a => k a ≫= h)) w.
Proof. rewrite !bind_run. destruct (m w) as [[a|e] w1]; reflexivity. Qed.

Lemma bind_ret_run {A} (m : M A) w : (m ≫= mret) w = m w.
Proof. rewrite bind_run. destruct (m w) as [[a|e] w1]; reflexivity. Qed.

Lemma bind_ext_run {A C} (m : M A) (k k' : A -> M C) w :
  (forall a w1, k a w1 = k' a w1) -> (m ≫= k) w = (m ≫= k') w.
Proof.
  intros Hk. rewrite !bind_run. destruct (m w) as [[a|e] w1]; [apply Hk|reflexivity].
Qed.

(** [reduce] is the left fold of the list, started at its first element. *)
Lemma reduce_from_fold_left (f : loc -> loc -> M loc) (xs : list loc)
    (c : M loc) (w : world) :
  (c ≫= (fun acc => reduce_from f acc xs)) w
  = fold_left (fun acc x => acc ≫= (fun a => f a x)) xs c w.
Proof.
  revert c w. induction xs as [|x xs IH]; intros c w; simpl.
  - apply bind_ret_run.
  - rewrite <- IH. symmetry. apply bind_assoc_run.
Qed.

Lemma reduce_fold_left (f : loc -> loc -> M loc) (p : loc) (ps : list loc)
    (w : world) :
  reduce f (p :: ps) w
  = fold_left (fun acc x => acc ≫= (fun a => f a x)) ps (mret p) w.
Proof. rewrite <- reduce_from_fold_left. reflexivity. Qed.

Lemma population_names_world (ps : list loc) (w : world) :
  snd (population_names ps w) = w.
Proof.
  induction ps as [|p ps IH]; simpl; [reflexivity|].
  rewrite bind_run. unfold deref at 1.
  destruct (heap w !! p) as [o|]; [|reflexivity].
  rewrite bind_run. destruct (population_names ps w) as [[rest|e] w1] eqn:E;
    simpl in IH; subst w1; reflexivity.
Qed.

Lemma population_names_cons_inv p ps names w :
  population_names (p :: ps) w = (Ok names, w) ->
  exists o rest, heap w !! p = Some o
                 /\ population_names ps w = (Ok rest, w)
                 /\ names = population_name o :: rest.
Proof.
  simpl. intros E.
  minv E as o w1 E1. apply deref_Ok_inv in E1 as [Ho ->].
  minv E as rest w1 E1.
  pose proof (population_names_world ps w) as Hw. rewrite E1 in Hw. simpl in Hw.
  subst w1. apply ret_Ok_inv in E as [-> _].
  exists o, rest. auto.
Qed.

(** The fold returns a live location. *)
Lemma reduce_from_live {S : Shapely} (xs : list loc) (acc m : loc) (w w1 : world) :
  (acc < length (heap w))%nat ->
  reduce_from (fun p1 p2 => merge_populations p1 p2 None) acc xs w = (Ok m, w1) ->
  (m < length (heap w1))%nat.
Proof.
  revert acc w. induction xs as [|x xs IH]; intros acc w Hacc E; simpl in E.
  - apply ret_Ok_inv in E as [-> ->]. exact Hacc.
  - minv E as a w2 E1.
    apply merge_populations_Ok_inv in E1
      as (pl & pr & p & _ & _ & _ & _ & _ & Ha & Hh & _).
    apply (IH a w2); [|exact E].
    rewrite Hh, length_app, Ha. simpl.
    destruct (_ && _); [rewrite length_insert|]; lia.
Qed.

Lemma all_equal_remove_dups (shared : string) (names : list string) :
  names <> [] -> Forall (eq shared) names -> remove_dups names = [shared].
Proof.
  induction names as [|a names IH]; intros Hne Hall; [contradiction|].
  apply Forall_cons in Hall as [Ha Hrest]. subst a. simpl.
  destruct (decide_rel elem_of shared names) as [Hin|Hnin].
  - apply IH; [|exact Hrest]. intros ->. inversion Hin.
  - destruct names as [|b names]; [reflexivity|].
    apply Forall_cons in Hrest as [<- _]. contradiction Hnin.
    apply list_elem_of_here.
Qed.

Lemma distinct_names_remove_dups (names : list string) (a b : string) :
  a ∈ names -> b ∈ names -> a <> b -> length (remove_dups names) <> 1%nat.
Proof.
  intros Ha Hb Hab Hlen.
  apply elem_of_remove_dups in Ha, Hb.
  destruct (remove_dups names) as [|x [|y l]]; try discriminate.
  apply list_elem_of_singleton in Ha, Hb. congruence.
Qed.

(** C7, as the code has it.  A non-empty list of live populations, no new name
    given.  If two of the names differ the call fails on the assertion the
    specification calls AmbiguousNameError, before anything is merged.  If all
    the names are one shared name, the call is the fold of the pairwise merges
    followed by the renaming of its result: when the fold returns, the call
    returns the same object under the shared name; when a pairwise merge
    raises, the call raises the same.  The fold is the left fold of the list
    in its order, started at the first population. *)
Theorem merge_multiple_populations_by_name {S : Shapely}
    (populations : list loc) (w : world) (names : list string) :
  populations <> [] ->
  population_names populations w = (Ok names, w) ->
  ((exists a b, a ∈ names /\ b ∈ names /\ a <> b) ->
   exists e, merge_multiple_populations populations None w = (Raise e, w)
             /\ error_kind e = Some AmbiguousNameError)
  /\
  (forall shared, Forall (eq shared) names ->
     (forall m w1,
        reduce (fun p1 p2 => merge_populations p1 p2 None) populations w
        = (Ok m, w1) ->
        exists p,
          heap w1 !! m = Some p
          /\ merge_multiple_populations populations None w
             = (Ok m, {| heap := <[m := with_population_name p shared]> (heap w1);
                         emitted := emitted w1 |}))
     /\
     (forall e w1,
        reduce (fun p1 p2 => merge_populations p1 p2 None) populations w
        = (Raise e, w1) ->
        merge_multiple_populations populations None w = (Raise e, w1)))
  /\
  (forall p ps w0, populations = p :: ps ->
     reduce (fun p1 p2 => merge_populations p1 p2 None) populations w0
     = fold_left (fun acc x => acc ≫= (fun a => merge_populations a x None))
                 ps (mret p) w0).
Proof.
  intros Hne Hnames. split; [|split].
  - intros (a & b & Ha & Hb & Hab).
    pose proof (distinct_names_remove_dups names a b Ha Hb Hab) as Hlen.
    exists (AssertionError msg_same_name). split; [|reflexivity].
    unfold merge_multiple_populations.
    erewrite bind_Raise; [reflexivity|].
    erewrite bind_Ok by exact Hnames.
    apply Nat.eqb_neq in Hlen. rewrite Hlen. reflexivity.
  - intros shared Hall.
    destruct populations as [|p0 ps]; [contradiction|].
    destruct (population_names_cons_inv _ _ _ _ Hnames) as (o & rest & Ho & _ & ->).
    assert (Hshared : population_name o = shared)
      by (inversion Hall; subst; reflexivity).
    assert (Hpre :
               merge_multiple_populations (p0 :: ps) None w
               = (reduce (fun p1 p2 => merge_populations p1 p2 None) (p0 :: ps)
                    ≫= (fun merged_pop =>
                          update merged_pop (fun q => with_population_name q shared)
                            ≫= (fun _ => mret merged_pop))) w).
    { unfold merge_multiple_populations.
      erewrite bind_Ok; cycle 1.
      { erewrite bind_Ok by exact Hnames.
        rewrite (all_equal_remove_dups shared) by (discriminate || exact Hall).
        reflexivity. }
      unfold name_or_first.
      erewrite bind_Ok; cycle 1.
      { erewrite bind_Ok by (apply deref_Some; exact Ho). reflexivity. }
      rewrite Hshared. reflexivity. }
    split.
    + intros m w1 E.
      assert (Hm : (m < length (heap w1))%nat).
      { apply (reduce_from_live ps p0 m w w1); [|exact E].
        apply (lookup_lt_Some _ _ _ Ho). }
      destruct (lookup_lt_is_Some_2 _ _ Hm) as [p Hp].
      exists p. split; [exact Hp|].
      rewrite Hpre. erewrite bind_Ok by exact E.
      rewrite bind_run. unfold update. rewrite Hp. reflexivity.
    + intros e w1 E. rewrite Hpre. erewrite bind_Raise by exact E. reflexivity.
  - intros p ps w0 ->. apply reduce_fold_left.
Qed.

(** Three populations of one name, gated alike under one parent: the call
    returns the second merge, under the shared name. *)
Lemma merge_multiple_populations_by_name_witness :
  let w := world_of [P1; P2; P2] in
  exists w' p,
    merge_multiple_populations (H := rectangles) [0; 1; 2]%nat None w
    = (Ok 4%nat, w')
    /\ heap w' !! 4%nat = Some p
    /\ population_name p = "T cells"
    /\ index p = Some [1; 2; 3; 4; 5]%Z.
Proof.
  intros w.
  destruct (merge_multiple_populations_by_name (S := rectangles)
              [0; 1; 2]%nat w ["T cells"; "T cells"; "T cells"]
              ltac:(discriminate) eq_refl) as (_ & Hsame & _).
  destruct (Hsame "T cells" ltac:(repeat constructor)) as [Hok _].
  destruct (Hok 4%nat
              (snd (reduce (fun p1 p2 =>
                              merge_populations (H := rectangles) p1 p2 None)
                      [0; 1; 2]%nat w)) eq_refl) as (p & Hp & E).
  vm_compute in Hp. injection Hp as Hp. subst p.
  eexists _, _. split; [exact E|].
  vm_compute. repeat split.
Defined.

(** The claim of C7 as the specification words it fails on two populations of
    one name under different parents: the names agree, yet the call raises the
    assertion on the parents. *)
Lemma same_name_merge_can_fail :
  population_names [0; 1]%nat (world_of [P1; P4])
  = (Ok ["T cells"; "T cells"], world_of [P1; P4])
  /\ merge_multiple_populations (H := rectangles) [0; 1]%nat None
       (world_of [P1; P4])
     = (Raise (AssertionError msg_parent), world_of [P1; P4]).
Proof. split; reflexivity. Qed.

End PopulationsSpec.

(** ** Properties of [utilities.py] *)

Module UtilitiesSpec.
Import Utilities Examples.

Lemma result_bind_Ok_inv {A C} (m : result A) (k : A -> result C) (c : C) :
  m ≫= k = Ok c -> exists a, m = Ok a /\ k a = Ok c.
Proof. destruct m as [a|e]; [eauto | discriminate]. Qed.

(** *** Minimum and maximum over all the values *)

Lemma qmin_le_l (a b : Q) : (qmin a b <= a)%Q.
Proof.
  unfold qmin. destruct (Qle_bool a b) eqn:E; [apply Qle_refl|].
  destruct (Qlt_le_dec b a) as [Hlt|Hle]; [apply Qlt_le_weak; exact Hlt|].
  apply Qle_bool_iff in Hle. congruence.
Qed.

Lemma qmin_le_r (a b : Q) : (qmin a b <= b)%Q.
Proof.
  unfold qmin. destruct (Qle_bool a b) eqn:E; [|apply Qle_refl].
  apply Qle_bool_iff. exact E.
Qed.

Lemma qmax_ge_l (a b : Q) : (a <= qmax a b)%Q.
Proof.
  unfold qmax. destruct (Qle_bool a b) eqn:E; [|apply Qle_refl].
  apply Qle_bool_iff. exact E.
Qed.

Lemma qmax_ge_r (a b : Q) : (b <= qmax a b)%Q.
Proof.
  unfold qmax. destruct (Qle_bool a b) eqn:E; [apply Qle_refl|].
  destruct (Qlt_le_dec b a) as [Hlt|Hle]; [apply Qlt_le_weak; exact Hlt|].
  apply Qle_bool_iff in Hle. congruence.
Qed.

Lemma fold_qmin_lower (l : list Q) (a : Q) :
  (fold_left qmin l a <= a)%Q
  /\ forall v, v ∈ l -> (fold_left qmin l a <= v)%Q.
Proof.
  revert a. induction l as [|b l IH]; intros a; simpl.
  - split; [apply Qle_refl|]. intros v Hv. inversion Hv.
  - destruct (IH (qmin a b)) as [H1 H2]. split.
    + eapply Qle_trans; [exact H1 | apply qmin_le_l].
    + intros v Hv. apply elem_of_cons in Hv as [->|Hv]; [|apply H2; exact Hv].
      eapply Qle_trans; [exact H1 | apply qmin_le_r].
Qed.

Lemma fold_qmax_upper (l : list Q) (a : Q) :
  (a <= fold_left qmax l a)%Q
  /\ forall v, v ∈ l -> (v <= fold_left qmax l a)%Q.
Proof.
  revert a. induction l as [|b l IH]; intros a; simpl.
  - split; [apply Qle_refl|]. intros v Hv. inversion Hv.
  - destruct (IH (qmax a b)) as [H1 H2]. split.
    + eapply Qle_trans; [apply qmax_ge_l | exact H1].
    + intros v Hv. apply elem_of_cons in Hv as [->|Hv]; [|apply H2; exact Hv].
      eapply Qle_trans; [apply qmax_ge_r | exact H1].
Qed.

Lemma fold_qmin_member (l : list Q) (a : Q) : fold_left qmin l a ∈ a :: l.
Proof.
  revert a. induction l as [|b l IH]; intros a; simpl.
  - apply list_elem_of_here.
  - specialize (IH (qmin a b)). apply elem_of_cons in IH as [E|IH].
    + rewrite E. unfold qmin. destruct (Qle_bool a b).
      * apply list_elem_of_here.
      * apply list_elem_of_further, list_elem_of_here.
    + do 2 apply list_elem_of_further. exact IH.
Qed.

Lemma fold_qmax_member (l : list Q) (a : Q) : fold_left qmax l a ∈ a :: l.
Proof.
  revert a. induction l as [|b l IH]; intros a; simpl.
  - apply list_elem_of_here.
  - specialize (IH (qmax a b)). apply elem_of_cons in IH as [E|IH].
    + rewrite E. unfold qmax. destruct (Qle_bool a b).
      * apply list_elem_of_further, list_elem_of_here.
      * apply list_elem_of_here.
    + do 2 apply list_elem_of_further. exact IH.
Qed.

(** *** The grid *)

Lemma length_np_linspace (start stop : Q) (num : nat) :
  length (np_linspace start stop num) = num.
Proof.
  destruct num as [|[|k]]; simpl; try reflexivity.
  rewrite length_map, length_seq. reflexivity.
Qed.

Lemma x_grid_columns_repeat (x : Table) (num d : nat) (lo hi : Q) :
  np_amin x = Ok lo -> np_amax x = Ok hi ->
  x_grid_columns x num d = Ok (repeat (np_linspace lo hi num) d).
Proof.
  intros Hlo Hhi. induction d as [|d IH]; simpl; [reflexivity|].
  rewrite Hlo, Hhi. simpl. rewrite IH. reflexivity.
Qed.

Lemma length_transpose_repeat (c : list Q) (d : nat) :
  (1 <= d)%nat -> length (transpose (repeat c d)) = length c.
Proof.
  destruct d as [|d]; [lia|]. intros _. simpl.
  rewrite length_map, length_seq. reflexivity.
Qed.

Lemma nth_np_linspace (start stop : Q) (num i : nat) :
  (2 <= num)%nat -> (i < num)%nat ->
  nth i (np_linspace start stop num) 0%Q
  = (start + inject_Z (Z.of_nat i)
             * ((stop - start) / inject_Z (Z.of_nat (num - 1))))%Q.
Proof.
  intros Hnum Hi. destruct num as [|[|k]]; try lia.
  unfold np_linspace.
  set (f := fun j : nat =>
              (start + inject_Z (Z.of_nat j)
                       * ((stop - start)
                          / inject_Z (Z.of_nat (Datatypes.S (Datatypes.S k) - 1))))%Q).
  change 0%Q with (0%Q : Q).
  rewrite (nth_indep _ 0%Q (f 0%nat)) by (rewrite length_map, length_seq; exact Hi).
  rewrite (map_nth f), seq_nth by exact Hi. reflexivity.
Qed.

(** The grid starts at [start] and ends at [stop]. *)
Lemma np_linspace_ends (start stop : Q) (num : nat) :
  (2 <= num)%nat ->
  (nth 0 (np_linspace start stop num) 0 == start)%Q
  /\ (nth (num - 1) (np_linspace start stop num) 0 == stop)%Q.
Proof.
  intros Hnum. split.
  - rewrite nth_np_linspace by lia. simpl. ring.
  - rewrite nth_np_linspace by lia.
    assert (Hpos : ~ (inject_Z (Z.of_nat (num - 1)) == 0)%Q).
    { unfold Qeq. simpl. lia. }
    field. exact Hpos.
Qed.

Lemma kde_multivariant_grid_Ok_inv {SK : Sklearn} {NM : NumpyMath}
    (x : Table) (bw : Bandwidth) (bs : option (list Q)) (num : nat)
    (kw : dict string) (out : list Q) :
  kde_multivariant x bw bs (Some num) kw = Ok out ->
  exists b kde cols log_pdf,
    fit kw b x = Ok kde
    /\ x_grid x num = Ok cols
    /\ score_samples kde (transpose cols) = Ok log_pdf
    /\ out = map np_exp log_pdf.
Proof.
  unfold kde_multivariant. intros E.
  apply result_bind_Ok_inv in E as (b & _ & E).
  apply result_bind_Ok_inv in E as (kde & Hfit & E).
  apply result_bind_Ok_inv in E as (log_pdf & Hscore & E).
  apply result_bind_Ok_inv in Hscore as (cols & Hgrid & Hscore).
  injection E as <-. exists b, kde, cols, log_pdf. auto.
Qed.

(** C2, as the code has it.  On a table with a value and a column, [x_grid] is
    one and the same grid for every dimension: [num] points linearly spaced
    from the smallest to the largest of all the values of the table, whatever
    their column.  Density estimation with a grid scores the rows of that
    grid and returns [num] values, the exponentials of the scores. *)
Theorem x_grid_spans_all_values {SK : Sklearn} {NM : NumpyMath}
    (x : Table) (num : nat) (a : Q) (l : list Q) :
  flat x = a :: l ->
  (1 <= shape1 x)%nat ->
  let lo := fold_left qmin l a in
  let hi := fold_left qmax l a in
  let col := np_linspace lo hi num in
  x_grid x num = Ok (repeat col (shape1 x))
  /\ (lo ∈ flat x /\ hi ∈ flat x
      /\ forall v, v ∈ flat x -> (lo <= v)%Q /\ (v <= hi)%Q)
  /\ length col = num
  /\ (forall i, (2 <= num)%nat -> (i < num)%nat ->
        nth i col 0%Q
        = (lo + inject_Z (Z.of_nat i)
                * ((hi - lo) / inject_Z (Z.of_nat (num - 1))))%Q)
  /\ (forall bw bs kw out,
        kde_multivariant x bw bs (Some num) kw = Ok out ->
        length out = num
        /\ exists b kde log_pdf,
             fit kw b x = Ok kde
             /\ score_samples kde (transpose (repeat col (shape1 x))) = Ok log_pdf
             /\ out = map np_exp log_pdf)
  /\ (forall b bs kw kde log_pdf,
        fit kw b x = Ok kde ->
        score_samples kde (transpose (repeat col (shape1 x))) = Ok log_pdf ->
        kde_multivariant x (BwFloat b) bs (Some num) kw
        = Ok (map np_exp log_pdf)).
Proof.
  intros Hflat Hd lo hi col.
  assert (Hlo : np_amin x = Ok lo) by (unfold np_amin; rewrite Hflat; reflexivity).
  assert (Hhi : np_amax x = Ok hi) by (unfold np_amax; rewrite Hflat; reflexivity).
  assert (Hgrid : x_grid x num = Ok (repeat col (shape1 x)))
    by (apply x_grid_columns_repeat; assumption).
  split; [exact Hgrid|]. split; [|split; [|split; [|split]]].
  - rewrite Hflat. split; [apply fold_qmin_member|].
    split; [apply fold_qmax_member|].
    intros v Hv. destruct (fold_qmin_lower l a) as [L1 L2].
    destruct (fold_qmax_upper l a) as [U1 U2].
    apply elem_of_cons in Hv as [->|Hv]; split; auto.
  - apply length_np_linspace.
  - intros i Hnum Hi. apply nth_np_linspace; assumption.
  - intros bw bs kw out E.
    apply kde_multivariant_grid_Ok_inv in E
      as (b & kde & cols & log_pdf & Hfit & Hg & Hscore & ->).
    rewrite Hgrid in Hg. injection Hg as <-.
    split; [|exists b, kde, log_pdf; auto].
    rewrite length_map, (score_samples_length _ _ _ Hscore).
    rewrite length_transpose_repeat by exact Hd. apply length_np_linspace.
  - intros b bs kw kde log_pdf Hfit Hscore.
    unfold kde_multivariant. simpl. rewrite Hfit. simpl.
    rewrite Hgrid. simpl. rewrite Hscore. reflexivity.
Qed.

Lemma x_grid_spans_all_values_witness :
  x_grid two_scales 3
  = Ok (repeat (np_linspace (fold_left qmin [10; 1; 20]%Q 0%Q)
                            (fold_left qmax [10; 1; 20]%Q 0%Q) 3) 2)
  /\ fold_left qmin [10; 1; 20]%Q 0%Q = 0%Q
  /\ fold_left qmax [10; 1; 20]%Q 0%Q = 20%Q.
Proof.
  destruct (x_grid_spans_all_values (SK := lenient_sklearn) (NM := coarse_math)
              two_scales 3 0%Q [10; 1; 20]%Q eq_refl ltac:(simpl; lia))
    as (Hgrid & _).
  split; [exact Hgrid|]. split; reflexivity.
Defined.

(** The claim of C2 as the specification words it fails on a table whose two
    columns range over [0, 1] and over [10, 20]: the grid of the code runs from
    0 to 20 in both dimensions, not from each column's minimum to its
    maximum. *)
Lemma x_grid_is_not_per_dimension :
  match x_grid two_scales 2 with
  | Ok g => same_grid g (spec_per_dimension_grid two_scales 2)
  | Raise _ => false
  end = false
  /\ x_grid two_scales 2 = Ok [[0; 20]; [0; 20]]%Q
  /\ spec_per_dimension_grid two_scales 2 = [[0; 1]; [10; 20]]%Q.
Proof. repeat split; vm_compute; reflexivity. Qed.

(** *** The bandwidths searched *)

(** C5. The test [bandwidth_search == 0] compares a list with a number and is
    never true, so the lower end is never raised to 0.01: the ends of the
    search are the two quantiles as computed.  On a table of zeros both
    quantiles are 0, the range has collapsed, and the 30 bandwidths handed to
    the search start at 0. *)
Theorem bandwidth_floor_is_never_applied :
  (forall x : Table,
     default_bandwidth_search x
     = np_quantile x (5 # 100) ≫= (fun q05 =>
       np_quantile x (95 # 100) ≫= (fun q95 => Ok [q05; q95])))
  /\
  (exists q05 q95 grid lo,
     default_bandwidth_search zeros = Ok [q05; q95]
     /\ (q05 == 0)%Q /\ (q95 == 0)%Q
     /\ bandwidth_grid zeros None = Ok grid
     /\ length grid = 30%nat
     /\ head grid = Some lo
     /\ (lo == 0)%Q
     /\ ~ (lo == 1 # 100)%Q).
Proof.
  split.
  - intros x. unfold default_bandwidth_search.
    destruct (np_quantile x (5 # 100)) as [q05|e]; [|reflexivity]. simpl.
    destruct (np_quantile x (95 # 100)) as [q95|e]; reflexivity.
  - eexists _, _, _, _.
    split; [vm_compute; reflexivity|].
    split; [reflexivity|]. split; [reflexivity|].
    split; [vm_compute; reflexivity|].
    split; [reflexivity|]. split; [reflexivity|].
    split; [reflexivity|]. intros E. discriminate E.
Qed.

(** *** Input validation *)



End UtilitiesSpec.

(** ** Properties of [batch_effects.py] *)

Module BatchEffectsSpec.
Import Utilities BatchEffects Examples.

(** *** Running a computation *)

Lemma B_bind_run {A C} (m : B A) (k : A -> B C) (w : world) :
  (m ≫= k) w =
  match m w with
  | (Ok a, w') => k a w'
  | (Raise e, w') => (Raise e, w')
  end.
Proof. reflexivity. Qed.

Lemma triple_bind {A C} (P : world -> Prop) (m : B A) (k : A -> B C)
    (Q1 : A -> world -> Prop) (Q : C -> world -> Prop) (F : world -> Prop) :
  triple P m Q1 F ->
  (forall a, triple (Q1 a) (k a) Q F) ->
  triple P (m ≫= k) Q F.
Proof.
  intros Hm Hk w r w' HP E. rewrite B_bind_run in E.
  destruct (m w) as [[a|e] w1] eqn:Em.
  - apply (Hk a w1 r w'); [|exact E]. apply (Hm w (Ok a) w1 HP Em).
  - injection E as <- <-. apply (Hm w (Raise e) w1 HP Em).
Qed.

Lemma triple_ret {A} (P : world -> Prop) (a : A)
    (Q : A -> world -> Prop) (F : world -> Prop) :
  (forall w, P w -> Q a w) -> triple P (mret a) Q F.
Proof. intros H w r w' HP E. injection E as <- <-. apply H, HP. Qed.

Lemma triple_lift {A} (P : world -> Prop) (r0 : result A)
    (Q : A -> world -> Prop) (F : world -> Prop) :
  (forall w a, P w -> r0 = Ok a -> Q a w) ->
  (forall w, P w -> F w) ->
  triple P (lift r0) Q F.
Proof.
  intros HQ HF w r w' HP E. injection E as <- <-.
  destruct r0 as [a|e]; [apply HQ; auto | apply HF, HP].
Qed.

Lemma triple_weaken {A} (P P' : world -> Prop) (m : B A)
    (Q Q' : A -> world -> Prop) (F F' : world -> Prop) :
  triple P' m Q' F' ->
  (forall w, P w -> P' w) ->
  (forall a w, Q' a w -> Q a w) ->
  (forall w, F' w -> F w) ->
  triple P m Q F.
Proof.
  intros Hm HP HQ HF w r w' Hw E.
  specialize (Hm w r w' (HP w Hw) E). destruct r; auto.
Qed.

Lemma triple_get_self (P : world -> Prop)
    (Q : EvaluateBatchEffects -> world -> Prop) (F : world -> Prop) :
  (forall w, P w -> Q (self w) w) -> triple P get_self Q F.
Proof. intros H w r w' HP E. injection E as <- <-. apply H, HP. Qed.

Lemma triple_print (P : world -> Prop) (msg : string)
    (Q : unit -> world -> Prop) (F : world -> Prop) :
  (forall w, P w ->
     Q tt {| self := self w; stdout := stdout w ++ [msg];
             estimated := estimated w |}) ->
  triple P (print msg) Q F.
Proof. intros H w r w' HP E. injection E as <- <-. apply H, HP. Qed.

Lemma triple_assert (P : world -> Prop) (b : bool) (msg : string)
    (Q : unit -> world -> Prop) (F : world -> Prop) :
  (forall w, P w -> b = true -> Q tt w) ->
  (forall w, P w -> F w) ->
  triple P (py_assert b msg) Q F.
Proof.
  intros HQ HF. unfold py_assert. apply triple_lift.
  - intros w [] HP E. destruct b; [auto | discriminate].
  - exact HF.
Qed.

(** *** Dictionaries *)

Lemma dict_get_set_ne {V} (d : dict V) (k k' : string) (v : V) :
  k <> k' -> dict_get (dict_set d k' v) k = dict_get d k.
Proof.
  intros Hne. induction d as [|[k0 v0] d IH]; simpl.
  - destruct (String.eqb k' k) eqn:E; [|reflexivity].
    apply String.eqb_eq in E. congruence.
  - destruct (String.eqb k0 k') eqn:E0; simpl.
    + apply String.eqb_eq in E0. subst k0.
      destruct (String.eqb k' k) eqn:E; [|reflexivity].
      apply String.eqb_eq in E. congruence.
    + rewrite IH. reflexivity.
Qed.

Lemma dict_get_set_eq {V} (d : dict V) (k : string) (v : V) :
  dict_get (dict_set d k v) k = Some v.
Proof.
  induction d as [|[k0 v0] d IH]; simpl.
  - rewrite String.eqb_refl. reflexivity.
  - destruct (String.eqb k0 k) eqn:E0; simpl; rewrite E0; [reflexivity|exact IH].
Qed.

Lemma str_in_keys {V} (d : dict V) (k : string) :
  str_in k (dict_keys d) = dict_mem d k.
Proof.
  unfold dict_mem. induction d as [|[k0 v0] d IH]; simpl; [reflexivity|].
  rewrite (String.eqb_sym k k0).
  destruct (String.eqb k0 k); [reflexivity|exact IH].
Qed.

Lemma dict_mem_false {V} (d : dict V) (k : string) :
  dict_mem d k = false <-> dict_get d k = None.
Proof. unfold dict_mem. destruct (dict_get d k); split; congruence. Qed.

Lemma dict_mem_keys {V} (d : dict V) (k : string) :
  dict_mem d k = true <-> k ∈ dict_keys d.
Proof.
  unfold dict_mem, dict_keys. induction d as [|[k0 v0] d IH]; simpl.
  - split; [discriminate|]. intros Hin. inversion Hin.
  - rewrite elem_of_cons. destruct (String.eqb k0 k) eqn:E.
    + apply String.eqb_eq in E. subst k0. split; auto.
    + apply String.eqb_neq in E. rewrite IH. split; [auto|].
      intros [->|Hin]; [contradiction|exact Hin].
Qed.

Lemma cache_extends_refl (c : dict (list Q)) : cache_extends c c.
Proof. intros k v Hk. exact Hk. Qed.

Lemma cache_extends_set (c0 c : dict (list Q)) (k : string) (q : list Q) :
  cache_extends c0 c -> dict_get c0 k = None ->
  cache_extends c0 (dict_set c k q).
Proof.
  intros Hext Hk k0 v Hk0.
  rewrite dict_get_set_ne; [apply Hext, Hk0|].
  intros ->. congruence.
Qed.

Lemma grown_from_refl (w : world) : grown_from w w.
Proof.
  split; [reflexivity|]. split; [apply cache_extends_refl|].
  exists []. rewrite app_nil_r. split; [reflexivity|constructor].
Qed.

(** *** The Jensen-Shannon wrapper *)

Lemma jsd_divergence_run {SC : Scipy} (x y : list Q) (w : world) :
  jsd_divergence x y w = (jsd x y ≫= (fun div => Ok (clamp div)), w).
Proof.
  unfold jsd_divergence, clamp. rewrite B_bind_run. unfold lift.
  destruct (jsd x y) as [div|e]; [|reflexivity].
  destruct div; reflexivity.
Qed.






(** *** The steps of [calc_divergence] *)

Lemma triple_dict_item {V} (P : world -> Prop) (d : dict V) (k : string)
    (Q : V -> world -> Prop) (F : world -> Prop) :
  (forall w v, P w -> dict_get d k = Some v -> Q v w) ->
  (forall w, P w -> F w) ->
  triple P (dict_item d k) Q F.
Proof.
  intros HQ HF. unfold dict_item. destruct (dict_get d k) as [v|].
  - apply triple_ret. intros w HP. apply (HQ w v HP eq_refl).
  - apply triple_lift; [discriminate | exact HF].
Qed.

Lemma triple_cache_store (P : world -> Prop) (name : string) (q : list Q)
    (Q : unit -> world -> Prop) (F : world -> Prop) :
  (forall w, P w ->
     Q tt {| self := with_kde_cache (self w) (dict_set (kde_cache (self w)) name q);
             stdout := stdout w; estimated := estimated w |}) ->
  triple P (cache_store name q) Q F.
Proof. intros H w r w' HP E. injection E as <- <-. apply H, HP. Qed.

Lemma triple_estimate_density {SK : Sklearn} {NM : NumpyMath}
    (P : world -> Prop) (name : string) (x : Table) (kernel : string)
    (Q : list Q -> world -> Prop) (F : world -> Prop) :
  (forall w, P w ->
     let w' := {| self := self w; stdout := stdout w;
                  estimated := estimated w ++ [name] |} in
     (forall q, Q q w') /\ F w') ->
  triple P (estimate_density name x kernel) Q F.
Proof.
  intros H w r w' HP E. unfold estimate_density in E. injection E as <- <-.
  destruct (H w HP) as [HQ HF]. destruct (kde_multivariant _ _ _ _ _); auto.
Qed.

Lemma triple_optional_print (I : world -> Prop) (b : bool) (msg : string)
    (F : world -> Prop) :
  (forall w, I w -> I {| self := self w; stdout := stdout w ++ [msg];
                         estimated := estimated w |}) ->
  triple I (if b then print msg else mret tt) (fun _ => I) F.
Proof.
  intros H. destruct b; [apply triple_print; exact H|].
  apply triple_ret. auto.
Qed.

Lemma grown_from_printed (w0 w : world) (out : list string) :
  grown_from w0 w ->
  grown_from w0 {| self := self w; stdout := out; estimated := estimated w |}.
Proof. intros H. exact H. Qed.

Lemma grown_from_estimated (w0 w : world) (name : string) :
  grown_from w0 w -> dict_get (cache_of w0) name = None ->
  grown_from w0 {| self := self w; stdout := stdout w;
                   estimated := estimated w ++ [name] |}.
Proof.
  intros (Hd & Hc & new & He & Hnew) Hname.
  split; [exact Hd|]. split; [exact Hc|].
  exists (new ++ [name]). simpl. split.
  - rewrite He, app_assoc. reflexivity.
  - apply Forall_app. split; [exact Hnew|]. constructor; [exact Hname|constructor].
Qed.

Lemma grown_from_stored (w0 w : world) (name : string) (q : list Q) :
  grown_from w0 w -> dict_get (cache_of w0) name = None ->
  grown_from w0
    {| self := with_kde_cache (self w) (dict_set (kde_cache (self w)) name q);
       stdout := stdout w; estimated := estimated w |}.
Proof.
  intros (Hd & Hc & Hnew) Hname.
  split; [exact Hd|]. split; [|exact Hnew].
  unfold cache_of. simpl. apply cache_extends_set; assumption.
Qed.

Lemma absent_from_extension (c0 c : dict (list Q)) (k : string) :
  cache_extends c0 c -> dict_get c k = None -> dict_get c0 k = None.
Proof.
  intros Hext Hk. destruct (dict_get c0 k) as [v|] eqn:E; [|reflexivity].
  apply Hext in E. congruence.
Qed.

Lemma dict_mem_set {V} (d : dict V) (k k' : string) (v : V) :
  dict_mem d k = true -> dict_mem (dict_set d k' v) k = true.
Proof.
  unfold dict_mem. intros H.
  destruct (String.eqb k k') eqn:E.
  - apply String.eqb_eq in E. subst k'. rewrite dict_get_set_eq. reflexivity.
  - apply String.eqb_neq in E. rewrite dict_get_set_ne by exact E. exact H.
Qed.

(** The estimates of a list of samples none of which the cache had. *)
Lemma triple_mapM_indexed_kde {SK : Sklearn} {NM : NumpyMath}
    (w0 : world) (s : EvaluateBatchEffects) (kernel : string)
    (l : list (string * Table)) :
  Forall (fun named => dict_get (cache_of w0) (fst named) = None) l ->
  triple (fun w => grown_from w0 w /\ self w = s)
         (mapM (indexed_kde kernel) l)
         (fun q_ w => (grown_from w0 w /\ self w = s) /\ map fst q_ = map fst l)
         (grown_from w0).
Proof.
  induction 1 as [|named l Hnamed Hl IH]; simpl.
  - apply triple_ret. auto.
  - eapply triple_bind with
      (Q1 := fun c w => (grown_from w0 w /\ self w = s) /\ fst c = fst named).
    + unfold indexed_kde.
      eapply triple_bind with (Q1 := fun _ w => grown_from w0 w /\ self w = s).
      * apply triple_estimate_density. intros w [Hg Hs]. simpl.
        pose proof (grown_from_estimated w0 w (fst named) Hg Hnamed) as Hg'.
        split; [|exact Hg']. intros _. split; [exact Hg' | exact Hs].
      * intros q. apply triple_ret. auto.
    + intros c.
      eapply triple_bind with
        (Q1 := fun cs w => ((grown_from w0 w /\ self w = s) /\ fst c = fst named)
                           /\ map fst cs = map fst l).
      * intros w r w' [HP Hc] E. specialize (IH w r w' HP E).
        destruct r; [|exact IH]. destruct IH as [IH1 IH2]. auto.
      * intros cs. apply triple_ret. intros w [[HP Hc] Hcs].
        split; [exact HP|]. simpl. rewrite Hc, Hcs. reflexivity.
Qed.

(** Storing estimates under ids the cache did not have. *)
Lemma triple_forM_cache_store (w0 : world) (t : string)
    (q_ : list (string * list Q)) :
  Forall (fun named => dict_get (cache_of w0) (fst named) = None) q_ ->
  triple (fun w => grown_from w0 w /\ dict_mem (cache_of w) t = true)
         (forM_ (fun named_q => cache_store (fst named_q) (snd named_q)) q_)
         (fun _ w => grown_from w0 w /\ dict_mem (cache_of w) t = true)
         (grown_from w0).
Proof.
  induction 1 as [|named rest Hnamed Hq IH]; simpl.
  - apply triple_ret. auto.
  - eapply triple_bind with
      (Q1 := fun _ w => grown_from w0 w /\ dict_mem (cache_of w) t = true);
      [|intros u; exact IH].
    apply triple_cache_store. intros w [Hg Ht]. split.
    + apply grown_from_stored; assumption.
    + unfold cache_of. simpl. apply dict_mem_set. exact Ht.
Qed.

(** A list comprehension whose body neither fails to return to the same state
    nor changes it. *)
Lemma mapM_stateless {A C} (f : A -> B C) (g : A -> result C) (l : list A) :
  (forall a w, f a w = (g a, w)) ->
  forall w r w', mapM f l w = (r, w') ->
    w' = w /\ forall out, r = Ok out -> Forall2 (fun o a => g a = Ok o) out l.
Proof.
  intros Hf. induction l as [|a l IH]; intros w r w' E; simpl in E.
  - injection E as <- <-. split; [reflexivity|].
    intros out Hout. injection Hout as <-. constructor.
  - rewrite B_bind_run, Hf in E. destruct (g a) as [c|e] eqn:Ega.
    + rewrite B_bind_run in E.
      destruct (mapM f l w) as [[cs|e] w1] eqn:El.
      * destruct (IH w (Ok cs) w1 El) as [-> Hcs].
        injection E as <- <-. split; [reflexivity|].
        intros out Hout. injection Hout as <-.
        constructor; [exact Ega | apply Hcs; reflexivity].
      * destruct (IH w (Raise e) w1 El) as [-> _].
        injection E as <- <-. split; [reflexivity | discriminate].
    + injection E as <- <-. split; [reflexivity | discriminate].
Qed.

Lemma triple_pre_exists {A} (P : world -> Prop) (m : B A)
    (Q : A -> world -> Prop) (F : world -> Prop) :
  (forall w, P w -> triple P m Q F) -> triple P m Q F.
Proof. intros H w r w' HP E. exact (H w HP w r w' HP E). Qed.

Section CalcDivergence.
Context {SK : Sklearn} {NM : NumpyMath} {SC : Scipy}.
Variables (w0 : world) (target_id : string) (comparisons : list string)
          (kde_kernel divergence_method : string) (verbose : bool).

(** Before the target is looked at: nothing but printing has happened. *)
Let untouched (w : world) : Prop :=
  grown_from w0 w /\ cache_of w = cache_of w0.

(** Once the target is in the cache. *)
Let target_cached (w : world) : Prop :=
  grown_from w0 w /\ dict_mem (cache_of w) target_id = true.

Lemma target_phase (s : EvaluateBatchEffects) :
  triple (fun w => untouched w /\ s = self w)
    (if negb (str_in target_id (dict_keys (kde_cache s)))
     then
       target ← dict_item (data s) target_id;
       q ← estimate_density target_id target kde_kernel;
       cache_store target_id q
     else mret tt)
    (fun _ => target_cached) (grown_from w0).
Proof.
  destruct (str_in target_id (dict_keys (kde_cache s))) eqn:Hin; cbn [negb].
  - apply triple_ret. intros w [[Hg Hc] ->]. split; [exact Hg|].
    rewrite str_in_keys in Hin. exact Hin.
  - rewrite str_in_keys in Hin. apply dict_mem_false in Hin.
    eapply triple_bind with (Q1 := fun _ w => untouched w /\ s = self w).
    { apply triple_dict_item; [auto|]. intros w [[Hg _] _]. exact Hg. }
    intros target.
    assert (Habs : forall w, untouched w /\ s = self w ->
                             dict_get (cache_of w0) target_id = None).
    { intros w [[_ Hc] ->]. rewrite <- Hc. exact Hin. }
    eapply triple_bind with (Q1 := fun _ w => untouched w /\ s = self w).
    { apply triple_estimate_density. intros w HP.
      pose proof (Habs w HP) as Ha. destruct HP as [[Hg Hc] Hs]. simpl.
      pose proof (grown_from_estimated w0 w target_id Hg Ha) as Hg'.
      split; [|exact Hg']. intros _. split; [split|]; assumption. }
    intros q. apply triple_cache_store. intros w HP.
    pose proof (Habs w HP) as Ha. destruct HP as [[Hg Hc] Hs]. split.
    + apply grown_from_stored; assumption.
    + unfold cache_of, dict_mem. simpl. rewrite dict_get_set_eq. reflexivity.
Qed.

Lemma samples_df_absent (s : EvaluateBatchEffects) (w : world) :
  grown_from w0 w -> s = self w ->
  Forall (fun named => dict_get (cache_of w0) (fst named) = None)
         (samples_df s comparisons).
Proof.
  intros (_ & Hext & _) ->. apply Forall_forall. intros named Hin.
  unfold samples_df in Hin. apply list_elem_of_filter in Hin as [Hp _].
  apply andb_True in Hp as [_ Hp]. apply negb_True in Hp.
  apply Is_true_false in Hp. rewrite str_in_keys in Hp.
  apply dict_mem_false in Hp.
  apply (absent_from_extension _ _ _ Hext Hp).
Qed.

Lemma estimate_phase (s : EvaluateBatchEffects) :
  triple (fun w => target_cached w /\ s = self w)
    (mapM (indexed_kde kde_kernel) (samples_df s comparisons))
    (fun q_ w =>
       target_cached w
       /\ Forall (fun named => dict_get (cache_of w0) (fst named) = None) q_)
    (grown_from w0).
Proof.
  apply triple_pre_exists. intros w1 [[Hg1 Ht1] Hs1].
  pose proof (samples_df_absent s w1 Hg1 Hs1) as Habs.
  eapply triple_weaken; [apply (triple_mapM_indexed_kde w0 s kde_kernel _ Habs) | | | ].
  - intros w [[Hg _] Hs]. auto.
  - intros q_ w [[Hg Hs] Hnames]. split.
    + split; [exact Hg|]. unfold cache_of. rewrite Hs, Hs1. exact Ht1.
    + apply Forall_forall. intros named Hin.
      rewrite Forall_forall in Habs.
      assert (Hfst : fst named ∈ map fst (samples_df s comparisons)).
      { rewrite <- Hnames. apply list_elem_of_fmap_2. exact Hin. }
      apply list_elem_of_fmap in Hfst as (named' & -> & Hin').
      apply Habs. exact Hin'.
  - auto.
Qed.

Lemma store_phase (q_ : list (string * list Q)) :
  triple (fun w =>
            target_cached w
            /\ Forall (fun named => dict_get (cache_of w0) (fst named) = None) q_)
    (forM_ (fun named_q => cache_store (fst named_q) (snd named_q)) q_)
    (fun _ => target_cached) (grown_from w0).
Proof.
  apply triple_pre_exists. intros w1 [_ Habs].
  eapply triple_weaken; [apply (triple_forM_cache_store w0 target_id q_ Habs) | | | ].
  - intros w [Ht _]. exact Ht.
  - auto.
  - auto.
Qed.

Lemma report_phase (s : EvaluateBatchEffects) (f : string * list Q -> B (string * float)) :
  (forall named_q w,
     f named_q w = (reported_pair divergence_method (kde_cache s) target_id named_q, w)) ->
  triple (fun w => target_cached w /\ s = self w)
    (mapM f (kde_cache s))
    (fun out w =>
       grown_from w0 w
       /\ dict_mem (cache_of w) target_id = true
       /\ Forall2 (fun o e => reported_pair divergence_method (cache_of w)
                                 target_id e = Ok o)
                  out (cache_of w))
    (grown_from w0).
Proof.
  intros Hf w r w' [[Hg Ht] ->] E.
  destruct (mapM_stateless f _ _ Hf w r w' E) as [-> Hout].
  destruct r as [out|e]; [|exact Hg].
  split; [exact Hg|]. split; [exact Ht|]. apply Hout. reflexivity.
Qed.

(** The whole call, from [w0]. *)
Lemma calc_divergence_triple :
  triple (fun w => w = w0)
    (calc_divergence target_id comparisons kde_kernel divergence_method verbose)
    (fun out w =>
       grown_from w0 w
       /\ dict_mem (cache_of w) target_id = true
       /\ Forall2 (fun o e => reported_pair divergence_method (cache_of w)
                                 target_id e = Ok o)
                  out (cache_of w))
    (grown_from w0).
Proof.
  unfold calc_divergence.
  eapply triple_bind with (Q1 := fun _ => untouched).
  { apply triple_assert.
    - intros w -> _. split; [apply grown_from_refl | reflexivity].
    - intros w ->. apply grown_from_refl. }
  intros _u1.
  eapply triple_bind with (Q1 := fun _ => untouched).
  { apply triple_optional_print. intros w H. exact H. }
  intros _u2.
  eapply triple_bind with (Q1 := fun _ => untouched).
  { apply triple_optional_print. intros w H. exact H. }
  intros _u3.
  eapply triple_bind with (Q1 := fun s w => untouched w /\ s = self w).
  { apply triple_get_self. auto. }
  intros s.
  eapply triple_bind with (Q1 := fun _ => target_cached).
  { apply target_phase. }
  intros _u4.
  eapply triple_bind with (Q1 := fun _ => target_cached).
  { apply triple_optional_print. intros w H. exact H. }
  intros _u5.
  eapply triple_bind with (Q1 := fun s w => target_cached w /\ s = self w).
  { apply triple_get_self. auto. }
  intros s1.
  eapply triple_bind; [apply estimate_phase|].
  intros q_.
  eapply triple_bind; [apply store_phase|].
  intros _u6.
  eapply triple_bind with (Q1 := fun s w => target_cached w /\ s = self w).
  { apply triple_get_self. auto. }
  intros s2.
  destruct (String.eqb divergence_method "jsd") eqn:Ejsd;
    [|destruct (String.eqb divergence_method "kl") eqn:Ekl];
    apply report_phase; intros named_q w;
    unfold reported_pair, divergence_value; rewrite Ejsd, ?Ekl;
    rewrite B_bind_run; unfold dict_item;
    (destruct (dict_get (kde_cache s2) target_id) as [p|]; [|reflexivity]);
    cbn [mret B_ret ret]; rewrite B_bind_run.
  - rewrite jsd_divergence_run. destruct (jsd p (snd named_q)); reflexivity.
  - unfold kl_divergence. rewrite B_bind_run. unfold lift.
    destruct (kl p (snd named_q)); reflexivity.
  - unfold lift. destruct (hellinger_dot p (snd named_q)); reflexivity.
Qed.

End CalcDivergence.

(** *** The cache over a session *)








(** *** The list a query returns *)

Lemma reported_pair_fst {NM : NumpyMath} {SC : Scipy} (m : string)
    (cache : dict (list Q)) (t : string) (e o : string * list Q)
    (r : string * float) :
  reported_pair m cache t e = Ok r -> fst r = fst e.
Proof.
  unfold reported_pair. destruct (dict_get cache t) as [p|]; [|discriminate].
  destruct (divergence_value m p (snd e)) as [d|err]; [|discriminate].
  intros E. injection E as <-. reflexivity.
Qed.

(** C10. A query that returns has one pair for every id in the cache as the
    call leaves it, in the order of the cache: the id and the divergence
    between the density of the target and the density cached under that id.
    The target itself is among them, and so is every id that was in the cache
    before the call, whether or not it was asked for in [comparisons]. *)
Theorem calc_divergence_reports_the_whole_cache
    {SK : Sklearn} {NM : NumpyMath} {SC : Scipy}
    (w w' : world) (target_id : string) (comparisons : list string)
    (kde_kernel divergence_method : string) (verbose : bool)
    (out : list (string * float)) :
  calc_divergence target_id comparisons kde_kernel divergence_method verbose w
  = (Ok out, w') ->
  map fst out = dict_keys (cache_of w')
  /\ Forall2 (fun o e => reported_pair divergence_method (cache_of w')
                            target_id e = Ok o)
             out (cache_of w')
  /\ target_id ∈ map fst out
  /\ (forall id, id ∈ dict_keys (cache_of w) -> id ∈ map fst out).
Proof.
  intros E.
  pose proof (calc_divergence_triple w target_id comparisons kde_kernel
                divergence_method verbose w (Ok out) w' eq_refl E)
    as ((_ & Hext & _) & Ht & Hout).
  assert (Hnames : map fst out = dict_keys (cache_of w')).
  { unfold dict_keys. clear -Hout.
    induction Hout as [|o e out' c' Hoe _ IH]; simpl; [reflexivity|].
    rewrite IH, (reported_pair_fst _ _ _ e e o Hoe). reflexivity. }
  split; [exact Hnames|]. split; [exact Hout|]. rewrite Hnames. split.
  - apply dict_mem_keys. exact Ht.
  - intros id Hid. apply dict_mem_keys. apply dict_mem_keys in Hid.
    unfold dict_mem in *.
    destruct (dict_get (cache_of w) id) as [q|] eqn:Eq; [|discriminate].
    rewrite (Hext id q Eq). reflexivity.
Qed.

(** The target "a" against the one comparison "b", the density of "c" in the
    cache from before: three pairs come back, for "c", "a" and "b". *)
Lemma calc_divergence_reports_the_whole_cache_witness :
  let run :=
    calc_divergence (H := lenient_sklearn) (H0 := coarse_math)
      (H1 := constant_scipy (Finite (1 # 4)))
      "a" ["b"] "gaussian" "jsd" false session_world in
  fst run = Ok [("c", Finite (1 # 4)); ("a", Finite (1 # 4)); ("b", Finite (1 # 4))]
  /\ map fst [("c", Finite (1 # 4)); ("a", Finite (1 # 4)); ("b", Finite (1 # 4))]
     = dict_keys (cache_of (snd run)).
Proof.
  intros run.
  assert (E : run = (Ok [("c", Finite (1 # 4)); ("a", Finite (1 # 4));
                         ("b", Finite (1 # 4))], snd run))
    by (vm_compute; reflexivity).
  destruct (calc_divergence_reports_the_whole_cache (SK := lenient_sklearn)
              (NM := coarse_math) (SC := constant_scipy (Finite (1 # 4)))
              session_world (snd run) "a" ["b"] "gaussian" "jsd" false _ E)
    as (Hnames & _).
  split; [rewrite E; reflexivity | exact Hnames].
Defined.

End BatchEffectsSpec.

(** ** Further properties of [populations.py] *)

Module PopulationsExtra.
Import Populations Examples PopulationsSpec.

(** *** The merged index as a sorted set *)

Lemma np_unique_ext (l l' : list Z) :
  (forall z, z ∈ l <-> z ∈ l') -> np_unique l = np_unique l'.
Proof.
  intros Hext.
  apply (StronglySorted_unique_strong Z.lt).
  - intros x1 x2 _ _ H12 H21. lia.
  - apply np_unique_sorted.
  - apply np_unique_sorted.
  - apply NoDup_Permutation; [apply np_unique_NoDup | apply np_unique_NoDup |].
    intros z. rewrite !elem_of_np_unique. apply Hext.
Qed.

Lemma np_unique_app_comm (i j : list Z) : np_unique (i ++ j) = np_unique (j ++ i).
Proof. apply np_unique_ext. intros z. rewrite !elem_of_app. tauto. Qed.

Lemma np_unique_absorb_l (i j : list Z) :
  np_unique (np_unique i ++ j) = np_unique (i ++ j).
Proof.
  apply np_unique_ext. intros z. rewrite !elem_of_app, elem_of_np_unique. tauto.
Qed.

Lemma np_unique_absorb_r (i j : list Z) :
  np_unique (i ++ np_unique j) = np_unique (i ++ j).
Proof.
  apply np_unique_ext. intros z. rewrite !elem_of_app, elem_of_np_unique. tauto.
Qed.

(** The index [_merge_index] computes for two populations with loaded indexes
    is strictly increasing, hence free of duplicates, and holds exactly the
    events of the two indexes. *)
Theorem merge_index_is_a_sorted_set (pl pr : Population) (i j : list Z)
    (w : world) :
  index pl = Some i -> index pr = Some j ->
  exists idx,
    _merge_index pl pr w = (Ok idx, w)
    /\ StronglySorted Z.lt idx
    /\ NoDup idx
    /\ forall z, z ∈ idx <-> z ∈ i \/ z ∈ j.
Proof.
  intros Hi Hj. exists (np_unique (i ++ j)). split.
  - unfold _merge_index. rewrite Hi, Hj. reflexivity.
  - split; [apply np_unique_sorted|]. split; [apply np_unique_NoDup|].
    intros z. rewrite elem_of_np_unique, elem_of_app. reflexivity.
Qed.

Lemma merge_index_is_a_sorted_set_witness :
  exists idx,
    _merge_index P1 P2 (world_of [P1; P2]) = (Ok idx, world_of [P1; P2])
    /\ NoDup idx
    /\ (3%Z ∈ idx <-> 3%Z ∈ [1; 2; 3]%Z \/ 3%Z ∈ [3; 4; 5]%Z).
Proof.
  destruct (merge_index_is_a_sorted_set P1 P2 [1; 2; 3]%Z [3; 4; 5]%Z
              (world_of [P1; P2]) eq_refl eq_refl) as (idx & E & _ & Hnd & Hin).
  exists idx. split; [exact E|]. split; [exact Hnd | apply Hin].
Defined.

(** The merged index does not depend on which population is left and which is
    right, merging a population with itself gives its own events, and merging
    three populations gives the same index whichever two are merged first. *)
Theorem merge_index_is_order_independent (pl pr pt : Population)
    (i j k : list Z) (w : world) :
  index pl = Some i -> index pr = Some j -> index pt = Some k ->
  _merge_index pl pr w = _merge_index pr pl w
  /\ _merge_index pl pl w = (Ok (np_unique i), w)
  /\ np_unique (np_unique (i ++ j) ++ k) = np_unique (i ++ np_unique (j ++ k)).
Proof.
  intros Hi Hj Hk. unfold _merge_index. rewrite Hi, Hj. repeat split.
  - rewrite np_unique_app_comm. reflexivity.
  - change ((Ok (np_unique (i ++ i)), w) = (Ok (np_unique i), w)).
    f_equal. f_equal. apply np_unique_ext. intros z. rewrite elem_of_app. tauto.
  - rewrite np_unique_absorb_l, np_unique_absorb_r, app_assoc. reflexivity.
Qed.

Lemma merge_index_is_order_independent_witness :
  _merge_index P1 P2 (world_of []) = _merge_index P2 P1 (world_of []).
Proof.
  destruct (merge_index_is_order_independent P1 P2 P3
              [1; 2; 3]%Z [3; 4; 5]%Z [3; 4; 5]%Z (world_of [])
              eq_refl eq_refl eq_refl) as (E & _).
  exact E.
Defined.

(** *** Failures and the state *)

Lemma bind_Raise_inv {A C} (m : M A) (k : A -> M C) w e w' :
  (m ≫= k) w = (Raise e, w') ->
  m w = (Raise e, w')
  \/ exists a w1, m w = (Ok a, w1) /\ k a w1 = (Raise e, w').
Proof.
  rewrite bind_run. destruct (m w) as [[a|e1] w1]; intros E.
  - right. exists a, w1. auto.
  - injection E as <- <-. left. reflexivity.
Qed.

Lemma keeps_world_bind {A C} (m : M A) (k : A -> M C) :
  keeps_world m -> (forall a, keeps_world (k a)) -> keeps_world (m ≫= k).
Proof.
  intros Hm Hk w r w' E. rewrite bind_run in E.
  destruct (m w) as [[a|e] w1] eqn:Em.
  - apply Hm in Em. subst w1. apply (Hk a w r w' E).
  - injection E as <- <-. apply (Hm w _ _ Em).
Qed.

Lemma keeps_world_ret {A} (a : A) : keeps_world (mret (M := M) a).
Proof. intros w r w' E. injection E as <- <-. reflexivity. Qed.

Lemma keeps_world_deref (l : loc) : keeps_world (deref l).
Proof.
  intros w r w' E. unfold deref in E.
  destruct (heap w !! l); injection E as <- <-; reflexivity.
Qed.

Lemma keeps_world_py_assert (b : bool) (msg : string) :
  keeps_world (py_assert b msg).
Proof. intros w r w' E. destruct b; injection E as <- <-; reflexivity. Qed.

Lemma keeps_world_check_transforms_dimensions (left right : loc) :
  keeps_world (_check_transforms_dimensions left right).
Proof.
  unfold _check_transforms_dimensions.
  repeat (apply keeps_world_bind; [|intros ?]);
    auto using keeps_world_deref, keeps_world_py_assert.
Qed.

Lemma keeps_world_check_overlap `{Shapely} (left right : loc) (error : bool) :
  keeps_world (_check_overlap left right error).
Proof.
  unfold _check_overlap.
  repeat (apply keeps_world_bind; [|intros ?]);
    auto using keeps_world_deref, keeps_world_py_assert, keeps_world_ret.
  destruct error; auto using keeps_world_py_assert, keeps_world_ret.
Qed.

Lemma bind_atomic {A C} (m : M A) (k : A -> M C) :
  keeps_world m -> (forall a, atomic_on_assert (k a)) ->
  atomic_on_assert (m ≫= k).
Proof.
  intros Hm Hk w msg w' E. apply bind_Raise_inv in E as [E|(a & w1 & Em & E)].
  - apply (Hm w _ _ E).
  - apply Hm in Em. subst w1. apply (Hk a w msg w' E).
Qed.

Lemma never_asserts_atomic {A} (m : M A) : never_asserts m -> atomic_on_assert m.
Proof. intros Hm w msg w' E. destruct (Hm w msg w' E). Qed.

Lemma never_asserts_bind {A C} (m : M A) (k : A -> M C) :
  never_asserts m -> (forall a, never_asserts (k a)) -> never_asserts (m ≫= k).
Proof.
  intros Hm Hk w msg w' E. apply bind_Raise_inv in E as [E|(a & w1 & Em & E)].
  - apply (Hm w msg w' E).
  - apply (Hk a w1 msg w' E).
Qed.

Lemma never_asserts_ret {A} (a : A) : never_asserts (mret (M := M) a).
Proof. intros w msg w' E. discriminate E. Qed.

Lemma never_asserts_deref (l : loc) : never_asserts (deref l).
Proof. intros w msg w' E. unfold deref in E. destruct (heap w !! l); discriminate E. Qed.

Lemma never_asserts_update (l : loc) (f : Population -> Population) :
  never_asserts (update l f).
Proof. intros w msg w' E. unfold update in E. destruct (heap w !! l); discriminate E. Qed.

Lemma never_asserts_warn (msg0 : string) : never_asserts (warn msg0).
Proof. intros w msg w' E. discriminate E. Qed.

Lemma never_asserts_alloc (p : Population) : never_asserts (alloc p).
Proof. intros w msg w' E. discriminate E. Qed.

Lemma never_asserts_len_index (p : Population) : never_asserts (len_index p).
Proof. intros w msg w' E. unfold len_index in E. destruct (index p); discriminate E. Qed.

Lemma never_asserts_merge_index (pl pr : Population) :
  never_asserts (_merge_index pl pr).
Proof.
  intros w msg w' E. unfold _merge_index in E.
  destruct (index pl), (index pr); discriminate E.
Qed.

Lemma never_asserts_join_definitions (a b : option string) :
  never_asserts (join_definitions a b).
Proof. intros w msg w' E. destruct a, b; discriminate E. Qed.

Lemma atomic_merge_thresholds (left right : loc) (name : string) :
  atomic_on_assert (_merge_thresholds left right name).
Proof.
  unfold _merge_thresholds.
  apply bind_atomic; [apply keeps_world_deref|]. intros pl.
  apply bind_atomic; [apply keeps_world_deref|]. intros pr.
  apply bind_atomic; [apply keeps_world_py_assert|]. intros u1.
  apply bind_atomic; [apply keeps_world_py_assert|]. intros u2.
  apply never_asserts_atomic.
  apply never_asserts_bind.
  { destruct (clusters pl), (clusters pr);
      try apply never_asserts_ret;
      (apply never_asserts_bind; [apply never_asserts_warn|intros ?];
       apply never_asserts_update). }
  intros u3. apply never_asserts_bind.
  { destruct (_ || _); [apply never_asserts_warn | apply never_asserts_ret]. }
  intros u4.
  apply never_asserts_bind; [apply never_asserts_len_index|]. intros nl.
  apply never_asserts_bind; [apply never_asserts_len_index|]. intros nr.
  apply never_asserts_bind; [apply never_asserts_merge_index|]. intros idx.
  apply never_asserts_bind; [apply never_asserts_join_definitions|]. intros def.
  apply never_asserts_alloc.
Qed.

Lemma atomic_merge_polygons `{Shapely} (left right : loc) (name : string) :
  atomic_on_assert (_merge_polygons left right name).
Proof.
  unfold _merge_polygons.
  apply bind_atomic; [apply keeps_world_check_overlap|]. intros b.
  apply never_asserts_atomic.
  apply never_asserts_bind; [apply never_asserts_deref|]. intros pl.
  apply never_asserts_bind; [apply never_asserts_deref|]. intros pr.
  apply never_asserts_bind.
  { destruct (unary_union_exterior [shape (geom pl); shape (geom pr)]);
      [apply never_asserts_ret | intros w msg w' E; discriminate E]. }
  intros ring.
  apply never_asserts_bind; [apply never_asserts_len_index|]. intros nl.
  apply never_asserts_bind; [apply never_asserts_len_index|]. intros nr.
  apply never_asserts_bind; [apply never_asserts_merge_index|]. intros idx.
  apply never_asserts_alloc.
Qed.

(** Whatever assertion a merge of two populations fails on, the heap and the
    warnings emitted are as they were before the call: every assertion comes
    before the first assignment. *)
Theorem failed_assertion_leaves_state {S : Shapely} (left right : loc)
    (oname : option string) (w w' : world) (msg : string) :
  merge_populations left right oname w = (Raise (AssertionError msg), w') ->
  w' = w.
Proof.
  revert w msg w'. change (atomic_on_assert (merge_populations left right oname)).
  unfold merge_populations.
  apply bind_atomic; [apply keeps_world_check_transforms_dimensions|]. intros u.
  apply bind_atomic; [apply keeps_world_deref|]. intros pl.
  apply bind_atomic; [apply keeps_world_deref|]. intros pr.
  apply bind_atomic; [apply keeps_world_py_assert|]. intros u1.
  apply bind_atomic; [apply keeps_world_py_assert|]. intros u2.
  destruct (is_ThresholdGeom (geom pl));
    [apply atomic_merge_thresholds | apply atomic_merge_polygons].
Qed.

Lemma failed_assertion_leaves_state_witness :
  snd (merge_populations (H := rectangles) 0 1 None (world_of [P1c; P4]))
  = world_of [P1c; P4].
Proof.
  apply (failed_assertion_leaves_state (S := rectangles) 0 1 None
           (world_of [P1c; P4]) _ msg_parent).
  reflexivity.
Defined.

(** *** What a merge leaves of its arguments *)

Lemma merge_populations_Ok_path {S : Shapely} (left right m : loc)
    (oname : option string) (w w' : world) (pl pr : Population) :
  heap w !! left = Some pl -> heap w !! right = Some pr ->
  merge_populations left right oname w = (Ok m, w') ->
  let name := str_or oname ("merge_" ++ population_name pl ++ "_"
                              ++ population_name pr) in
  (is_ThresholdGeom (geom pl) = true
   /\ _merge_thresholds left right name w = (Ok m, w'))
  \/ (is_ThresholdGeom (geom pl) = false
      /\ _merge_polygons left right name w = (Ok m, w')).
Proof.
  intros Hl Hr E name.
  pose proof E as E0.
  apply merge_populations_Ok_inv in E0
    as (pl' & pr' & p & Hl' & Hr' & Hax & _).
  rewrite Hl in Hl'. rewrite Hr in Hr'. inversion Hl'. inversion Hr'. subst pl' pr'.
  rewrite (merge_populations_dispatch _ _ _ _ _ Hl Hr oname Hax) in E.
  destruct (negb (String.eqb (parent pl) (parent pr))); [discriminate|].
  destruct (negb (isinstance_type_of (geom pl) (geom pr))); [discriminate|].
  cbv zeta in E. destruct (is_ThresholdGeom (geom pl)); [left|right]; auto.
Qed.

(** Merging two polygon-gated populations leaves both arguments exactly as
    they were, clusters and control indexes included, and emits no warning:
    the heap only gains the merged record. *)
Theorem polygon_merge_leaves_arguments {S : Shapely} (left right m : loc)
    (oname : option string) (w w' : world) (pl pr : Population) :
  heap w !! left = Some pl -> heap w !! right = Some pr ->
  is_PolygonGeom (geom pl) = true ->
  merge_populations left right oname w = (Ok m, w') ->
  exists p,
    heap w' = heap w ++ [p]
    /\ emitted w' = emitted w
    /\ heap w' !! left = Some pl
    /\ heap w' !! right = Some pr
    /\ clusters p = [] /\ ctrl_index p = [].
Proof.
  intros Hl Hr Tl E.
  destruct (merge_populations_Ok_path left right m oname w w' pl pr Hl Hr E)
    as [[Hthr _]|[_ Ep]].
  { destruct (geom pl); discriminate. }
  apply merge_polygons_Ok_inv in Ep
    as (pl' & pr' & p & _ & _ & _ & _ & _ & _ & Hh & He & Hf).
  destruct Hf as (li & ri & _ & _ & _ & _ & _ & _ & _ & _ & Hc & Hci & _).
  exists p. rewrite Hh. repeat split; try assumption.
  - rewrite lookup_app_l by (apply (lookup_lt_Some _ _ _ Hl)). exact Hl.
  - rewrite lookup_app_l by (apply (lookup_lt_Some _ _ _ Hr)). exact Hr.
Qed.

Lemma polygon_merge_leaves_arguments_witness :
  let w' := snd (merge_populations (H := rectangles) 0 1 None
                   (world_of [R1c; R3c])) in
  heap w' !! 0%nat = Some R1c /\ heap w' !! 1%nat = Some R3c
  /\ emitted w' = [].
Proof.
  intros w'.
  destruct (polygon_merge_leaves_arguments (S := rectangles) 0 1 2 None
              (world_of [R1c; R3c]) w' R1c R3c eq_refl eq_refl eq_refl eq_refl)
    as (p & _ & He & A & B & _).
  repeat split; assumption.
Defined.

(** *** The merged record *)

(** The record a merge returns is a new object under the next free location.
    It is named by the name given or, when none or the empty string is given,
    [merge_<left>_<right>]; it has the parent of the arguments, their warnings
    followed by the marker, the axes and transforms of the left argument, and
    neither clusters nor control indexes. *)
Theorem merged_record_fields {S : Shapely} (left right m : loc)
    (oname : option string) (w w' : world) (pl pr : Population) :
  heap w !! left = Some pl -> heap w !! right = Some pr ->
  merge_populations left right oname w = (Ok m, w') ->
  exists p,
    heap w' !! m = Some p
    /\ heap w !! m = None
    /\ population_name p
       = match oname with
         | Some s => if String.eqb s "" then
                       ("merge_" ++ population_name pl ++ "_"
                          ++ population_name pr)%string
                     else s
         | None => ("merge_" ++ population_name pl ++ "_"
                      ++ population_name pr)%string
         end
    /\ parent p = parent pl /\ parent p = parent pr
    /\ warnings p = warnings pl ++ warnings pr ++ ["MERGED POPULATION"]
    /\ last (warnings p) = Some "MERGED POPULATION"
    /\ axes (geom p) = axes (geom pl)
    /\ clusters p = [] /\ ctrl_index p = [].
Proof.
  intros Hl Hr E.
  apply merge_populations_Ok_inv in E
    as (pl' & pr' & p & Hl' & Hr' & _ & Hpar & _ & Hm & Hh & Hf).
  rewrite Hl in Hl'. rewrite Hr in Hr'. inversion Hl'. inversion Hr'. subst pl' pr'.
  destruct Hf as (li & ri & _ & _ & Hn & _ & _ & Hp & Hw & _ & Hc & Hci & Hax).
  exists p. repeat apply conj; try assumption.
  - rewrite Hh, Hm. apply list_lookup_middle.
    destruct (_ && _); [rewrite length_insert|]; reflexivity.
  - apply lookup_ge_None. lia.
  - congruence.
  - rewrite Hw, !app_assoc. apply last_snoc.
Qed.

Lemma merged_record_fields_witness :
  let w' := snd (merge_populations (H := rectangles) 0 1 (Some "")
                   (world_of [R1c; R3c])) in
  exists p, heap w' !! 2%nat = Some p
            /\ population_name p = "merge_blasts_blasts"
            /\ warnings p = ["sparse"; "MERGED POPULATION"].
Proof.
  intros w'.
  destruct (merged_record_fields (S := rectangles) 0 1 2 (Some "")
              (world_of [R1c; R3c]) w' R1c R3c eq_refl eq_refl eq_refl)
    as (p & Hp & _ & Hn & _ & _ & Hw & _).
  exists p. repeat split; assumption.
Defined.

(** *** When two populations can be merged *)

Lemma merge_thresholds_succeeds (left right : loc) (name : string) (w : world)
    (pl pr : Population) (li ri : list Z) (dl dr : string) :
  heap w !! left = Some pl -> heap w !! right = Some pr ->
  Qeq_bool (geom_x_threshold (geom pl)) (geom_x_threshold (geom pr)) = true ->
  Qeq_bool (geom_y_threshold (geom pl)) (geom_y_threshold (geom pr)) = true ->
  index pl = Some li -> index pr = Some ri ->
  definition pl = Some dl -> definition pr = Some dr ->
  exists w', _merge_thresholds left right name w = (Ok (length (heap w)), w').
Proof.
  intros Hl Hr Hx Hy Hli Hri Hdl Hdr.
  unfold _merge_thresholds. do 2 mstep. rewrite Hx. mstep. rewrite Hy. mstep.
  unfold len_index, _merge_index, join_definitions.
  rewrite Hli, Hri, Hdl, Hdr.
  destruct (clusters pl) as [|c cs], (clusters pr) as [|c' cs'];
    destruct ((0 <? length (ctrl_index pl))%nat || (0 <? length (ctrl_index pr))%nat);
    unfold mbind, M_bind, bind, mret, M_ret, ret, update, warn, alloc; cbn;
    rewrite ?Hl; cbn; rewrite ?length_insert; eexists; reflexivity.
Qed.

Lemma merge_polygons_succeeds {S : Shapely} (left right : loc) (name : string)
    (w : world) (pl pr : Population) (li ri : list Z) :
  heap w !! left = Some pl -> heap w !! right = Some pr ->
  is_PolygonGeom (geom pl) = true -> is_PolygonGeom (geom pr) = true ->
  intersects (shape (geom pl)) (shape (geom pr)) = true ->
  is_Some_b (unary_union_exterior [shape (geom pl); shape (geom pr)]) = true ->
  index pl = Some li -> index pr = Some ri ->
  exists w', _merge_polygons left right name w = (Ok (length (heap w)), w').
Proof.
  intros Hl Hr Pl Pr Ho Hu Hli Hri.
  assert (Hc : _check_overlap left right true w = (Ok true, w)).
  { unfold _check_overlap. do 2 mstep. rewrite Pl, Pr. cbn [andb]. mstep.
    rewrite Ho. mstep. reflexivity. }
  unfold _merge_polygons. rewrite (bind_Ok _ _ _ _ _ Hc). do 2 mstep.
  destruct (unary_union_exterior [shape (geom pl); shape (geom pr)])
    as [ring|]; [clear Hu | discriminate Hu].
  unfold len_index, _merge_index. rewrite Hli, Hri.
  unfold mbind, M_bind, bind, mret, M_ret, ret, alloc. cbn.
  eexists. reflexivity.
Qed.

Lemma merge_thresholds_Ok_definitions (left right m : loc) (name : string)
    (w w' : world) (pl pr : Population) :
  heap w !! left = Some pl -> heap w !! right = Some pr ->
  _merge_thresholds left right name w = (Ok m, w') ->
  is_Some_b (definition pl) = true /\ is_Some_b (definition pr) = true.
Proof.
  intros Hl Hr E. unfold _merge_thresholds in E.
  minv E as pl' w1 E1. apply deref_Ok_inv in E1 as [Hl' ->].
  minv E as pr' w1 E1. apply deref_Ok_inv in E1 as [Hr' ->].
  rewrite Hl in Hl'. rewrite Hr in Hr'. inversion Hl'. inversion Hr'. subst pl' pr'.
  minv E as u1 w1 E1. clear E1. minv E as u2 w2 E1. clear E1.
  minv E as u3 w3 E1. clear E1. minv E as u4 w4 E1. clear E1.
  minv E as nl w5 E1. clear E1. minv E as nr w6 E1. clear E1.
  minv E as idx w7 E1. clear E1. minv E as def w8 E1.
  apply join_definitions_Ok_inv in E1 as (s & t & -> & -> & _). auto.
Qed.

Lemma axes_eqb_eq (a b : Axes) : axes_eqb a b = true <-> a = b.
Proof.
  unfold axes_eqb. split.
  - intros E. apply andb_prop in E as [E E4]. apply andb_prop in E as [E E3].
    apply andb_prop in E as [E1 E2]. apply axes_eq; assumption.
  - intros ->. rewrite !String.eqb_refl. reflexivity.
Qed.

(** Two populations can be merged exactly when they pass the guards of
    [merge_populations] and have what the geometry path reads: equal axes and
    transforms, one parent, one kind of geometry, loaded indexes and, for
    thresholds, equal thresholds and a definition on each side, for polygons,
    shapes that intersect and whose union is one polygon, so that it has an
    exterior. *)
Theorem merge_succeeds_iff_mergeable {S : Shapely} (left right : loc)
    (oname : option string) (w : world) (pl pr : Population) :
  heap w !! left = Some pl -> heap w !! right = Some pr ->
  (exists m w', merge_populations left right oname w = (Ok m, w'))
  <-> mergeable pl pr = true.
Proof.
  intros Hl Hr. unfold mergeable. split.
  - intros (m & w' & E).
    destruct (merge_populations_Ok_path left right m oname w w' pl pr Hl Hr E)
      as [[Thr Et]|[Thr Ep]].
    + pose proof (merge_thresholds_Ok_definitions _ _ _ _ _ _ _ _ Hl Hr Et)
        as [Hdl Hdr].
      apply merge_populations_Ok_inv in E
        as (pl' & pr' & p & Hl' & Hr' & Hax & Hpar & Hty & _ & _ & Hf).
      rewrite Hl in Hl'. rewrite Hr in Hr'. inversion Hl'. inversion Hr'.
      subst pl' pr'.
      destruct Hf as (li & ri & Hli & Hri & _).
      apply merge_thresholds_Ok_inv in Et
        as (pl' & pr' & p' & Hl2 & Hr2 & Hx & Hy & _).
      rewrite Hl in Hl2. rewrite Hr in Hr2. inversion Hl2. inversion Hr2.
      subst pl' pr'.
      apply Qeq_bool_iff in Hx, Hy.
      rewrite (proj2 (axes_eqb_eq _ _) Hax), Hpar, String.eqb_refl.
      unfold isinstance_type_of. rewrite Hty, Bool.eqb_reflx.
      rewrite Hli, Hri, <- Hty, Thr, Hx, Hy, Hdl, Hdr. reflexivity.
    + apply merge_populations_Ok_inv in E
        as (pl' & pr' & p & Hl' & Hr' & Hax & Hpar & Hty & _ & _ & Hf).
      rewrite Hl in Hl'. rewrite Hr in Hr'. inversion Hl'. inversion Hr'.
      subst pl' pr'.
      destruct Hf as (li & ri & Hli & Hri & _).
      pose proof (merge_polygons_Ok_exterior _ _ _ _ _ _ _ _ Hl Hr Ep)
        as (ring & Hring).
      apply merge_polygons_Ok_inv in Ep
        as (pl' & pr' & p' & Hl2 & Hr2 & _ & _ & Ho & _).
      rewrite Hl in Hl2. rewrite Hr in Hr2. inversion Hl2. inversion Hr2.
      subst pl' pr'.
      rewrite (proj2 (axes_eqb_eq _ _) Hax), Hpar, String.eqb_refl.
      unfold isinstance_type_of. rewrite Hty, Bool.eqb_reflx.
      rewrite Hli, Hri, <- Hty, Thr, Ho, Hring. reflexivity.
  - intros E.
    apply andb_prop in E as [E Hgeo]. apply andb_prop in E as [E Hri].
    apply andb_prop in E as [E Hli]. apply andb_prop in E as [E Hty].
    apply andb_prop in E as [Hax Hpar].
    apply axes_eqb_eq in Hax.
    rewrite (merge_populations_dispatch _ _ _ _ _ Hl Hr oname Hax).
    rewrite Hpar, Hty. cbn [negb]. cbv zeta.
    destruct (index pl) as [li|] eqn:Eli; [|discriminate].
    destruct (index pr) as [ri|] eqn:Eri; [|discriminate].
    destruct (is_ThresholdGeom (geom pl)) eqn:Thr.
    + apply andb_prop in Hgeo as [Hgeo Hdr]. apply andb_prop in Hgeo as [Hgeo Hdl].
      apply andb_prop in Hgeo as [Hx Hy].
      destruct (definition pl) as [dl|] eqn:Edl; [|discriminate].
      destruct (definition pr) as [dr|] eqn:Edr; [|discriminate].
      destruct (merge_thresholds_succeeds left right
                  (str_or oname ("merge_" ++ population_name pl ++ "_"
                                   ++ population_name pr))
                  w pl pr li ri dl dr Hl Hr Hx Hy Eli Eri Edl Edr) as [w' E'].
      eauto.
    + assert (Pl : is_PolygonGeom (geom pl) = true)
        by (destruct (geom pl); [discriminate | reflexivity]).
      assert (Pr : is_PolygonGeom (geom pr) = true).
      { unfold isinstance_type_of in Hty. rewrite Thr in Hty.
        destruct (geom pr); [discriminate | reflexivity]. }
      apply andb_prop in Hgeo as [Ho Hring].
      destruct (merge_polygons_succeeds left right
                  (str_or oname ("merge_" ++ population_name pl ++ "_"
                                   ++ population_name pr))
                  w pl pr li ri Hl Hr Pl Pr Ho Hring Eli Eri) as [w' E'].
      eauto.
Qed.

(** Two squares that overlap can be merged; two squares apart cannot, and
    neither can two squares that meet in a corner: they intersect, and the
    merge fails on the exterior of their union. *)
Lemma merge_succeeds_iff_mergeable_witness :
  mergeable (H := rectangles) R1c R3c = true
  /\ mergeable (H := rectangles) R1 R2 = false
  /\ intersects (Shapely := rectangles) (shape (geom R1)) (shape (geom R4)) = true
  /\ mergeable (H := rectangles) R1 R4 = false
  /\ fst (merge_populations (H := rectangles) 0 1 None (world_of [R1; R4]))
     = Raise (AttributeError msg_exterior).
Proof.
  split; [|repeat split].
  apply (merge_succeeds_iff_mergeable (S := rectangles) 0 1 None
           (world_of [R1c; R3c]) R1c R3c eq_refl eq_refl).
  exists 2%nat, (snd (merge_populations (H := rectangles) 0 1 None
                        (world_of [R1c; R3c]))).
  reflexivity.
Defined.

(** *** The merged signature *)

Lemma dict_get_tabulate (f : string -> Q) (keys : list string) (k : string) :
  dict_get (map (fun k0 => (k0, f k0)) keys) k
  = if decide (k ∈ keys) then Some (f k) else None.
Proof.
  induction keys as [|k0 keys IH]; simpl.
  - destruct (decide (k ∈ [])) as [Hin|_]; [inversion Hin | reflexivity].
  - destruct (String.eqb k0 k) eqn:E.
    + apply String.eqb_eq in E. subst k0.
      destruct (decide (k ∈ k :: keys)) as [_|Hnin]; [reflexivity|].
      contradiction Hnin. apply list_elem_of_here.
    + apply String.eqb_neq in E. rewrite IH.
      destruct (decide (k ∈ keys)) as [Hin|Hnin];
        destruct (decide (k ∈ k0 :: keys)) as [Hin'|Hnin']; try reflexivity.
      * contradiction Hnin'. apply list_elem_of_further. exact Hin.
      * apply elem_of_cons in Hin' as [->|Hin']; contradiction.
Qed.

Lemma elem_of_frame_columns (a b : dict Q) (k : string) :
  k ∈ frame_columns a b <-> dict_mem a k = true \/ dict_mem b k = true.
Proof.
  unfold frame_columns. rewrite elem_of_app, list_elem_of_filter.
  rewrite <- !BatchEffectsSpec.dict_mem_keys, negb_True, Is_true_true.
  destruct (dict_mem a k); split; intuition congruence.
Qed.

(** The signature of a merged record is the mean of the two signatures, key
    by key, a key that only one side has keeping its value there; no other key
    appears.  Merging a signature with itself changes no value, and the values
    do not depend on which side is left. *)
Theorem merged_signature_is_elementwise_mean (pl pr : Population) (k : string) :
  dict_get (_merge_signatures pl pr) k
  = match dict_get (signature pl) k, dict_get (signature pr) k with
    | Some u, Some v => Some ((u + v) / 2)%Q
    | Some u, None => Some u
    | None, Some v => Some v
    | None, None => None
    end
  /\ (forall u, dict_get (signature pl) k = Some u ->
        exists v, dict_get (_merge_signatures pl pl) k = Some v /\ (v == u)%Q)
  /\ match dict_get (_merge_signatures pl pr) k,
           dict_get (_merge_signatures pr pl) k with
     | Some u, Some v => (u == v)%Q
     | None, None => True
     | _, _ => False
     end.
Proof.
  assert (Hget : forall a b : Population,
             dict_get (_merge_signatures a b) k
             = match dict_get (signature a) k, dict_get (signature b) k with
               | Some u, Some v => Some ((u + v) / 2)%Q
               | Some u, None => Some u
               | None, Some v => Some v
               | None, None => None
               end).
  { intros a b. unfold _merge_signatures, frame_mean.
    rewrite (dict_get_tabulate (column_mean (signature a) (signature b))).
    unfold column_mean.
    destruct (decide (k ∈ frame_columns (signature a) (signature b))) as [Hin|Hnin].
    - apply elem_of_frame_columns in Hin. unfold dict_mem in Hin.
      destruct (dict_get (signature a) k), (dict_get (signature b) k);
        try reflexivity.
      destruct Hin; discriminate.
    - rewrite elem_of_frame_columns in Hnin. unfold dict_mem in Hnin.
      destruct (dict_get (signature a) k), (dict_get (signature b) k);
        try reflexivity; exfalso; apply Hnin; auto. }
  split; [apply Hget|]. split.
  - intros u Hu. rewrite Hget, Hu. eexists. split; [reflexivity|]. field.
  - rewrite (Hget pl pr), (Hget pr pl).
    destruct (dict_get (signature pl) k), (dict_get (signature pr) k);
      try exact I; try reflexivity.
    field.
Qed.

(** *** The many-way merge at its edges *)

Lemma with_population_name_same (o : Population) :
  with_population_name o (population_name o) = o.
Proof. destruct o. reflexivity. Qed.

(** On a list of one population nothing is merged and no record is made: the
    call returns the very object it was given, renamed in place when a new
    name is given and untouched otherwise. *)
Theorem merge_of_one_population_is_that_population {S : Shapely}
    (p : loc) (oname : option string) (w : world) (o : Population) :
  heap w !! p = Some o ->
  merge_multiple_populations [p] oname w
  = (Ok p, {| heap := <[p := with_population_name o
                             (str_or oname (population_name o))]> (heap w);
              emitted := emitted w |})
  /\ (oname = None ->
      merge_multiple_populations [p] oname w = (Ok p, w)).
Proof.
  intros Ho.
  assert (Hrun : merge_multiple_populations [p] oname w
                 = (Ok p, {| heap := <[p := with_population_name o
                                            (str_or oname (population_name o))]>
                                       (heap w);
                             emitted := emitted w |})).
  { unfold merge_multiple_populations, population_names, name_or_first, reduce,
      reduce_from, str_or.
    destruct oname as [s|].
    - destruct (String.eqb s "");
        unfold mbind, M_bind, bind, mret, M_ret, ret, deref, update; cbn;
        rewrite ?Ho; cbn; rewrite ?Ho; reflexivity.
    - unfold mbind, M_bind, bind, mret, M_ret, ret, deref, update, py_assert; cbn.
      rewrite ?Ho. cbn.
      destruct (decide_rel elem_of (population_name o) []) as [Hin|_];
        [inversion Hin|].
      cbn. rewrite ?Ho. cbn. rewrite ?Ho. reflexivity. }
  split; [exact Hrun|].
  intros ->. rewrite Hrun. simpl. rewrite with_population_name_same.
  rewrite list_insert_id by exact Ho. destruct w. reflexivity.
Qed.

Lemma merge_of_one_population_is_that_population_witness :
  merge_multiple_populations (H := rectangles) [0]%nat (Some "all") (world_of [P1c])
  = (Ok 0%nat, world_of [with_population_name P1c "all"]).
Proof.
  destruct (merge_of_one_population_is_that_population (S := rectangles)
              0 (Some "all") (world_of [P1c]) P1c eq_refl) as [E _].
  exact E.
Defined.

(** With a new name that is not empty the names of the populations are not
    looked at: the call is the fold of the pairwise merges followed by the
    renaming of its result to the new name, and it fails exactly as the fold
    fails. *)
Theorem merge_under_new_name_skips_name_check {S : Shapely}
    (p0 : loc) (ps : list loc) (s : string) (w : world) (o : Population) :
  s <> "" ->
  heap w !! p0 = Some o ->
  (forall m w1,
     reduce (fun p1 p2 => merge_populations p1 p2 None) (p0 :: ps) w = (Ok m, w1) ->
     exists p,
       heap w1 !! m = Some p
       /\ merge_multiple_populations (p0 :: ps) (Some s) w
          = (Ok m, {| heap := <[m := with_population_name p s]> (heap w1);
                      emitted := emitted w1 |}))
  /\
  (forall e w1,
     reduce (fun p1 p2 => merge_populations p1 p2 None) (p0 :: ps) w
     = (Raise e, w1) ->
     merge_multiple_populations (p0 :: ps) (Some s) w = (Raise e, w1)).
Proof.
  intros Hs Ho. apply String.eqb_neq in Hs.
  assert (Hpre : merge_multiple_populations (p0 :: ps) (Some s) w
                 = (reduce (fun p1 p2 => merge_populations p1 p2 None) (p0 :: ps)
                      ≫= (fun merged_pop =>
                            update merged_pop (fun q => with_population_name q s)
                              ≫= (fun _ => mret merged_pop))) w).
  { unfold merge_multiple_populations, name_or_first. rewrite Hs. reflexivity. }
  split.
  - intros m w1 E.
    assert (Hm : (m < length (heap w1))%nat).
    { apply (reduce_from_live ps p0 m w w1); [|exact E].
      apply (lookup_lt_Some _ _ _ Ho). }
    destruct (lookup_lt_is_Some_2 _ _ Hm) as [p Hp].
    exists p. split; [exact Hp|].
    rewrite Hpre. erewrite bind_Ok by exact E.
    rewrite bind_run. unfold update. rewrite Hp. reflexivity.
  - intros e w1 E. rewrite Hpre. erewrite bind_Raise by exact E. reflexivity.
Qed.

Lemma merge_under_new_name_skips_name_check_witness :
  population_name P1 <> population_name P5
  /\ exists w' p,
       merge_multiple_populations (H := rectangles) [0; 1]%nat (Some "lymphocytes")
         (world_of [P1; P5])
       = (Ok 2%nat, w')
       /\ heap w' !! 2%nat = Some p
       /\ population_name p = "lymphocytes".
Proof.
  split; [discriminate|].
  destruct (merge_under_new_name_skips_name_check (S := rectangles) 0 [1]%nat
              "lymphocytes" (world_of [P1; P5]) P1 ltac:(discriminate) eq_refl)
    as [Hok _].
  destruct (Hok 2%nat
              (snd (reduce (fun p1 p2 =>
                              merge_populations (H := rectangles) p1 p2 None)
                      [0; 1]%nat (world_of [P1; P5]))) eq_refl) as (p & Hp & E).
  vm_compute in Hp. injection Hp as Hp. subst p.
  eexists _, _. split; [exact E|]. vm_compute. split; reflexivity.
Defined.

(** *** The index of a many-way merge *)

Lemma index_at_Some (w : world) (l : loc) (i : list Z) :
  index_at w l = Some i ->
  exists p, heap w !! l = Some p /\ index p = Some i.
Proof.
  unfold index_at. destruct (heap w !! l) as [p|]; [eauto | discriminate].
Qed.

Lemma merge_populations_index_step {S : Shapely} (l r m : loc) (w w' : world)
    (i j : list Z) :
  merge_populations l r None w = (Ok m, w') ->
  index_at w l = Some i -> index_at w r = Some j ->
  index_at w' m = Some (np_unique (i ++ j))
  /\ (forall x, (x < length (heap w))%nat -> index_at w' x = index_at w x)
  /\ (length (heap w) <= length (heap w'))%nat.
Proof.
  intros E Hi Hj.
  apply merge_populations_Ok_inv in E
    as (pl & pr & p & Hl & Hr & _ & _ & _ & Hm & Hh & Hf).
  destruct Hf as (li & ri & Hli & Hri & _ & Hidx & _).
  unfold index_at in Hi, Hj. rewrite Hl in Hi. rewrite Hr in Hj.
  rewrite Hli in Hi. rewrite Hri in Hj. inversion Hi. inversion Hj. subst li ri.
  assert (Hlen : length (if is_ThresholdGeom (geom pl) && voids_clusters pl pr
                         then <[l := with_clusters pl []]> (heap w)
                         else heap w) = length (heap w))
    by (destruct (_ && _); [rewrite length_insert|]; reflexivity).
  split; [|split].
  - unfold index_at. rewrite Hh, Hm.
    rewrite (list_lookup_middle _ _ _ _ (eq_sym Hlen)). exact Hidx.
  - intros x Hx. unfold index_at. rewrite Hh.
    rewrite lookup_app_l by (rewrite Hlen; exact Hx).
    destruct (is_ThresholdGeom (geom pl) && voids_clusters pl pr); [|reflexivity].
    destruct (decide (l = x)) as [->|Hne].
    + rewrite list_lookup_insert_eq by exact Hx. rewrite Hl. reflexivity.
    + rewrite list_lookup_insert_ne by exact Hne. reflexivity.
  - rewrite Hh, length_app, Hlen. lia.
Qed.

Lemma reduce_from_index {S : Shapely} (xs : list loc) (acc m : loc)
    (w w1 : world) (ia : list Z) (ixs : list (list Z)) :
  index_at w acc = Some ia ->
  Forall2 (fun l i => index_at w l = Some i) xs ixs ->
  reduce_from (fun p1 p2 => merge_populations p1 p2 None) acc xs w = (Ok m, w1) ->
  index_at w1 m = Some (fold_left (fun a i => np_unique (a ++ i)) ixs ia).
Proof.
  revert acc w ia ixs.
  induction xs as [|x xs IH]; intros acc w ia ixs Hacc Hall E.
  - apply Forall2_nil_inv_l in Hall. subst ixs.
    simpl in E. apply ret_Ok_inv in E as [-> ->]. exact Hacc.
  - apply Forall2_cons_inv_l in Hall as (i & ixs' & Hx & Hall & ->).
    simpl in E. minv E as a w2 E1.
    destruct (merge_populations_index_step acc x a w w2 ia i E1 Hacc Hx)
      as (Ha & Hkeep & _).
    simpl. apply (IH a w2 (np_unique (ia ++ i)) ixs' Ha); [|exact E].
    eapply Forall2_impl; [exact Hall|]. intros l0 i0 Hl0. simpl in Hl0.
    rewrite Hkeep; [exact Hl0|].
    apply index_at_Some in Hl0 as (p & Hp & _).
    apply (lookup_lt_Some _ _ _ Hp).
Qed.

Lemma fold_np_unique (ixs : list (list Z)) (ia : list Z) :
  ixs <> [] ->
  fold_left (fun a i => np_unique (a ++ i)) ixs ia = np_unique (ia ++ concat ixs).
Proof.
  revert ia. induction ixs as [|i ixs IH]; intros ia Hne; [contradiction|].
  destruct ixs as [|i' ixs].
  - simpl. rewrite app_nil_r. reflexivity.
  - change (fold_left (fun a i0 => np_unique (a ++ i0)) (i' :: ixs)
              (np_unique (ia ++ i))
            = np_unique (ia ++ concat (i :: i' :: ixs))).
    rewrite IH by discriminate.
    rewrite np_unique_absorb_l. simpl. rewrite <- app_assoc. reflexivity.
Qed.

Lemma keeps_world_population_names (ps : list loc) :
  keeps_world (population_names ps).
Proof.
  intros w r w' E. pose proof (population_names_world ps w) as H.
  rewrite E in H. exact H.
Qed.

Lemma elem_of_concat (z : Z) (ls : list (list Z)) :
  z ∈ concat ls <-> exists l, l ∈ ls /\ z ∈ l.
Proof.
  rewrite list_elem_of_In, in_concat. split; intros (l & Hl & Hz); exists l.
  - rewrite !list_elem_of_In. auto.
  - rewrite <- !list_elem_of_In. auto.
Qed.

(** The index of a many-way merge of two populations or more is the sorted
    set of all the events of all the inputs; it is the same in whatever order
    the populations are listed. *)
Theorem many_way_merged_index {S : Shapely} (p0 p1 : loc) (ps : list loc)
    (oname : option string) (w w' : world) (m : loc)
    (i0 i1 : list Z) (ixs : list (list Z)) :
  index_at w p0 = Some i0 ->
  index_at w p1 = Some i1 ->
  Forall2 (fun l i => index_at w l = Some i) ps ixs ->
  merge_multiple_populations (p0 :: p1 :: ps) oname w = (Ok m, w') ->
  index_at w' m = Some (np_unique (concat (i0 :: i1 :: ixs)))
  /\ forall ixs', ixs' ≡ₚ i0 :: i1 :: ixs ->
       np_unique (concat ixs') = np_unique (concat (i0 :: i1 :: ixs)).
Proof.
  intros H0 H1 Hps E. split.
  - unfold merge_multiple_populations in E.
    minv E as u w1 E1.
    assert (Hw1 : w1 = w).
    { revert E1. generalize (Ok u : result unit). intros r E1.
      destruct oname as [s|].
      - apply (keeps_world_ret tt w r w1 E1).
      - revert E1. apply keeps_world_bind; [apply keeps_world_population_names|].
        intros names. apply keeps_world_py_assert. }
    subst w1. clear E1.
    minv E as new_name w1 E1.
    assert (Hw1 : w1 = w).
    { revert E1. generalize (Ok new_name : result string). intros r E1.
      unfold name_or_first in E1.
      assert (Hfirst : keeps_world
                (o ← deref p0; mret (M := M) (population_name o))).
      { apply keeps_world_bind; [apply keeps_world_deref|].
        intros o. apply keeps_world_ret. }
      destruct oname as [s|]; [destruct (String.eqb s "")|].
      - apply (Hfirst w r w1 E1).
      - apply (keeps_world_ret s w r w1 E1).
      - apply (Hfirst w r w1 E1). }
    subst w1. clear E1.
    minv E as merged w1 E1.
    minv E as u2 w2 E2. apply ret_Ok_inv in E as [-> ->].
    apply update_Ok_inv in E2 as (p & Hp & ->).
    assert (Hall : Forall2 (fun l i => index_at w l = Some i)
                           (p1 :: ps) (i1 :: ixs))
      by (constructor; assumption).
    pose proof (reduce_from_index (p1 :: ps) p0 merged w w1 i0 (i1 :: ixs) H0
                  Hall E1) as Hidx.
    rewrite fold_np_unique in Hidx by discriminate.
    unfold index_at in *. simpl.
    rewrite list_lookup_insert_eq by (apply (lookup_lt_Some _ _ _ Hp)).
    rewrite Hp in Hidx. exact Hidx.
  - intros ixs' Hperm. apply np_unique_ext. intros z.
    rewrite !elem_of_concat. split; intros (l & Hl & Hz); exists l;
      (split; [|exact Hz]).
    + rewrite <- Hperm. exact Hl.
    + rewrite Hperm. exact Hl.
Qed.

Lemma many_way_merged_index_witness :
  index_at (snd (merge_multiple_populations (H := rectangles) [0; 1; 2]%nat None
                   (world_of [P1; P2; P2]))) 4%nat
  = Some (np_unique (concat [[1; 2; 3]; [3; 4; 5]; [3; 4; 5]]%Z)).
Proof.
  destruct (many_way_merged_index (S := rectangles) 0 1 [2]%nat None
              (world_of [P1; P2; P2])
              (snd (merge_multiple_populations (H := rectangles) [0; 1; 2]%nat
                      None (world_of [P1; P2; P2])))
              4 [1; 2; 3]%Z [3; 4; 5]%Z [[3; 4; 5]%Z] eq_refl eq_refl
              ltac:(repeat constructor) eq_refl) as [E _].
  exact E.
Defined.

(** *** The clusters of a population *)

Lemma existsb_same_id_and_tag (c : Cluster) (cs : list Cluster) :
  existsb (same_id_and_tag c) cs = true
  <-> (cluster_id c, tag c) ∈ cluster_keys cs.
Proof.
  unfold cluster_keys. induction cs as [|x cs IH]; simpl.
  - split; [discriminate|]. intros Hin. inversion Hin.
  - rewrite Bool.orb_true_iff, IH, elem_of_cons. unfold same_id_and_tag.
    rewrite Bool.andb_true_iff, !String.eqb_eq. split.
    + intros [[E1 E2]|Hin]; [left; congruence | right; exact Hin].
    + intros [E|Hin]; [left; split; congruence | right; exact Hin].
Qed.

(** [add_cluster] keeps the clusters of a population told apart by id and tag:
    it refuses, without changing anything, a cluster whose id and tag are
    both taken, and otherwise puts the cluster at the end of the list. *)
Theorem add_cluster_keeps_keys_unique (self : loc) (c : Cluster) (w : world)
    (p : Population) :
  heap w !! self = Some p ->
  NoDup (cluster_keys (clusters p)) ->
  ((cluster_id c, tag c) ∈ cluster_keys (clusters p) ->
   exists msg, add_cluster self c w = (Raise (AssertionError msg), w))
  /\
  ((cluster_id c, tag c) ∉ cluster_keys (clusters p) ->
   add_cluster self c w
   = (Ok tt, {| heap := <[self := with_clusters p (clusters p ++ [c])]> (heap w);
                emitted := emitted w |})
   /\ NoDup (cluster_keys (clusters p ++ [c]))).
Proof.
  intros Hp Hnd. unfold add_cluster. mstep. split.
  - intros Hin. apply existsb_same_id_and_tag in Hin. rewrite Hin. cbn [negb].
    mstep. eexists. reflexivity.
  - intros Hnin.
    assert (Hex : existsb (same_id_and_tag c) (clusters p) = false).
    { destruct (existsb _ _) eqn:E; [|reflexivity].
      apply existsb_same_id_and_tag in E. contradiction. }
    rewrite Hex. cbn [negb]. mstep. split.
    + unfold update. rewrite Hp. reflexivity.
    + unfold cluster_keys. rewrite map_app. simpl.
      apply NoDup_app. split; [exact Hnd|]. split.
      * intros k Hk Hk'. apply list_elem_of_singleton in Hk'. subst k.
        contradiction.
      * apply NoDup_singleton.
Qed.

Lemma add_cluster_keeps_keys_unique_witness :
  (exists msg, add_cluster 0 cluster_k (world_of [P1c])
               = (Raise (AssertionError msg), world_of [P1c]))
  /\ add_cluster 0 cluster_k (world_of [P1])
     = (Ok tt, world_of [P1c]).
Proof.
  split.
  - destruct (add_cluster_keeps_keys_unique 0 cluster_k (world_of [P1c]) P1c
                eq_refl) as [Hdup _].
    + repeat constructor. intros Hin. inversion Hin.
    + apply Hdup. repeat constructor.
  - destruct (add_cluster_keeps_keys_unique 0 cluster_k (world_of [P1]) P1
                eq_refl) as [_ Hnew].
    + constructor.
    + destruct Hnew as [E _]; [intros Hin; inversion Hin | exact E].
Defined.

Lemma with_clusters_same (p : Population) : with_clusters p (clusters p) = p.
Proof. destruct p. reflexivity. Qed.

(** [delete_clusters] with a tag removes the clusters of that tag and no
    other, keeping the rest in their order; without a tag it fails and changes
    nothing, unless all clusters are to be dropped, and then the tag is not
    looked at.  A cluster can always be added under a tag just deleted, and
    adding a cluster under a tag no cluster has and deleting that tag again
    gives back the state as it was. *)
Theorem delete_clusters_by_tag (self : loc) (t : string) (w : world)
    (p : Population) :
  heap w !! self = Some p ->
  let kept := List.filter (fun x => negb (String.eqb (tag x) t)) (clusters p) in
  delete_clusters self (Some t) false w
  = (Ok tt, {| heap := <[self := with_clusters p kept]> (heap w);
               emitted := emitted w |})
  /\ (forall c, c ∈ kept <-> c ∈ clusters p /\ tag c <> t)
  /\ kept `sublist_of` clusters p
  /\ delete_clusters self None false w
     = (Raise (AssertionError "Must provide a valid tag"), w)
  /\ (forall otag,
        delete_clusters self otag true w
        = (Ok tt, {| heap := <[self := with_clusters p []]> (heap w);
                     emitted := emitted w |}))
  /\ (forall c, tag c = t -> (cluster_id c, tag c) ∉ cluster_keys kept)
  /\ (forall c, tag c = t -> kept = clusters p ->
        (add_cluster self c ≫= (fun _ => delete_clusters self (Some t) false)) w
        = (Ok tt, w)).
Proof.
  intros Hp kept.
  assert (Hkept : forall c, c ∈ kept <-> c ∈ clusters p /\ tag c <> t).
  { intros c. unfold kept. rewrite !list_elem_of_In, filter_In.
    rewrite Bool.negb_true_iff, String.eqb_neq. reflexivity. }
  assert (Hkeys : forall c, tag c = t -> (cluster_id c, tag c) ∉ cluster_keys kept).
  { intros c Hc Hin. unfold cluster_keys in Hin.
    apply list_elem_of_fmap in Hin as (x & Hx & Hin).
    apply Hkept in Hin as [_ Hne]. injection Hx as _ Htag. congruence. }
  split; [|split; [|split; [|split; [|split; [|split]]]]].
  - unfold delete_clusters, mbind, M_bind, bind, mret, M_ret, ret, py_assert,
      update. cbn. rewrite Hp. reflexivity.
  - exact Hkept.
  - unfold kept. clear. induction (clusters p) as [|x cs IH]; simpl.
    + constructor.
    + destruct (negb (tag x =? t)%string); [apply sublist_skip|apply sublist_cons];
        exact IH.
  - reflexivity.
  - intros otag. unfold delete_clusters. unfold update. rewrite Hp. reflexivity.
  - exact Hkeys.
  - intros c Hc Hsame.
    assert (Hnin : (cluster_id c, tag c) ∉ cluster_keys (clusters p))
      by (rewrite <- Hsame; apply Hkeys; exact Hc).
    assert (Hex : existsb (same_id_and_tag c) (clusters p) = false).
    { destruct (existsb _ _) eqn:E; [|reflexivity].
      apply existsb_same_id_and_tag in E. contradiction. }
    unfold add_cluster, delete_clusters.
    unfold mbind, M_bind, bind, mret, M_ret, ret, deref, update, py_assert.
    cbn. rewrite Hp, Hex. cbn. rewrite Hp. cbn.
    rewrite list_lookup_insert_eq by (apply (lookup_lt_Some _ _ _ Hp)).
    rewrite list_insert_insert_eq. cbn.
    rewrite List.filter_app. cbn. rewrite Hc, String.eqb_refl. cbn.
    rewrite app_nil_r. fold kept. rewrite Hsame.
    replace (with_clusters (with_clusters p (clusters p ++ [c])) (clusters p))
      with p by (destruct p; reflexivity).
    rewrite list_insert_id by exact Hp. destruct w. reflexivity.
Qed.

Lemma delete_clusters_by_tag_witness :
  (add_cluster 0 cluster_k ≫= (fun _ => delete_clusters 0 (Some "kmeans") false))
    (world_of [P1])
  = (Ok tt, world_of [P1])
  /\ delete_clusters 0 (Some "kmeans") false (world_of [P1c])
     = (Ok tt, world_of [P1]).
Proof.
  split.
  - destruct (delete_clusters_by_tag 0 "kmeans" (world_of [P1]) P1 eq_refl)
      as (_ & _ & _ & _ & _ & _ & Hround).
    apply (Hround cluster_k); reflexivity.
  - destruct (delete_clusters_by_tag 0 "kmeans" (world_of [P1c]) P1c eq_refl)
      as (E & _).
    exact E.
Defined.

End PopulationsExtra.

(** ** Further properties of [utilities.py] *)

Module UtilitiesExtra.
Import Utilities Examples UtilitiesSpec.

(** *** The bandwidth *)

(** The cross-validated search is over 30 bandwidths: when no range is given,
    from the 5th to the 95th percentile of all the values of the table, both
    ends included as they are, so a percentile that is zero or negative is
    itself a candidate; when a range is given, from its first to its second
    entry, the table not being looked at; a range of fewer than two entries
    fails on the missing entry. *)
Theorem bandwidth_candidates (x : Table) (q05 q95 : Q) :
  np_quantile x (5 # 100) = Ok q05 ->
  np_quantile x (95 # 100) = Ok q95 ->
  bandwidth_grid x None = Ok (np_linspace q05 q95 30)
  /\ length (np_linspace q05 q95 30) = 30%nat
  /\ (nth 0 (np_linspace q05 q95 30) 0 == q05)%Q
  /\ (nth 29 (np_linspace q05 q95 30) 0 == q95)%Q
  /\ (forall lo hi rest,
        bandwidth_grid x (Some (lo :: hi :: rest)) = Ok (np_linspace lo hi 30))
  /\ (forall lo,
        bandwidth_grid x (Some [lo])
        = Raise (IndexError "list index out of range"))
  /\ bandwidth_grid x (Some []) = Raise (IndexError "list index out of range").
Proof.
  intros H05 H95.
  split.
  { unfold bandwidth_grid, default_bandwidth_search. rewrite H05, H95. reflexivity. }
  split; [apply length_np_linspace|].
  destruct (np_linspace_ends q05 q95 30 ltac:(lia)) as [Hfirst Hlast].
  split; [exact Hfirst|]. split; [exact Hlast|].
  repeat split; intros; reflexivity.
Qed.

Lemma bandwidth_candidates_witness :
  bandwidth_grid two_scales None
  = Ok (np_linspace (15 # 100) (1850 # 100) 30).
Proof.
  destruct (bandwidth_candidates two_scales (15 # 100) (1850 # 100)) as [E _].
  - vm_compute. reflexivity.
  - vm_compute. reflexivity.
  - exact E.
Defined.

(** *** Where the density is evaluated *)

(** Without a grid the density is evaluated at the rows of the table itself:
    a call that returns gives one value per row, whatever the bandwidth. *)
Theorem density_at_sample_rows {SK : Sklearn} {NM : NumpyMath}
    (x : Table) (bw : Bandwidth) (bs : option (list Q)) (kw : dict string)
    (out : list Q) :
  kde_multivariant x bw bs None kw = Ok out ->
  length out = length (rows x)
  /\ exists b kde log_pdf,
       fit kw b x = Ok kde
       /\ score_samples kde (rows x) = Ok log_pdf
       /\ out = map np_exp log_pdf.
Proof.
  unfold kde_multivariant. intros E.
  apply result_bind_Ok_inv in E as (b & _ & E).
  apply result_bind_Ok_inv in E as (kde & Hfit & E).
  apply result_bind_Ok_inv in E as (log_pdf & Hscore & E).
  injection E as <-. split.
  - rewrite length_map. apply (score_samples_length _ _ _ Hscore).
  - exists b, kde, log_pdf. auto.
Qed.

Lemma density_at_sample_rows_witness :
  length (match kde_multivariant (H := lenient_sklearn) (H0 := coarse_math)
                  two_scales (BwFloat 1) None None [] with
          | Ok out => out
          | Raise _ => []
          end) = 2%nat.
Proof.
  destruct (kde_multivariant (H := lenient_sklearn) (H0 := coarse_math)
              two_scales (BwFloat 1) None None []) as [out|e] eqn:E.
  - destruct (density_at_sample_rows (SK := lenient_sklearn) (NM := coarse_math)
                two_scales (BwFloat 1) None [] out E) as [Hlen _].
    exact Hlen.
  - discriminate E.
Defined.

(** With a grid, every point the density is evaluated at has all its
    coordinates equal: the points lie on the diagonal from (min, ..., min) to
    (max, ..., max), and there are as many as the grid has steps. *)
Theorem grid_points_lie_on_the_diagonal (x : Table) (num : nat) (a : Q)
    (l : list Q) :
  flat x = a :: l ->
  (1 <= shape1 x)%nat ->
  exists cols,
    x_grid x num = Ok cols
    /\ length (transpose cols) = num
    /\ forall i point,
         transpose cols !! i = Some point ->
         point = repeat (nth i (np_linspace (fold_left qmin l a)
                                            (fold_left qmax l a) num) 0%Q)
                        (shape1 x).
Proof.
  intros Hflat Hd.
  set (col := np_linspace (fold_left qmin l a) (fold_left qmax l a) num).
  exists (repeat col (shape1 x)).
  assert (Hgrid : x_grid x num = Ok (repeat col (shape1 x))).
  { apply x_grid_columns_repeat.
    - unfold np_amin. rewrite Hflat. reflexivity.
    - unfold np_amax. rewrite Hflat. reflexivity. }
  split; [exact Hgrid|]. split.
  - rewrite length_transpose_repeat by exact Hd. apply length_np_linspace.
  - intros i point Hpoint.
    destruct (shape1 x) as [|d]; [lia|].
    change (transpose (repeat col (Datatypes.S d)))
      with (map (fun i0 => map (fun c => nth i0 c 0%Q) (repeat col (Datatypes.S d)))
                (seq 0 (length col))) in Hpoint.
    rewrite list_lookup_fmap in Hpoint.
    destruct (seq 0 (length col) !! i) as [j|] eqn:Hj; [|discriminate].
    apply lookup_seq in Hj as [-> _]. simpl in Hpoint.
    injection Hpoint as <-. simpl. f_equal. apply map_repeat.
Qed.

Lemma grid_points_lie_on_the_diagonal_witness :
  exists cols,
    x_grid two_scales 3 = Ok cols
    /\ transpose cols = [[0 # 2; 0 # 2]; [20 # 2; 20 # 2]; [40 # 2; 40 # 2]]%Q.
Proof.
  destruct (grid_points_lie_on_the_diagonal two_scales 3 0%Q [10; 1; 20]%Q
              eq_refl ltac:(simpl; lia)) as (cols & Hgrid & _).
  exists cols. split; [exact Hgrid|].
  vm_compute in Hgrid. injection Hgrid as <-. reflexivity.
Defined.

(** *** The Hellinger distance *)

Lemma sum_of_squares_swap (f : Q -> Q) (p q : list Q) :
  (fold_right Qplus 0 (map (fun a => a * a) (zip_with (fun a b => f a - f b) p q))
   == fold_right Qplus 0 (map (fun a => a * a) (zip_with (fun a b => f a - f b) q p)))%Q.
Proof.
  revert q. induction p as [|a p IH]; intros [|b q]; simpl; try reflexivity.
  rewrite IH. ring.
Qed.

Lemma sum_of_squares_same (f : Q -> Q) (p : list Q) :
  (fold_right Qplus 0 (map (fun a => a * a) (zip_with (fun a b => f a - f b) p p))
   == 0)%Q.
Proof.
  induction p as [|a p IH]; simpl; [reflexivity|].
  rewrite IH. ring.
Qed.

(** On two densities of one length the Hellinger distance returns, and does
    not depend on which density is given first; of a density from itself it
    is the square root of zero.  (The square root is taken to give equal
    results on equal numbers.)  Two densities of different lengths, neither
    of length one, are refused. *)
Theorem hellinger_is_symmetric {NM : NumpyMath} (p q : list Q) :
  (forall a b : Q, (a == b)%Q -> (np_sqrt a == np_sqrt b)%Q) ->
  (length p = length q ->
   exists d d',
     hellinger_dot p q = Ok d /\ hellinger_dot q p = Ok d' /\ (d == d')%Q)
  /\ (exists d0, hellinger_dot p p = Ok d0 /\ (d0 == np_sqrt 0)%Q)
  /\ (length p <> length q -> length p <> 1%nat -> length q <> 1%nat ->
      hellinger_dot p q
      = Raise (ValueError "operands could not be broadcast together")).
Proof.
  intros Hsqrt. split; [|split].
  - intros Hlen. unfold hellinger_dot, broadcast2.
    rewrite Hlen, Nat.eqb_refl. simpl.
    eexists _, _. split; [reflexivity|]. split; [reflexivity|].
    apply Hsqrt. rewrite (sum_of_squares_swap np_sqrt p q). reflexivity.
  - unfold hellinger_dot, broadcast2. rewrite Nat.eqb_refl. simpl.
    eexists. split; [reflexivity|].
    apply Hsqrt. rewrite (sum_of_squares_same np_sqrt p). reflexivity.
  - intros Hne Hp Hq. apply Nat.eqb_neq in Hne.
    unfold hellinger_dot, broadcast2. rewrite Hne.
    destruct p as [|a [|a' p]], q as [|b [|b' q]]; simpl in *;
      try reflexivity; try contradiction; try discriminate.
Qed.

Lemma hellinger_is_symmetric_witness :
  exists d d',
    hellinger_dot (H0 := coarse_math) [1 # 4; 3 # 4]%Q [1 # 2; 1 # 2]%Q = Ok d
    /\ hellinger_dot (H0 := coarse_math) [1 # 2; 1 # 2]%Q [1 # 4; 3 # 4]%Q = Ok d'
    /\ (d == d')%Q.
Proof.
  destruct (hellinger_is_symmetric (NM := coarse_math)
              [1 # 4; 3 # 4]%Q [1 # 2; 1 # 2]%Q) as [Hsym _].
  - intros a b Hab. exact Hab.
  - apply Hsym. reflexivity.
Defined.

End UtilitiesExtra.

(** ** Further properties of [batch_effects.py] *)

Module BatchEffectsExtra.
Import Utilities BatchEffects Examples BatchEffectsSpec.

(** *** Running a query step by step *)

Lemma B_bind_Ok {A C} (m : B A) (k : A -> B C) (w w1 : world) (a : A) :
  m w = (Ok a, w1) -> (m ≫= k) w = k a w1.
Proof. intros E. rewrite B_bind_run, E. reflexivity. Qed.

Lemma B_bind_Raise {A C} (m : B A) (k : A -> B C) (w w1 : world) (e : exn) :
  m w = (Raise e, w1) -> (m ≫= k) w = (Raise e, w1).
Proof. intros E. rewrite B_bind_run, E. reflexivity. Qed.

Lemma B_bind_Ok_inv {A C} (m : B A) (k : A -> B C) (w w' : world) (c : C) :
  (m ≫= k) w = (Ok c, w') ->
  exists a w1, m w = (Ok a, w1) /\ k a w1 = (Ok c, w').
Proof.
  rewrite B_bind_run. destruct (m w) as [[a|e] w1]; [eauto | discriminate].
Qed.

Lemma optional_print_run (b : bool) (msg : string) (w : world) :
  exists w', (if b then print msg else mret tt) w = (Ok tt, w')
             /\ self w' = self w /\ estimated w' = estimated w.
Proof. destruct b; eexists; (split; [reflexivity|]); simpl; auto. Qed.

Lemma optional_print_Ok_inv (b : bool) (msg : string) (w w' : world) (u : unit) :
  (if b then print msg else mret tt) w = (Ok u, w') ->
  self w' = self w /\ estimated w' = estimated w.
Proof. destruct b; intros E; injection E as _ <-; simpl; auto. Qed.

Lemma with_kde_cache_same (s : EvaluateBatchEffects) :
  with_kde_cache s (kde_cache s) = s.
Proof. destruct s; reflexivity. Qed.

Lemma mapM_traverse {A C} (f : A -> B C) (g : A -> result C) (l : list A) :
  (forall a w, f a w = (g a, w)) ->
  forall w, mapM f l w = (traverse g l, w).
Proof.
  intros Hf. induction l as [|a l IH]; intros w; simpl; [reflexivity|].
  rewrite B_bind_run, Hf. destruct (g a) as [c|e]; simpl; [|reflexivity].
  rewrite B_bind_run, IH. destruct (traverse g l); reflexivity.
Qed.

Lemma traverse_Forall2 {A C} (g : A -> result C) (l : list A) (out : list C) :
  Forall2 (fun o a => g a = Ok o) out l -> traverse g l = Ok out.
Proof.
  induction 1 as [|o a out' l' Hoa _ IH]; simpl; [reflexivity|].
  rewrite Hoa. simpl. rewrite IH. reflexivity.
Qed.

(** The list comprehension a query ends with changes nothing. *)
Lemma report_run {NM : NumpyMath} {SC : Scipy} (m t : string)
    (s : EvaluateBatchEffects) (w : world) :
  (if String.eqb m "jsd" then
     mapM (fun named_q =>
             p ← dict_item (kde_cache s) t;
             d ← jsd_divergence p (snd named_q);
             ret (fst named_q, d)) (kde_cache s)
   else if String.eqb m "kl" then
     mapM (fun named_q =>
             p ← dict_item (kde_cache s) t;
             d ← kl_divergence p (snd named_q);
             ret (fst named_q, d)) (kde_cache s)
   else
     mapM (fun named_q =>
             p ← dict_item (kde_cache s) t;
             d ← lift (hellinger_dot p (snd named_q));
             ret (fst named_q, Finite d)) (kde_cache s)) w
  = (traverse (reported_pair m (kde_cache s) t) (kde_cache s), w).
Proof.
  destruct (String.eqb m "jsd") eqn:Ejsd;
    [|destruct (String.eqb m "kl") eqn:Ekl];
    apply mapM_traverse; intros named_q w1;
    unfold reported_pair, divergence_value; rewrite Ejsd, ?Ekl;
    rewrite B_bind_run; unfold dict_item;
    (destruct (dict_get (kde_cache s) t) as [p|]; [|reflexivity]);
    cbn [mret B_ret ret]; rewrite B_bind_run.
  - rewrite jsd_divergence_run. destruct (jsd p (snd named_q)); reflexivity.
  - unfold kl_divergence. rewrite B_bind_run. unfold lift.
    destruct (kl p (snd named_q)); reflexivity.
  - unfold lift. destruct (hellinger_dot p (snd named_q)); reflexivity.
Qed.

(** *** What a query does to the object *)

Lemma store_all_app (c : dict (list Q)) (l1 l2 : list (string * list Q)) :
  store_all c (l1 ++ l2) = store_all (store_all c l1) l2.
Proof. unfold store_all. apply fold_left_app. Qed.

Lemma dict_mem_set_iff {V} (d : dict V) (k k' : string) (v : V) :
  dict_mem (dict_set d k' v) k = dict_mem d k || String.eqb k k'.
Proof.
  unfold dict_mem. destruct (String.eqb k k') eqn:E.
  - apply String.eqb_eq in E. subst k'. rewrite dict_get_set_eq.
    rewrite orb_true_r. reflexivity.
  - apply String.eqb_neq in E. rewrite dict_get_set_ne by exact E.
    rewrite orb_false_r. reflexivity.
Qed.

Lemma dict_mem_store_all (c : dict (list Q)) (l : list (string * list Q))
    (k : string) :
  dict_mem (store_all c l) k = true
  <-> dict_mem c k = true \/ k ∈ map fst l.
Proof.
  revert c. induction l as [|[k' q] l IH]; intros c; simpl.
  - split; [auto|]. intros [H|H]; [exact H | inversion H].
  - rewrite IH, dict_mem_set_iff, orb_true_iff, elem_of_cons, String.eqb_eq.
    tauto.
Qed.

Lemma forM_store_run (q_ : list (string * list Q)) (w : world) :
  forM_ (fun named_q => cache_store (fst named_q) (snd named_q)) q_ w
  = (Ok tt,
     {| self := with_kde_cache (self w) (store_all (kde_cache (self w)) q_);
        stdout := stdout w; estimated := estimated w |}).
Proof.
  revert w. induction q_ as [|[k q] q_ IH]; intros w; simpl.
  - rewrite with_kde_cache_same. destruct w; reflexivity.
  - rewrite B_bind_run. cbn [cache_store]. unfold cache_store at 1.
    rewrite B_bind_run. cbn [get_self set_self]. rewrite IH. reflexivity.
Qed.

Lemma mapM_indexed_kde_inv {SK : Sklearn} {NM : NumpyMath} (kernel : string)
    (l : list (string * Table)) (w w' : world) (q_ : list (string * list Q)) :
  mapM (indexed_kde kernel) l w = (Ok q_, w') ->
  self w' = self w
  /\ estimated w' = estimated w ++ map fst l
  /\ map fst q_ = map fst l
  /\ Forall (fun named_q =>
               exists x, (fst named_q, x) ∈ l
                         /\ kde_multivariant x (BwStr "cross_val") None
                              (Some 1000%nat) [("kernel", kernel)]
                            = Ok (snd named_q)) q_.
Proof.
  revert w q_. induction l as [|[name x] l IH]; intros w q_ E; simpl in E.
  - injection E as <- <-. rewrite app_nil_r. repeat split. constructor.
  - apply B_bind_Ok_inv in E as (c & w1 & Ec & E).
    apply B_bind_Ok_inv in E as (cs & w2 & Ecs & E).
    injection E as <- <-.
    unfold indexed_kde in Ec. apply B_bind_Ok_inv in Ec as (q & w0 & Eq & Ec).
    injection Ec as <- <-. unfold estimate_density in Eq. simpl in Eq.
    injection Eq as Eq <-.
    destruct (IH _ _ Ecs) as (Hs & He & Hn & Hd). simpl in *.
    split; [exact Hs|]. split; [rewrite He, <- app_assoc; reflexivity|].
    split; [rewrite Hn; reflexivity|].
    constructor.
    + exists x. split; [left | exact Eq].
    + eapply Forall_impl; [exact Hd|]. intros nq (x' & Hin & Hx').
      exists x'. split; [right; exact Hin | exact Hx'].
Qed.

Lemma map_fst_filter {V} (P : string * V -> bool) (P' : string -> bool)
    (l : list (string * V)) :
  (forall x, x ∈ l -> P x = P' (fst x)) ->
  map fst (filter (fun x => P x) l) = filter (fun k => P' k) (map fst l).
Proof.
  induction l as [|x l IH]; intros HP; [reflexivity|].
  rewrite filter_cons. simpl map at 2. rewrite filter_cons.
  rewrite <- (HP x) by left.
  assert (IH' := IH (fun y Hy => HP y (list_elem_of_further _ _ _ Hy))).
  destruct (P x); simpl.
  - destruct (decide (Is_true true)) as [_|n]; [|exfalso; apply n; exact I].
    simpl. rewrite IH'. reflexivity.
  - destruct (decide (Is_true false)) as [f|_]; [destruct f|]. exact IH'.
Qed.

Lemma target_step_inv {SK : Sklearn} {NM : NumpyMath} (t kernel : string)
    (s : EvaluateBatchEffects) (w w' : world) (u : unit) :
  (if negb (str_in t (dict_keys (kde_cache s)))
   then
     target ← dict_item (data s) t;
     q ← estimate_density t target kernel;
     cache_store t q
   else mret tt) w = (Ok u, w') ->
  s = self w ->
  exists newT,
    map fst newT = (if dict_mem (kde_cache s) t then [] else [t])
    /\ Forall (density_of s kernel) newT
    /\ self w' = with_kde_cache s (store_all (kde_cache s) newT)
    /\ estimated w' = estimated w ++ map fst newT.
Proof.
  intros E ->. rewrite str_in_keys in E.
  destruct (dict_mem (kde_cache (self w)) t) eqn:Hmem; cbn [negb] in E.
  - injection E as _ <-. exists []. simpl.
    rewrite with_kde_cache_same, app_nil_r. repeat split. constructor.
  - apply B_bind_Ok_inv in E as (target & w1 & E1 & E).
    apply B_bind_Ok_inv in E as (q & w2 & E2 & E).
    unfold dict_item in E1.
    destruct (dict_get (data (self w)) t) as [x|] eqn:Hx; [|discriminate].
    injection E1 as <- <-. unfold estimate_density in E2. injection E2 as E2 <-.
    injection E as _ <-. exists [(t, q)]. simpl.
    split; [reflexivity|]. split; [|split; reflexivity].
    constructor; [|constructor]. exists x. split; [|exact E2]. simpl.
    clear -Hx. induction (data (self w)) as [|[k0 v0] d IH]; [discriminate|].
    simpl in Hx. destruct (String.eqb k0 t) eqn:E0.
    + apply String.eqb_eq in E0. injection Hx as <-. subst k0. left.
    + right. apply IH, Hx.
Qed.

Lemma elem_of_to_estimate (s : EvaluateBatchEffects) (t : string)
    (cs : list string) (id : string) :
  id ∈ to_estimate s t cs
  <-> dict_mem (kde_cache s) id = false
      /\ (id = t \/ (str_in id cs = true /\ id ∈ dict_keys (data s))).
Proof.
  unfold to_estimate. rewrite elem_of_app, list_elem_of_filter.
  rewrite !andb_True, !negb_True, Is_true_true.
  split.
  - intros [Ht|[[[Hcs Hc] Hne] Hd]].
    + destruct (dict_mem (kde_cache s) t) eqn:Hm; [inversion Ht|].
      apply list_elem_of_singleton in Ht. subst id. auto.
    + split; [|right; auto].
      destruct (dict_mem (kde_cache s) id); [destruct Hc; exact I | reflexivity].
  - intros [Hm [->|[Hcs Hd]]].
    + left. rewrite Hm. left.
    + destruct (String.eqb id t) eqn:Eid.
      * apply String.eqb_eq in Eid. subst id. left. rewrite Hm. left.
      * right. rewrite Hm. repeat split; auto.
Qed.

Lemma samples_df_names (s0 : EvaluateBatchEffects) (t : string)
    (cs : list string) (newT : list (string * list Q)) :
  map fst newT = (if dict_mem (kde_cache s0) t then [] else [t]) ->
  map fst (samples_df (with_kde_cache s0 (store_all (kde_cache s0) newT)) cs)
  = filter (fun k => str_in k cs
                     && negb (dict_mem (kde_cache s0) k)
                     && negb (String.eqb k t))
           (dict_keys (data s0)).
Proof.
  intros HT. unfold samples_df, dict_keys. simpl.
  apply (map_fst_filter
           (fun named => str_in (fst named) cs
                         && negb (str_in (fst named)
                                    (map fst (store_all (kde_cache s0) newT))))
           (fun k => str_in k cs && negb (dict_mem (kde_cache s0) k)
                     && negb (String.eqb k t))).
  intros [k x] _. simpl. rewrite <- andb_assoc. f_equal.
  change (map fst (store_all (kde_cache s0) newT))
    with (dict_keys (store_all (kde_cache s0) newT)).
  rewrite str_in_keys.
  destruct (dict_mem (kde_cache s0) t) eqn:Hm.
  - destruct newT; [|discriminate]. simpl.
    destruct (String.eqb k t) eqn:Ek.
    + apply String.eqb_eq in Ek. subst k. rewrite Hm. reflexivity.
    + rewrite andb_true_r. reflexivity.
  - destruct newT as [|[k1 q1] [|? ?]]; try discriminate.
    injection HT as ->. simpl. rewrite dict_mem_set_iff, negb_orb. reflexivity.
Qed.

Lemma calc_divergence_Ok_inv {SK : Sklearn} {NM : NumpyMath} {SC : Scipy}
    (w w' : world) (target_id : string) (comparisons : list string)
    (kde_kernel divergence_method : string) (verbose : bool)
    (out : list (string * float)) :
  calc_divergence target_id comparisons kde_kernel divergence_method verbose w
  = (Ok out, w') ->
  str_in divergence_method ["jsd"; "kl"; "hellinger"] = true
  /\ (exists new,
        map fst new = to_estimate (self w) target_id comparisons
        /\ Forall (density_of (self w) kde_kernel) new
        /\ self w' = with_kde_cache (self w) (store_all (cache_of w) new))
  /\ estimated w' = estimated w ++ to_estimate (self w) target_id comparisons.
Proof.
  intros E. unfold calc_divergence in E.
  apply B_bind_Ok_inv in E as (u1 & w1 & E1 & E).
  assert (str_in divergence_method ["jsd"; "kl"; "hellinger"] = true /\ w1 = w)
    as [Hm ->].
  { unfold py_assert, lift, Utilities.py_assert in E1.
    destruct (str_in divergence_method ["jsd"; "kl"; "hellinger"]);
      [|discriminate].
    injection E1 as _ <-. auto. }
  clear E1.
  apply B_bind_Ok_inv in E as (u2 & w2 & E2 & E).
  apply optional_print_Ok_inv in E2 as [Hs2 He2].
  apply B_bind_Ok_inv in E as (u3 & w3 & E3 & E).
  apply optional_print_Ok_inv in E3 as [Hs3 He3].
  apply B_bind_Ok_inv in E as (s & w4 & E4 & E).
  injection E4 as <- <-.
  apply B_bind_Ok_inv in E as (u5 & w5 & E5 & E).
  apply target_step_inv in E5 as (newT & HT & HdT & Hs5 & He5); [|reflexivity].
  apply B_bind_Ok_inv in E as (u6 & w6 & E6 & E).
  apply optional_print_Ok_inv in E6 as [Hs6 He6].
  apply B_bind_Ok_inv in E as (s1 & w7 & E7 & E).
  injection E7 as <- <-.
  apply B_bind_Ok_inv in E as (q_ & w8 & E8 & E).
  apply mapM_indexed_kde_inv in E8 as (Hs8 & He8 & Hn8 & Hd8).
  apply B_bind_Ok_inv in E as (u9 & w9 & E9 & E).
  rewrite forM_store_run in E9. injection E9 as _ <-.
  apply B_bind_Ok_inv in E as (s2 & w10 & E10 & E).
  injection E10 as <- <-.
  rewrite report_run in E. injection E as _ <-. simpl.
  rewrite Hs3, Hs2 in Hs5. rewrite Hs3, Hs2 in HT. rewrite Hs3, Hs2 in HdT.
  rewrite He3, He2 in He5. rewrite Hs5 in Hs6.
  rewrite Hs6 in Hs8, He8, Hn8, Hd8.
  rewrite (samples_df_names (self w) target_id comparisons newT HT) in He8, Hn8.
  split; [exact Hm|]. split.
  - exists (newT ++ q_). split; [|split].
    + rewrite map_app, HT, Hn8. reflexivity.
    + apply Forall_app. split; [exact HdT|].
      eapply Forall_impl; [exact Hd8|]. intros nq (x & Hin & Hx).
      exists x. split; [|exact Hx].
      unfold samples_df in Hin. apply list_elem_of_filter in Hin as [_ Hin].
      exact Hin.
    + rewrite Hs8. unfold cache_of. simpl. rewrite store_all_app. reflexivity.
  - rewrite He8, He6, He5, HT. unfold to_estimate. rewrite app_assoc.
    reflexivity.
Qed.

(** What a query that returns has done to the object: it has estimated a
    density for the target if the cache lacked it, then for the tables asked
    for in [comparisons] that the cache lacked, each from its table in
    [self.data] and in that order; it has stored these densities in the cache
    under their ids and changed nothing else of the object. *)
Theorem calc_divergence_effect {SK : Sklearn} {NM : NumpyMath} {SC : Scipy}
    (w w' : world) (target_id : string) (comparisons : list string)
    (kde_kernel divergence_method : string) (verbose : bool)
    (out : list (string * float)) :
  calc_divergence target_id comparisons kde_kernel divergence_method verbose w
  = (Ok out, w') ->
  (exists new,
     map fst new = to_estimate (self w) target_id comparisons
     /\ Forall (density_of (self w) kde_kernel) new
     /\ self w' = with_kde_cache (self w) (store_all (cache_of w) new))
  /\ estimated w' = estimated w ++ to_estimate (self w) target_id comparisons
  /\ (forall id,
        id ∈ to_estimate (self w) target_id comparisons
        <-> dict_mem (cache_of w) id = false
            /\ (id = target_id
                \/ (str_in id comparisons = true
                    /\ id ∈ dict_keys (data (self w))))).
Proof.
  intros E. apply calc_divergence_Ok_inv in E as (_ & Hnew & He).
  split; [exact Hnew|]. split; [exact He|].
  intros id. apply elem_of_to_estimate.
Qed.

(** From the object that has the density of "c": the query for "a" against
    "b" and "c" estimates "a" and then "b", and nothing for "c". *)
Lemma calc_divergence_effect_witness :
  let run :=
    calc_divergence (H := lenient_sklearn) (H0 := coarse_math)
      (H1 := constant_scipy (Finite (1 # 4)))
      "a" ["b"; "c"] "gaussian" "jsd" false session_world in
  estimated (snd run) = ["a"; "b"]
  /\ to_estimate session "a" ["b"; "c"] = ["a"; "b"].
Proof.
  intros run.
  assert (E : run = (Ok [("c", Finite (1 # 4)); ("a", Finite (1 # 4));
                         ("b", Finite (1 # 4))], snd run))
    by (vm_compute; reflexivity).
  destruct (calc_divergence_effect (SK := lenient_sklearn) (NM := coarse_math)
              (SC := constant_scipy (Finite (1 # 4)))
              session_world (snd run) "a" ["b"; "c"] "gaussian" "jsd" false _ E)
    as (_ & He & _).
  split; [exact He | reflexivity].
Defined.

(** *** Queries the cache already answers *)

Lemma samples_df_nil (s : EvaluateBatchEffects) (cs : list string) :
  (forall id, str_in id cs = true -> id ∈ dict_keys (data s) ->
              dict_mem (kde_cache s) id = true) ->
  samples_df s cs = [].
Proof.
  intros Hcov. apply elem_of_nil_inv. intros named Hin.
  unfold samples_df in Hin. apply list_elem_of_filter in Hin as [HP Hin].
  apply andb_True in HP as [Hcs Hc]. apply negb_True in Hc.
  apply Hc. rewrite str_in_keys. apply Is_true_true.
  apply Hcov; [apply Is_true_true, Hcs|].
  unfold dict_keys. apply list_elem_of_fmap_2. exact Hin.
Qed.

Lemma calc_divergence_cached_run {SK : Sklearn} {NM : NumpyMath} {SC : Scipy}
    (w : world) (t : string) (cs : list string) (k m : string) (v : bool) :
  str_in m ["jsd"; "kl"; "hellinger"] = true ->
  dict_mem (cache_of w) t = true ->
  (forall id, str_in id cs = true -> id ∈ dict_keys (data (self w)) ->
              dict_mem (cache_of w) id = true) ->
  exists w',
    calc_divergence t cs k m v w
    = (traverse (reported_pair m (cache_of w) t) (cache_of w), w')
    /\ self w' = self w /\ estimated w' = estimated w
    /\ (v = false -> w' = w).
Proof.
  intros Hm Ht Hcov. unfold calc_divergence.
  assert (E0 : py_assert (str_in m ["jsd"; "kl"; "hellinger"]) msg_method w
               = (Ok tt, w)).
  { unfold py_assert, lift, Utilities.py_assert. rewrite Hm. reflexivity. }
  rewrite (B_bind_Ok _ _ _ _ _ E0).
  destruct (optional_print_run (v && String.eqb m "kl") msg_kl_warning w)
    as (w1 & E1 & Hs1 & He1).
  rewrite (B_bind_Ok _ _ _ _ _ E1).
  destruct (optional_print_run v "Calculating PDF for target..." w1)
    as (w2 & E2 & Hs2 & He2).
  rewrite (B_bind_Ok _ _ _ _ _ E2).
  rewrite (B_bind_Ok get_self _ w2 w2 (self w2) eq_refl).
  rewrite str_in_keys, Hs2, Hs1. unfold cache_of in Ht. rewrite Ht. cbn [negb].
  rewrite (B_bind_Ok _ _ w2 w2 tt eq_refl).
  destruct (optional_print_run v
              ("Calculate PDF for all other samples and calculate F-divergence metric: "
                 ++ m ++ "...") w2)
    as (w3 & E3 & Hs3 & He3).
  rewrite (B_bind_Ok _ _ _ _ _ E3).
  rewrite (B_bind_Ok get_self _ w3 w3 (self w3) eq_refl).
  rewrite Hs3, Hs2, Hs1.
  rewrite (samples_df_nil (self w) cs Hcov).
  rewrite (B_bind_Ok (mapM _ []) _ w3 w3 [] eq_refl).
  rewrite (B_bind_Ok (forM_ _ []) _ w3 w3 tt eq_refl).
  rewrite (B_bind_Ok get_self _ w3 w3 (self w3) eq_refl).
  rewrite report_run, Hs3, Hs2, Hs1.
  exists w3. split; [reflexivity|]. split; [congruence|].
  split; [congruence|].
  intros ->. simpl in E1, E2, E3.
  injection E1 as <-. injection E2 as <-. injection E3 as <-. reflexivity.
Qed.

(** A query the cache already answers touches nothing: when the cache has the
    density of the target and of every table asked for in [comparisons], the
    query estimates no density and leaves the object as it is; what it
    returns is computed from the cache alone, whatever the kernel.  Without
    the progress messages the state is wholly the one of the call. *)
Theorem cached_query_estimates_nothing
    {SK : Sklearn} {NM : NumpyMath} {SC : Scipy}
    (w : world) (target_id : string) (comparisons : list string)
    (kde_kernel divergence_method : string) (verbose : bool) :
  str_in divergence_method ["jsd"; "kl"; "hellinger"] = true ->
  dict_mem (cache_of w) target_id = true ->
  (forall id, str_in id comparisons = true ->
              id ∈ dict_keys (data (self w)) ->
              dict_mem (cache_of w) id = true) ->
  exists w',
    calc_divergence target_id comparisons kde_kernel divergence_method verbose w
    = (traverse (reported_pair divergence_method (cache_of w) target_id)
                (cache_of w), w')
    /\ self w' = self w /\ estimated w' = estimated w
    /\ (verbose = false -> w' = w).
Proof. apply calc_divergence_cached_run. Qed.

(** The target "c" is cached and no comparison is asked for: the one pair of
    the cache comes back and nothing is estimated. *)
Lemma cached_query_estimates_nothing_witness :
  exists w',
    calc_divergence (H := lenient_sklearn) (H0 := coarse_math)
      (H1 := constant_scipy (Finite (1 # 4)))
      "c" [] "gaussian" "kl" true session_world
    = (Ok [("c", Finite (1 # 4))], w')
    /\ self w' = session /\ estimated w' = [].
Proof.
  destruct (cached_query_estimates_nothing (SK := lenient_sklearn)
              (NM := coarse_math) (SC := constant_scipy (Finite (1 # 4)))
              session_world "c" [] "gaussian" "kl" true)
    as (w' & E & Hs & He & _).
  - reflexivity.
  - reflexivity.
  - intros id Hid. discriminate Hid.
  - exists w'. split; [exact E|]. split; [exact Hs | exact He].
Defined.

(** Asking again costs nothing: after a query that returned, the same query,
    under any kernel and with or without the progress messages, returns the
    same list, estimates nothing and leaves the object as it is.  The cache
    goes by id alone, so a density estimated under one kernel answers the
    queries made under another. *)
Theorem repeated_query_is_answered_from_the_cache
    {SK : Sklearn} {NM : NumpyMath} {SC : Scipy}
    (w w1 : world) (target_id : string) (comparisons : list string)
    (kde_kernel divergence_method : string) (verbose : bool)
    (out : list (string * float)) :
  calc_divergence target_id comparisons kde_kernel divergence_method verbose w
  = (Ok out, w1) ->
  forall (kde_kernel' : string) (verbose' : bool),
  exists w2,
    calc_divergence target_id comparisons kde_kernel' divergence_method
      verbose' w1
    = (Ok out, w2)
    /\ self w2 = self w1 /\ estimated w2 = estimated w1.
Proof.
  intros E kernel' verbose'.
  pose proof (calc_divergence_triple w target_id comparisons kde_kernel
                divergence_method verbose w (Ok out) w1 eq_refl E)
    as (_ & Ht & Hout).
  apply calc_divergence_Ok_inv in E as (Hm & (new & Hnew & _ & Hs) & _).
  destruct (calc_divergence_cached_run w1 target_id comparisons kernel'
              divergence_method verbose' Hm Ht) as (w2 & E2 & Hs2 & He2 & _).
  - intros id Hcs Hd. unfold cache_of. rewrite Hs in Hd |- *. simpl in *.
    apply dict_mem_store_all.
    destruct (dict_mem (cache_of w) id) eqn:Hc; [left; reflexivity|].
    right. rewrite Hnew. apply elem_of_to_estimate. auto.
  - exists w2. split; [|split; [exact Hs2 | exact He2]].
    rewrite E2. f_equal. apply traverse_Forall2. exact Hout.
Qed.

Lemma repeated_query_is_answered_from_the_cache_witness :
  let first :=
    calc_divergence (H := lenient_sklearn) (H0 := coarse_math)
      (H1 := constant_scipy (Finite (1 # 4)))
      "a" ["b"] "gaussian" "jsd" false session_world in
  exists w2,
    calc_divergence (H := lenient_sklearn) (H0 := coarse_math)
      (H1 := constant_scipy (Finite (1 # 4)))
      "a" ["b"] "tophat" "jsd" true (snd first)
    = (Ok [("c", Finite (1 # 4)); ("a", Finite (1 # 4)); ("b", Finite (1 # 4))],
       w2)
    /\ estimated w2 = ["a"; "b"].
Proof.
  intros first.
  assert (E : first = (Ok [("c", Finite (1 # 4)); ("a", Finite (1 # 4));
                           ("b", Finite (1 # 4))], snd first))
    by (vm_compute; reflexivity).
  destruct (repeated_query_is_answered_from_the_cache (SK := lenient_sklearn)
              (NM := coarse_math) (SC := constant_scipy (Finite (1 # 4)))
              session_world (snd first) "a" ["b"] "gaussian" "jsd" false _ E
              "tophat" true) as (w2 & E2 & _ & He).
  exists w2. split; [exact E2 | exact He].
Defined.

(** *** Queries that are refused *)

(** A target that has neither a cached density nor a table is a [KeyError]
    on its id, whatever is asked for in [comparisons]: no density is
    estimated, for the comparisons either, and the object is as it was. *)
Theorem unknown_target_is_a_key_error
    {SK : Sklearn} {NM : NumpyMath} {SC : Scipy}
    (w : world) (target_id : string) (comparisons : list string)
    (kde_kernel divergence_method : string) (verbose : bool) :
  str_in divergence_method ["jsd"; "kl"; "hellinger"] = true ->
  dict_mem (cache_of w) target_id = false ->
  dict_mem (data (self w)) target_id = false ->
  exists w',
    calc_divergence target_id comparisons kde_kernel divergence_method verbose w
    = (Raise (KeyError target_id), w')
    /\ self w' = self w /\ estimated w' = estimated w.
Proof.
  intros Hm Hc Hd. unfold calc_divergence.
  assert (E0 : py_assert (str_in divergence_method ["jsd"; "kl"; "hellinger"])
                 msg_method w = (Ok tt, w)).
  { unfold py_assert, lift, Utilities.py_assert. rewrite Hm. reflexivity. }
  rewrite (B_bind_Ok _ _ _ _ _ E0).
  destruct (optional_print_run (verbose && String.eqb divergence_method "kl")
              msg_kl_warning w) as (w1 & E1 & Hs1 & He1).
  rewrite (B_bind_Ok _ _ _ _ _ E1).
  destruct (optional_print_run verbose "Calculating PDF for target..." w1)
    as (w2 & E2 & Hs2 & He2).
  rewrite (B_bind_Ok _ _ _ _ _ E2).
  rewrite (B_bind_Ok get_self _ w2 w2 (self w2) eq_refl).
  rewrite str_in_keys, Hs2, Hs1. unfold cache_of in Hc. rewrite Hc. cbn [negb].
  exists w2. split; [|split; congruence].
  apply B_bind_Raise. apply B_bind_Raise.
  unfold dict_item. apply dict_mem_false in Hd. rewrite Hd. reflexivity.
Qed.

Lemma unknown_target_is_a_key_error_witness :
  exists w',
    calc_divergence (H := lenient_sklearn) (H0 := coarse_math)
      (H1 := constant_scipy (Finite (1 # 4)))
      "d" ["a"; "b"] "gaussian" "hellinger" true session_world
    = (Raise (KeyError "d"), w')
    /\ self w' = session /\ estimated w' = [].
Proof.
  apply (unknown_target_is_a_key_error (SK := lenient_sklearn)
           (NM := coarse_math) (SC := constant_scipy (Finite (1 # 4)))
           session_world "d" ["a"; "b"] "gaussian" "hellinger" true);
    reflexivity.
Defined.

(** *** The bar plot *)

Lemma valid_method_cases (m : string) :
  str_in m ["jsd"; "kl"; "hellinger"] = true ->
  m = "jsd" \/ m = "kl" \/ m = "hellinger".
Proof.
  unfold str_in. simpl. rewrite !orb_true_iff, !String.eqb_eq.
  intros [H|[H|[H|H]]]; auto. discriminate.
Qed.

Lemma fill_table_fails (m : string) (n : string) (h : float)
    (rest : list (string * float)) (w : world) :
  m = "jsd" \/ m = "kl" \/ m = "hellinger" ->
  foldM (fun hd_ n_h =>
           hd_ ← append_to hd_ "sample_id" (Name (fst n_h));
           append_to hd_ (m ++ " distance") (Distance (snd n_h)))
        ((n, h) :: rest)
        [("sample_id", []); ("hellinger_distance", [])] w
  = (Raise (KeyError (m ++ " distance")), w).
Proof. intros [->|[->| ->]]; reflexivity. Qed.

(** The bar plot never gets to draw.  Its table has the columns [sample_id]
    and [hellinger_distance], and the distances are appended to the column
    named after the method followed by [ distance]: once the query has
    returned (its list has the target at least), the first append is a
    [KeyError] on that name, for each of the three methods.  The densities
    the query estimated stay in the cache.  When the query raises, the bar
    plot raises the same. *)
Theorem divergence_barplot_never_draws
    {SK : Sklearn} {NM : NumpyMath} {SC : Scipy}
    (w : world) (target_id : string) (comparisons : list string)
    (kde_kernel divergence_method : string) (verbose : bool) :
  exists e w',
    divergence_barplot target_id comparisons kde_kernel divergence_method
      verbose w
    = (Raise e, w')
    /\ (forall out w1,
          calc_divergence target_id comparisons kde_kernel divergence_method
            verbose w = (Ok out, w1) ->
          e = KeyError (divergence_method ++ " distance")
          /\ self w' = self w1 /\ estimated w' = estimated w1)
    /\ (forall e1 w1,
          calc_divergence target_id comparisons kde_kernel divergence_method
            verbose w = (Raise e1, w1) ->
          e = e1 /\ w' = w1).
Proof.
  destruct (calc_divergence target_id comparisons kde_kernel divergence_method
              verbose w) as [[out|e1] w1] eqn:E.
  - pose proof (calc_divergence_triple w target_id comparisons kde_kernel
                  divergence_method verbose w (Ok out) w1 eq_refl E)
      as (_ & Ht & Hout).
    pose proof (calc_divergence_Ok_inv _ _ _ _ _ _ _ _ E) as (Hm & _).
    apply valid_method_cases in Hm.
    assert (Hne : out <> []).
    { intros ->. apply Forall2_nil_inv_l in Hout. rewrite Hout in Ht.
      discriminate Ht. }
    destruct out as [|[n h] rest]; [congruence|].
    destruct (optional_print_run verbose "Plotting..." w1)
      as (w2 & E2 & Hs2 & He2).
    exists (KeyError (divergence_method ++ " distance")), w2. split; [|split].
    + unfold divergence_barplot. rewrite (B_bind_Ok _ _ _ _ _ E).
      rewrite (B_bind_Ok _ _ _ _ _ E2). apply fill_table_fails. exact Hm.
    + intros out' w1' E'. injection E' as _ <-. auto.
    + intros e1 w1' E'. discriminate E'.
  - exists e1, w1. split; [|split].
    + unfold divergence_barplot. apply B_bind_Raise. exact E.
    + intros out w1' E'. discriminate E'.
    + intros e1' w1' E'. injection E' as <- <-. auto.
Qed.

(** The method [jsd] on the object of the examples: the densities of "a" and
    "b" are estimated and the plot ends in the [KeyError]. *)
Lemma divergence_barplot_never_draws_witness :
  exists w',
    divergence_barplot (H := lenient_sklearn) (H0 := coarse_math)
      (H1 := constant_scipy (Finite (1 # 4)))
      "a" ["b"] "gaussian" "jsd" false session_world
    = (Raise (KeyError "jsd distance"), w')
    /\ estimated w' = ["a"; "b"].
Proof.
  destruct (divergence_barplot_never_draws (SK := lenient_sklearn)
              (NM := coarse_math) (SC := constant_scipy (Finite (1 # 4)))
              session_world "a" ["b"] "gaussian" "jsd" false)
    as (e & w' & E & Hok & _).
  destruct (calc_divergence (H := lenient_sklearn) (H0 := coarse_math)
              (H1 := constant_scipy (Finite (1 # 4)))
              "a" ["b"] "gaussian" "jsd" false session_world)
    as [r w1] eqn:Ec.
  assert (Hr : exists out, r = Ok out /\ estimated w1 = ["a"; "b"]).
  { vm_compute in Ec. injection Ec as <- <-. eexists. split; reflexivity. }
  destruct Hr as (out & -> & He1).
  destruct (Hok out w1 eq_refl) as (-> & _ & He).
  exists w'. split; [exact E | congruence].
Defined.

(** *** Loading the samples *)

Lemma loaded_table_with_kde_cache {LD : Loader} (s : EvaluateBatchEffects)
    (c : dict (list Q)) (id : string) :
  loaded_table (with_kde_cache s c) id = loaded_table s id.
Proof. reflexivity. Qed.

Lemma mapM_ordered_load_inv {LD : Loader} (s : EvaluateBatchEffects)
    (ids : list string) (w w' : world) (loaded : list (string * option Table)) :
  mapM (ordered_load_transform s) ids w = (Ok loaded, w') ->
  loaded = map (fun id => (id, loaded_table s id)) ids
  /\ Forall (fun id =>
               forall e,
                 load_and_transform id (root_population s) (transform s)
                   (scale s) (sample_n s) = Raise e ->
                 exists k, e = KeyError k) ids
  /\ self w' = self w /\ estimated w' = estimated w
  /\ stdout w'
     = stdout w
       ++ map (fun id => "Sample " ++ id ++ " missing root population "
                           ++ root_population s)%string
              (List.filter (missing s) ids).
Proof.
  revert w loaded. induction ids as [|id ids IH]; intros w loaded E; simpl in E.
  - injection E as <- <-. rewrite app_nil_r. repeat split. constructor.
  - apply B_bind_Ok_inv in E as (c & w1 & Ec & E).
    apply B_bind_Ok_inv in E as (cs & w2 & Ecs & E).
    injection E as <- <-.
    destruct (IH _ _ Ecs) as (-> & Hk & Hs & He & Ho).
    unfold ordered_load_transform in Ec. simpl.
    destruct (load_and_transform id (root_population s) (transform s)
                (scale s) (sample_n s)) as [df|e] eqn:El.
    + assert (Hlt : loaded_table s id = Some df)
        by (unfold loaded_table; rewrite El; reflexivity).
      assert (Hmi : missing s id = false)
        by (unfold missing; rewrite Hlt; reflexivity).
      rewrite Hlt, Hmi. injection Ec as <- <-. simpl.
      split; [reflexivity|]. split; [|auto].
      constructor; [intros e Ee; congruence | exact Hk].
    + assert (Hlt : loaded_table s id = None)
        by (unfold loaded_table; rewrite El; reflexivity).
      assert (Hmi : missing s id = true)
        by (unfold missing; rewrite Hlt; reflexivity).
      rewrite Hlt, Hmi.
      destruct e; try discriminate Ec.
      apply B_bind_Ok_inv in Ec as (u & w0 & Ep & Ec).
      injection Ec as <- <-. injection Ep as _ <-. simpl in *.
      split; [reflexivity|]. split; [|split; [exact Hs|split; [exact He|]]].
      * constructor; [|exact Hk]. intros e Ee.
        destruct e; try congruence; eauto.
      * rewrite Ho. simpl. rewrite <- app_assoc. reflexivity.
Qed.

Lemma mapM_ordered_load_Raise {LD : Loader} (s : EvaluateBatchEffects)
    (ids : list string) (w w' : world) (e : exn) :
  mapM (ordered_load_transform s) ids w = (Raise e, w') ->
  exists id,
    id ∈ ids
    /\ load_and_transform id (root_population s) (transform s)
         (scale s) (sample_n s) = Raise e
    /\ forall k, e <> KeyError k.
Proof.
  revert w. induction ids as [|id ids IH]; intros w E; simpl in E.
  - discriminate E.
  - rewrite B_bind_run in E.
    destruct (ordered_load_transform s id w) as [[c|e1] w1] eqn:Ec.
    + rewrite B_bind_run in E.
      destruct (mapM (ordered_load_transform s) ids w1) as [[cs|e2] w2] eqn:Ecs.
      * discriminate E.
      * injection E as <- <-. destruct (IH _ Ecs) as (id' & Hin & Hl & Hne).
        exists id'. split; [right; exact Hin | auto].
    + injection E as <- <-. exists id. split; [left|].
      unfold ordered_load_transform in Ec.
      destruct (load_and_transform id (root_population s) (transform s)
                  (scale s) (sample_n s)) as [df|e0]; [discriminate Ec|].
      destruct e0; try (injection Ec as <- _; split; [reflexivity|discriminate]).
      discriminate Ec.
Qed.

Lemma dict_get_loaded (f : string -> option Table) (ids : list string)
    (acc : dict Table) (id : string) :
  dict_get (fold_left (fun samples named =>
                         match snd named with
                         | Some df => dict_set samples (fst named) df
                         | None => samples
                         end)
                      (map (fun id => (id, f id)) ids) acc) id
  = match (if decide (id ∈ ids) then f id else None) with
    | Some df => Some df
    | None => dict_get acc id
    end.
Proof.
  revert acc. induction ids as [|a ids IH]; intros acc; simpl.
  - destruct (decide (id ∈ [])) as [Hin|_]; [inversion Hin | reflexivity].
  - rewrite IH. destruct (decide (id = a)) as [->|Hne].
    + destruct (decide (a ∈ a :: ids)) as [_|Hn]; [|exfalso; apply Hn; left].
      destruct (f a) as [df|] eqn:Efa.
      * destruct (decide (a ∈ ids)); [reflexivity | apply dict_get_set_eq].
      * destruct (decide (a ∈ ids)); reflexivity.
    + assert (Hacc : dict_get match f a with
                              | Some df => dict_set acc a df
                              | None => acc
                              end id = dict_get acc id).
      { destruct (f a); [apply dict_get_set_ne; exact Hne | reflexivity]. }
      rewrite Hacc.
      destruct (decide (id ∈ ids)) as [Hin|Hnin];
        destruct (decide (id ∈ a :: ids)) as [Hin'|Hnin']; try reflexivity.
      * exfalso. apply Hnin'. right. exact Hin.
      * exfalso. apply elem_of_cons in Hin' as [?|?]; contradiction.
Qed.

Lemma load_data_Ok_inv {LD : Loader} (w w' : world) (samples : dict Table) :
  load_data w = (Ok samples, w') ->
  samples
  = fold_left (fun samples named =>
                 match snd named with
                 | Some df => dict_set samples (fst named) df
                 | None => samples
                 end)
              (map (fun id => (id, loaded_table (self w) id))
                   (sample_ids (self w))) []
  /\ mapM (ordered_load_transform (with_kde_cache (self w) []))
          (sample_ids (self w))
          {| self := with_kde_cache (self w) []; stdout := stdout w;
             estimated := estimated w |}
     = (Ok (map (fun id => (id, loaded_table (self w) id))
                (sample_ids (self w))), w').
Proof.
  intros E. unfold load_data in E.
  apply B_bind_Ok_inv in E as (s & w1 & E1 & E). injection E1 as <- <-.
  apply B_bind_Ok_inv in E as (u & w2 & E2 & E). injection E2 as _ <-.
  apply B_bind_Ok_inv in E as (s1 & w3 & E3 & E). injection E3 as <- <-.
  apply B_bind_Ok_inv in E as (loaded & w4 & E4 & E). injection E as <- <-.
  simpl in E4. pose proof (mapM_ordered_load_inv _ _ _ _ _ E4) as (-> & _).
  split; [reflexivity | exact E4].
Qed.

(** What a load keeps.  When [load_data] returns, its dictionary has, for
    every id of [self.sample_ids], the table the loader returned for it, and
    nothing else: an id whose loading raised [KeyError] has no entry, and the
    line that reports it is among the lines printed since the call (the
    loader and its workers may print more, and in any order).  The cache of
    the object is emptied, and nothing else of the object is changed. *)
Theorem load_data_keeps_what_was_loaded {LD : Loader}
    (w w' : world) (samples : dict Table) :
  load_data w = (Ok samples, w') ->
  (forall id,
     dict_get samples id
     = if decide (id ∈ sample_ids (self w)) then loaded_table (self w) id
       else None)
  /\ self w' = with_kde_cache (self w) []
  /\ estimated w' = estimated w
  /\ exists lines,
       stdout w' = stdout w ++ lines
       /\ forall id,
            id ∈ sample_ids (self w) -> missing (self w) id = true ->
            ("Sample " ++ id ++ " missing root population "
               ++ root_population (self w))%string ∈ lines.
Proof.
  intros E. apply load_data_Ok_inv in E as (-> & E).
  apply mapM_ordered_load_inv in E as (_ & _ & Hs & He & Ho). simpl in *.
  split; [|split; [exact Hs|split; [exact He|]]].
  2: { eexists. split; [exact Ho|]. intros id Hid Hmiss.
       apply (list_elem_of_fmap_2
                (fun id => "Sample " ++ id ++ " missing root population "
                             ++ root_population (self w))%string).
       apply list_elem_of_In, filter_In. split; [|exact Hmiss].
       apply list_elem_of_In. exact Hid. }
  intros id. rewrite dict_get_loaded.
  destruct (decide (id ∈ sample_ids (self w))); [|reflexivity].
  destruct (loaded_table (self w) id); reflexivity.
Qed.

Lemma load_data_keeps_what_was_loaded_witness :
  exists w',
    load_data (H2 := three_samples) incomplete_world
    = (Ok [("a", two_scales); ("b", two_scales)], w')
    /\ self w' = with_kde_cache incomplete_session []
    /\ "Sample d missing root population root" ∈ stdout w'.
Proof.
  destruct (load_data (H2 := three_samples) incomplete_world)
    as [r w'] eqn:E.
  assert (Hr : r = Ok [("a", two_scales); ("b", two_scales)])
    by (vm_compute in E; injection E as <- _; reflexivity).
  subst r. exists w'. split; [reflexivity|].
  destruct (load_data_keeps_what_was_loaded (LD := three_samples)
              incomplete_world w' _ E) as (_ & Hs & _ & lines & Ho & Hp).
  split; [exact Hs|]. rewrite Ho. apply elem_of_app. right.
  apply (Hp "d"); [|reflexivity].
  apply list_elem_of_further, list_elem_of_here.
Defined.

(** A load survives the samples that miss the root population and no other
    failure: it returns when every loading that raises raises [KeyError],
    and when it raises, it raises the error of the loading of one of the ids,
    which is not a [KeyError]. *)
Theorem load_data_survives_missing_samples_only {LD : Loader} (w : world) :
  (Forall (fun id =>
             forall e,
               load_and_transform id (root_population (self w))
                 (transform (self w)) (scale (self w)) (sample_n (self w))
               = Raise e ->
               exists k, e = KeyError k)
          (sample_ids (self w)) ->
   exists samples w', load_data w = (Ok samples, w'))
  /\ (forall e w',
        load_data w = (Raise e, w') ->
        exists id,
          id ∈ sample_ids (self w)
          /\ load_and_transform id (root_population (self w))
               (transform (self w)) (scale (self w)) (sample_n (self w))
             = Raise e
          /\ forall k, e <> KeyError k).
Proof.
  split.
  - intros Hk. unfold load_data.
    rewrite (B_bind_Ok get_self _ w w (self w) eq_refl).
    rewrite (B_bind_Ok (set_self _) _ w _ tt eq_refl).
    rewrite (B_bind_Ok get_self _ _ _ _ eq_refl).
    rewrite B_bind_run.
    destruct (mapM _ _ _) as [[loaded|e] w1] eqn:Em;
      [eexists _, _; reflexivity|].
    exfalso. apply mapM_ordered_load_Raise in Em as (id & Hin & Hl & Hne).
    rewrite Forall_forall in Hk. destruct (Hk id Hin e Hl) as (k & ->).
    apply (Hne k eq_refl).
  - intros e w' E. unfold load_data in E.
    rewrite (B_bind_Ok get_self _ w w (self w) eq_refl) in E.
    rewrite (B_bind_Ok (set_self _) _ w _ tt eq_refl) in E.
    rewrite (B_bind_Ok get_self _ _ _ _ eq_refl) in E.
    rewrite B_bind_run in E. simpl self in E. simpl sample_ids in E.
    destruct (mapM _ _ _) as [[loaded|e1] w1] eqn:Em; [discriminate E|].
    injection E as <- <-.
    apply mapM_ordered_load_Raise in Em. exact Em.
Qed.

Lemma load_data_survives_missing_samples_only_witness :
  (exists samples w',
     load_data (H2 := three_samples) incomplete_world = (Ok samples, w'))
  /\ fst (load_data (H2 := failing_loader) incomplete_world)
     = Raise (ValueError "no such gate").
Proof.
  split.
  - apply (load_data_survives_missing_samples_only (LD := three_samples)
             incomplete_world).
    repeat constructor; intros e Ee; vm_compute in Ee;
      try discriminate Ee; injection Ee as <-; eauto.
  - reflexivity.
Defined.

(** *** The rows of the divergence matrix *)

Lemma str_in_elem_of (x : string) (l : list string) :
  x ∈ l -> str_in x l = true.
Proof.
  unfold str_in. intros Hin. apply existsb_exists. exists x.
  split; [apply list_elem_of_In, Hin | apply String.eqb_refl].
Qed.

Lemma reported_names {NM : NumpyMath} {SC : Scipy} (m t : string)
    (cache c : dict (list Q)) (out : list (string * float)) :
  Forall2 (fun o e => reported_pair m cache t e = Ok o) out c ->
  map fst out = dict_keys c.
Proof.
  unfold dict_keys. induction 1 as [|o e out' c' Hoe _ IH]; simpl;
    [reflexivity|].
  rewrite IH, (reported_pair_fst _ _ _ e e o Hoe). reflexivity.
Qed.

Lemma calc_divergence_saturates {SK : Sklearn} {NM : NumpyMath} {SC : Scipy}
    (w w1 : world) (t : string) (cs : list string) (k m : string) (v : bool)
    (out : list (string * float)) :
  calc_divergence t cs k m v w = (Ok out, w1) -> saturated cs w1.
Proof.
  intros E id Hcs Hd.
  apply calc_divergence_Ok_inv in E as (_ & (new & Hnew & _ & Hs) & _).
  unfold cache_of. rewrite Hs in Hd |- *. simpl in *.
  apply dict_mem_store_all.
  destruct (dict_mem (cache_of w) id) eqn:Hc; [left; reflexivity|].
  right. rewrite Hnew. apply elem_of_to_estimate. auto.
Qed.

Lemma saturated_query_is_silent {SK : Sklearn} {NM : NumpyMath} {SC : Scipy}
    (w w1 : world) (t : string) (cs : list string) (k m : string) (v : bool)
    (out : list (string * float)) :
  saturated cs w -> str_in t cs = true ->
  calc_divergence t cs k m v w = (Ok out, w1) ->
  self w1 = self w /\ estimated w1 = estimated w
  /\ map fst out = dict_keys (cache_of w).
Proof.
  intros Hsat Ht E.
  pose proof (calc_divergence_triple w t cs k m v w (Ok out) w1 eq_refl E)
    as (_ & _ & Hout).
  apply reported_names in Hout.
  apply calc_divergence_Ok_inv in E as (_ & (new & Hnew & Hd & Hs) & He).
  assert (Hnil : to_estimate (self w) t cs = []).
  { apply elem_of_nil_inv. intros id Hid.
    pose proof Hid as Hid'. apply elem_of_to_estimate in Hid' as [Hc Hwhy].
    assert (Hdata : str_in id cs = true /\ id ∈ dict_keys (data (self w))).
    { destruct Hwhy as [->|Hwhy]; [|exact Hwhy]. split; [exact Ht|].
      rewrite <- Hnew in Hid. apply list_elem_of_fmap in Hid as (nq & -> & Hin).
      rewrite Forall_forall in Hd. destruct (Hd nq Hin) as (x & Hx & _).
      unfold dict_keys.
      apply (list_elem_of_fmap_2 fst (data (self w)) (fst nq, x) Hx). }
    destruct Hdata as [Hcs Hdata]. pose proof (Hsat id Hcs Hdata) as Hin.
    unfold cache_of in *. congruence. }
  rewrite Hnil in Hnew, He. destruct new; [|discriminate Hnew].
  simpl in Hs. unfold cache_of in Hs. rewrite with_kde_cache_same in Hs.
  rewrite app_nil_r in He. unfold cache_of in *. rewrite Hs in Hout. auto.
Qed.

Lemma saturated_rows {SK : Sklearn} {NM : NumpyMath} {SC : Scipy}
    (samples : list string) (k m : string) (l : list string)
    (w w' : world) (rows : list (string * list (string * float))) :
  saturated samples w -> l ⊆ samples ->
  mapM (fun x =>
          divergence ← calc_divergence x samples k m false;
          ret (x, divergence)) l w
  = (Ok rows, w') ->
  self w' = self w /\ estimated w' = estimated w
  /\ map fst rows = l
  /\ Forall (fun row => map fst (snd row) = dict_keys (cache_of w)) rows.
Proof.
  revert w rows. induction l as [|x l IH]; intros w rows Hsat Hsub E;
    simpl in E.
  - injection E as <- <-. repeat split. constructor.
  - apply B_bind_Ok_inv in E as (row & w1 & Ex & E).
    apply B_bind_Ok_inv in E as (rest & w2 & Erest & E).
    injection E as <- <-.
    apply B_bind_Ok_inv in Ex as (out & w0 & Ex & Er).
    injection Er as <- <-.
    assert (Hx : str_in x samples = true).
    { apply str_in_elem_of, Hsub. left. }
    destruct (saturated_query_is_silent _ _ _ _ _ _ _ _ Hsat Hx Ex)
      as (Hs1 & He1 & Hn1).
    assert (Hsat1 : saturated samples w0).
    { intros id Hid Hd. unfold cache_of. rewrite Hs1 in Hd |- *.
      apply Hsat; assumption. }
    assert (Hsub1 : l ⊆ samples).
    { intros y Hy. apply Hsub. right. exact Hy. }
    destruct (IH _ _ Hsat1 Hsub1 Erest) as (Hs2 & He2 & Hn2 & Hr2).
    unfold cache_of in *. rewrite Hs1 in Hs2, Hr2. rewrite He1 in He2.
    split; [exact Hs2|]. split; [exact He2|]. simpl.
    split; [rewrite Hn2; reflexivity|].
    constructor; [exact Hn1 | exact Hr2].
Qed.

(** The matrix costs one round of estimations.  When the loop over the
    samples returns, every density it needed was estimated by the query for
    the first sample; the later queries estimate nothing.  There is one row
    per sample, in the order of the samples, and every row has the same
    columns in the same order: the ids of the cache as the loop leaves it,
    the excluded samples among them when the cache had their density. *)
Theorem divergence_matrix_rows {SK : Sklearn} {NM : NumpyMath} {SC : Scipy}
    (w w' : world) (exclude : option (list string))
    (kde_kernel divergence_method : string)
    (rows : list (string * list (string * float))) :
  divergence_matrix exclude kde_kernel divergence_method w = (Ok rows, w') ->
  let samples := matrix_samples (self w) exclude in
  map fst rows = samples
  /\ Forall (fun row => map fst (snd row) = dict_keys (cache_of w')) rows
  /\ estimated w'
     = estimated w
       ++ match samples with
          | [] => []
          | first :: _ => to_estimate (self w) first samples
          end
  /\ (forall id, id ∈ dict_keys (cache_of w) -> id ∈ dict_keys (cache_of w')).
Proof.
  intros E. cbv zeta. unfold divergence_matrix in E.
  rewrite (B_bind_Ok get_self _ w w (self w) eq_refl) in E.
  change (mapM (fun x =>
                  divergence ← calc_divergence x
                                 (matrix_samples (self w) exclude) kde_kernel
                                 divergence_method false;
                  ret (x, divergence))
               (matrix_samples (self w) exclude) w = (Ok rows, w')) in E.
  destruct (matrix_samples (self w) exclude) as [|first rest].
  - simpl in E. injection E as <- <-. rewrite app_nil_r.
    repeat split; [constructor | auto].
  - simpl in E.
    apply B_bind_Ok_inv in E as (row & w1 & Ex & E).
    apply B_bind_Ok_inv in E as (rows' & w2 & Erest & E).
    injection E as <- <-.
    apply B_bind_Ok_inv in Ex as (out & w0 & Ex & Er).
    injection Er as <- <-.
    pose proof (calc_divergence_saturates _ _ _ _ _ _ _ _ Ex) as Hsat.
    pose proof (calc_divergence_triple w first (first :: rest) kde_kernel
                  divergence_method false w (Ok out) w0 eq_refl Ex)
      as ((_ & Hext & _) & _ & Hout).
    apply reported_names in Hout.
    pose proof (calc_divergence_Ok_inv _ _ _ _ _ _ _ _ Ex) as (_ & _ & He0).
    assert (Hsub : rest ⊆ first :: rest).
    { intros y Hy. right. exact Hy. }
    destruct (saturated_rows _ _ _ _ _ _ _ Hsat Hsub Erest)
      as (Hs2 & He2 & Hn2 & Hr2).
    assert (Hc : cache_of w2 = cache_of w0) by (unfold cache_of; congruence).
    rewrite Hc. split; [simpl; rewrite Hn2; reflexivity|].
    split; [constructor; [exact Hout | exact Hr2]|].
    split; [rewrite He2; exact He0|].
    intros id Hid. apply dict_mem_keys. apply dict_mem_keys in Hid.
    unfold dict_mem in *.
    destruct (dict_get (cache_of w) id) as [q|] eqn:Eq; [|discriminate].
    rewrite (Hext id q Eq). reflexivity.
Qed.

(** The matrix of "a" and "b", "c" excluded, on the object that has the
    density of "c": "a" and "b" are estimated by the first query, and both
    rows have the columns "c", "a" and "b". *)
Lemma divergence_matrix_rows_witness :
  let run :=
    divergence_matrix (H := lenient_sklearn) (H0 := coarse_math)
      (H1 := constant_scipy (Finite (1 # 4)))
      (Some ["c"]) "gaussian" "jsd" session_world in
  map fst (match fst run with Ok rows => rows | Raise _ => [] end) = ["a"; "b"]
  /\ estimated (snd run) = ["a"; "b"]
  /\ dict_keys (cache_of (snd run)) = ["c"; "a"; "b"].
Proof.
  intros run.
  destruct run as [r w'] eqn:E.
  assert (Hr : exists rows, r = Ok rows
                            /\ dict_keys (cache_of w') = ["c"; "a"; "b"]).
  { vm_compute in E. injection E as <- <-. eexists. split; reflexivity. }
  destruct Hr as (rows & -> & Hkeys).
  destruct (divergence_matrix_rows (SK := lenient_sklearn) (NM := coarse_math)
              (SC := constant_scipy (Finite (1 # 4)))
              session_world w' (Some ["c"]) "gaussian" "jsd" rows E)
    as (Hn & _ & He & _).
  split; [exact Hn|]. split; [exact He | exact Hkeys].
Defined.

End BatchEffectsExtra.
